(** * PySys test-execution engine: a shallow embedding and its properties

    The development follows the Python sources of the engine:

    - [pysys/process/user.py]   (class [ProcessUser])
    - [pysys/baserunner.py]     (classes [BaseRunner] and [TestContainer])
    - [pysys/utils/perfreporter.py]
                                (classes [CSVPerformanceReporter] and
                                 [CSVPerformanceFile])

    Python objects become records, dictionaries become finite maps,
    methods become functions that take the object state and return the new
    one.  Exceptions are explicit: a method that can raise returns a value
    that says so.  Part I holds the definitions, Part II the properties. *)

From Stdlib Require Import ZArith List String Ascii Lia Floats Reals Lra Sorted.
From stdpp Require Import base gmap strings list pretty.

Open Scope string_scope.
Open Scope list_scope.

(** * Part I: definitions *)

(** ** Outcomes ([pysys/constants.py]) *)

(** The eight outcomes.  In the source they are integer constants; only
    their identity and their position in [PRECEDENT] are ever used. *)
Inductive Outcome : Set :=
  | SKIPPED | BLOCKED | DUMPEDCORE | TIMEDOUT
  | FAILED | NOTVERIFIED | INSPECT | PASSED.

#[global] Instance Outcome_eq_dec : EqDecision Outcome.
Proof. solve_decision. Defined.

(** Modelled from the spec: the list [PRECEDENT] of [pysys/constants.py],
    which is not part of the sources at hand.  The order is the one of the
    data model, highest precedence first. *)
Definition PRECEDENT : list Outcome :=
  [SKIPPED; BLOCKED; DUMPEDCORE; TIMEDOUT; FAILED; NOTVERIFIED; INSPECT; PASSED].

(** [list.index(x)]: position of the first occurrence, [None] standing for
    the [ValueError] of Python. *)
Fixpoint list_index {A} `{EqDecision A} (x : A) (l : list A) : option nat :=
  match l with
  | [] => None
  | y :: l' => if decide (x = y) then Some 0 else S <$> list_index x l'
  end.

(** The sort key [lambda x: PRECEDENT.index(x)] of [getOutcome].
    [PRECEDENT_index_total] below shows that the [ValueError] branch is
    never taken. *)
Definition PRECEDENT_index (x : Outcome) : nat :=
  match list_index x PRECEDENT with
  | Some i => i
  | None => 0
  end.

(** [sorted(l, key=key)]: Python's sort is stable, and a stable sort by a
    key is a function of its input; insertion from the right is one. *)
Fixpoint insert_sorted {A} (key : A -> nat) (x : A) (l : list A) : list A :=
  match l with
  | [] => [x]
  | y :: l' => if (key x <=? key y)%nat then x :: y :: l'
               else y :: insert_sorted key x l'
  end.

Fixpoint sorted {A} (key : A -> nat) (l : list A) : list A :=
  match l with
  | [] => []
  | x :: l' => insert_sorted key x (sorted key l')
  end.

(** ** Strings *)

(** Characters removed by [str.strip()]. *)
Definition is_space (c : ascii) : bool :=
  let n := nat_of_ascii c in
  (n =? 32)%nat || ((9 <=? n)%nat && (n <=? 13)%nat).

Fixpoint lstrip (s : string) : string :=
  match s with
  | EmptyString => EmptyString
  | String c s' => if is_space c then lstrip s' else s
  end.

Definition strip (s : string) : string :=
  String.rev (lstrip (String.rev (lstrip s))).

Fixpoint startswith (p s : string) : bool :=
  match p, s with
  | EmptyString, _ => true
  | String a p', String b s' => if decide (a = b) then startswith p' s' else false
  | String _ _, EmptyString => false
  end.

Definition endswith (p s : string) : bool :=
  startswith (String.rev p) (String.rev s).

(** [os.path.join(a, b)] of [posixpath], for two components. *)
Definition os_path_join (a b : string) : string :=
  if startswith "/" b then b
  else if decide (a = "") then b
  else if endswith "/" a then a +:+ b
  else a +:+ "/" +:+ b.

(** ** Processes ([pysys/process/helper.py]) *)

(** A process handle.  [proc_stop_raises] says whether [stop()] on this
    handle raises [ProcessError]. *)
Record Process : Set := {
  proc_id : nat;
  proc_stop_raises : bool
}.

(** ** The process user ([pysys/process/user.py]) *)

(** A callable handed to [addCleanupFunction].  [fn_ident] is the identity
    of the Python object, [fn_truthy] its truth value ([None] and other
    falsy values have [false]). *)
Record CleanupFn : Set := {
  fn_ident : nat;
  fn_truthy : bool
}.

#[global] Instance CleanupFn_eq_dec : EqDecision CleanupFn.
Proof. solve_decision. Defined.

(** The attributes of [ProcessUser.__init__]. *)
Record ProcessUser : Type := {
  processList : list Process;
  processCount : gmap string Z;
  cleanupFunctions : list CleanupFn;
  outcome : list Outcome;
  outcomeReason : string;
  defaultAbortOnError : bool;
  defaultIgnoreExitStatus : bool;
  uniqueProcessKeys : gmap string Z;
  output : string
}.

(** [ProcessUser.__init__], given the two project settings and the output
    directory. *)
Definition ProcessUser_init (abortOnError ignoreExitStatus : bool)
    (out : string) : ProcessUser :=
  {| processList := [];
     processCount := ∅;
     cleanupFunctions := [];
     outcome := [];
     outcomeReason := "";
     defaultAbortOnError := abortOnError;
     defaultIgnoreExitStatus := ignoreExitStatus;
     uniqueProcessKeys := ∅;
     output := out |}.

(** [ProcessUser.getOutcome]. *)
Definition getOutcome (self : ProcessUser) : Outcome :=
  if (length (outcome self) =? 0)%nat then NOTVERIFIED
  else match sorted PRECEDENT_index (outcome self) with
       | x :: _ => x
       | [] => NOTVERIFIED
       end.

(** [ProcessUser.getOutcomeReason]. *)
Definition getOutcomeReason (self : ProcessUser) : string :=
  outcomeReason self.

(** Field updates of the record, one per attribute that the methods
    assign. *)
Definition set_outcome (l : list Outcome) (self : ProcessUser) : ProcessUser :=
  {| processList := processList self; processCount := processCount self;
     cleanupFunctions := cleanupFunctions self; outcome := l;
     outcomeReason := outcomeReason self;
     defaultAbortOnError := defaultAbortOnError self;
     defaultIgnoreExitStatus := defaultIgnoreExitStatus self;
     uniqueProcessKeys := uniqueProcessKeys self; output := output self |}.

Definition set_outcomeReason (r : string) (self : ProcessUser) : ProcessUser :=
  {| processList := processList self; processCount := processCount self;
     cleanupFunctions := cleanupFunctions self; outcome := outcome self;
     outcomeReason := r;
     defaultAbortOnError := defaultAbortOnError self;
     defaultIgnoreExitStatus := defaultIgnoreExitStatus self;
     uniqueProcessKeys := uniqueProcessKeys self; output := output self |}.

Definition set_uniqueProcessKeys (m : gmap string Z) (self : ProcessUser) : ProcessUser :=
  {| processList := processList self; processCount := processCount self;
     cleanupFunctions := cleanupFunctions self; outcome := outcome self;
     outcomeReason := outcomeReason self;
     defaultAbortOnError := defaultAbortOnError self;
     defaultIgnoreExitStatus := defaultIgnoreExitStatus self;
     uniqueProcessKeys := m; output := output self |}.

Definition set_cleanupFunctions (l : list CleanupFn) (self : ProcessUser) : ProcessUser :=
  {| processList := processList self; processCount := processCount self;
     cleanupFunctions := l; outcome := outcome self;
     outcomeReason := outcomeReason self;
     defaultAbortOnError := defaultAbortOnError self;
     defaultIgnoreExitStatus := defaultIgnoreExitStatus self;
     uniqueProcessKeys := uniqueProcessKeys self; output := output self |}.

Definition set_processes (l : list Process) (c : gmap string Z)
    (self : ProcessUser) : ProcessUser :=
  {| processList := l; processCount := c;
     cleanupFunctions := cleanupFunctions self; outcome := outcome self;
     outcomeReason := outcomeReason self;
     defaultAbortOnError := defaultAbortOnError self;
     defaultIgnoreExitStatus := defaultIgnoreExitStatus self;
     uniqueProcessKeys := uniqueProcessKeys self; output := output self |}.

(** [ProcessUser.allocateUniqueStdOutErr]: the new state and the pair
    [(stdout, stderr)].  ['.%d' % newval] is the decimal numeral. *)
Definition allocateUniqueStdOutErr (self : ProcessUser) (processKey : string)
    : ProcessUser * (string * string) :=
  let newval := (default (-1) (uniqueProcessKeys self !! processKey) + 1)%Z in
  let self' := set_uniqueProcessKeys (<[processKey := newval]> (uniqueProcessKeys self)) self in
  let suffix := if (0 <? newval)%Z then "." +:+ pretty newval else "" in
  (self', (os_path_join (output self) (processKey +:+ suffix +:+ ".out"),
           os_path_join (output self) (processKey +:+ suffix +:+ ".err"))).

(** The exception [AbortExecution(outcome, outcomeReason, callRecord)]
    raised by [ProcessUser.abort]; the call record is a log detail and is
    left out. *)
Record AbortExecution : Set := {
  abort_outcome : Outcome;
  abort_reason : string
}.

(** [ProcessUser.addOutcome].  [FAILS] is the list of failure outcomes of
    [pysys/constants.py], which is not among the sources, so it is an
    argument.  [abortOnError = None] is the default of the signature.  The
    result is the new state and the exception raised, if any: the state is
    updated before [abort] is reached.  Logging is omitted. *)
Definition addOutcome (FAILS : list Outcome) (self : ProcessUser)
    (o : Outcome) (reason : string) (abortOnError : option bool)
    : ProcessUser * option AbortExecution :=
  let abortOnError := default (defaultAbortOnError self) abortOnError in
  let outcomeReason := if decide (reason = "") then "" else strip reason in
  let old := getOutcome self in
  let self1 := set_outcome (outcome self ++ [o]) self in
  let self2 := if decide (getOutcome self1 = old) then self1
               else set_outcomeReason outcomeReason self1 in
  (self2,
   if bool_decide (o ∈ FAILS) && abortOnError
   then Some {| abort_outcome := o; abort_reason := outcomeReason |}
   else None).

(** A sequence of [addOutcome] calls on one object, each with its outcome
    and reason; an abort raised by a call leaves the object as that call
    made it, so the state is threaded through. *)
Definition addOutcomes (FAILS : list Outcome) (self : ProcessUser)
    (calls : list (Outcome * string)) : ProcessUser :=
  foldl (fun s c => fst (addOutcome FAILS s (fst c) (snd c) None)) self calls.

(** [ProcessUser.addCleanupFunction]: [fn not in list] compares the
    objects, which for functions is identity. *)
Definition addCleanupFunction (self : ProcessUser) (fn : CleanupFn) : ProcessUser :=
  if fn_truthy fn && negb (bool_decide (fn ∈ cleanupFunctions self))
  then set_cleanupFunctions (cleanupFunctions self ++ [fn]) self
  else self.

(** What calling a cleanup function does: it may register further cleanup
    functions and start processes on the same object, it may start or stop
    processes of the system, and it returns, raises an error (a subclass
    of [Exception]) or is interrupted ([KeyboardInterrupt], [SystemExit]:
    not a subclass of [Exception]). *)
Inductive FnResult : Set := FnReturns | FnRaisesError | FnRaisesInterrupt.

Record FnBehaviour : Type := {
  fn_registers : list CleanupFn;
  fn_starts : list Process;
  fn_running : gset nat -> gset nat;
  fn_result : FnResult
}.

(** What is observed of a cleanup: the calls made, in order. *)
Inductive Event : Set :=
  | CalledFn (f : CleanupFn)
  | CalledStop (p : Process).

#[global] Instance Process_eq_dec : EqDecision Process.
Proof. solve_decision. Defined.

#[global] Instance Event_eq_dec : EqDecision Event.
Proof. solve_decision. Defined.

(** The world outside the object: which processes run, and the calls made
    so far. *)
Record World : Type := {
  running : gset nat;
  events : list Event
}.

(** Modelled from the spec: [ProcessWrapper.stop] of
    [pysys/process/helper.py], which is not among the sources.  A stopped
    process has [running() == false]; a failing [stop] raises
    [ProcessError] and leaves the process as it was. *)
Definition process_stop (p : Process) (w : World) : World * bool :=
  ({| running := if proc_stop_raises p then running w
                 else running w ∖ {[proc_id p]};
      events := events w ++ [CalledStop p] |},
   proc_stop_raises p).

(** The loop of the [finally] block of [cleanup]:
    [if process.running(): process.stop()], exceptions logged. *)
Fixpoint stop_processes (ps : list Process) (w : World) : World :=
  match ps with
  | [] => w
  | p :: ps' =>
      let w' := if bool_decide (proc_id p ∈ running w)
                then fst (process_stop p w) else w in
      stop_processes ps' w'
  end.

Section Cleanup.

(** What each registered callable does when called. *)
Variable behaviour : CleanupFn -> FnBehaviour.

(** One call [fn()]. *)
Definition call_fn (fn : CleanupFn) (st : ProcessUser * World)
    : ProcessUser * World * FnResult :=
  let b := behaviour fn in
  let self := fst st in
  let w := snd st in
  let self1 := foldl addCleanupFunction self (fn_registers b) in
  let self2 := set_processes (processList self1 ++ fn_starts b)
                             (processCount self1) self1 in
  (self2,
   {| running := fn_running b (running w);
      events := events w ++ [CalledFn fn] |},
   fn_result b).

(** The loop [for fn in reversed(self.__cleanupFunctions)] over the
    functions [fns] that the iterator yields; the boolean says that a call
    was interrupted, which leaves the loop. *)
Fixpoint run_cleanup_functions (fns : list CleanupFn) (st : ProcessUser * World)
    : ProcessUser * World * bool :=
  match fns with
  | [] => (st, false)
  | fn :: rest =>
      match call_fn fn st with
      | (self', w', FnRaisesInterrupt) => (self', w', true)
      | (self', w', _) => run_cleanup_functions rest (self', w')
      end
  end.

(** [ProcessUser.cleanup].  The reverse iterator of a list reads it by
    decreasing index from its length at the start, so functions appended
    during the loop are not visited.  The boolean of the result says that
    the call raised (an interrupt passed through the [finally] block)
    instead of returning. *)
Definition cleanup (st : ProcessUser * World) : ProcessUser * World * bool :=
  match run_cleanup_functions (rev (cleanupFunctions (fst st))) st with
  | (self1, w1, interrupted) =>
      let self2 := if interrupted then self1
                   else set_cleanupFunctions [] self1 in
      let w2 := stop_processes (processList self2) w1 in
      (set_processes [] ∅ self2, w2, interrupted)
  end.

End Cleanup.

(** How many times a callable was called, according to a list of events. *)
Definition calls_of (fn : CleanupFn) (evs : list Event) : nat :=
  length (filter (fun e => e = CalledFn fn) evs).

(** The reason given with the first call, among [calls], that added the
    outcome [o]; reasons are stored stripped. *)
Fixpoint reason_given (o : Outcome) (calls : list (Outcome * string)) : option string :=
  match calls with
  | [] => None
  | c :: rest => if decide (fst c = o) then Some (strip (snd c))
                 else reason_given o rest
  end.

(** ** The runner ([pysys/baserunner.py]) *)

(** *** The output directory of a test *)

(** An entry of a directory as [testComplete] sees it: its name, the size
    that [os.lstat] reports ([None] when [lstat] raises [OSError]), and how
    many calls of [os.remove] on it fail before one succeeds (3 or more
    for an entry that cannot be removed, such as a directory). *)
Record DirEntry : Set := {
  entry_name : string;
  entry_size : option Z;
  entry_remove_failures : nat
}.

(** [re.search('run.log', file)]: the pattern is r, u, n, any character
    but a newline, l, o, g, found anywhere in the name. *)
Definition matches_run_log_here (s : string) : bool :=
  match s with
  | String "r" (String "u" (String "n" (String c (String "l" (String "o" (String "g" _)))))) =>
      negb (Ascii.eqb c "010")
  | _ => false
  end.

Fixpoint re_search_run_log (s : string) : bool :=
  matches_run_log_here s
  || match s with
     | EmptyString => false
     | String _ s' => re_search_run_log s'
     end.

(** The loop [while count < 3: try: os.remove(path); break
    except: time.sleep(0.1); count = count + 1], with [fuel] the number of
    attempts left: [None] when the entry is removed, the entry (with the
    failed attempts used up) when it stays. *)
Fixpoint remove_with_retries (fuel : nat) (e : DirEntry) : option DirEntry :=
  match fuel with
  | 0 => Some e
  | S fuel' =>
      match entry_remove_failures e with
      | 0 => None
      | S k => remove_with_retries fuel'
                 {| entry_name := entry_name e; entry_size := entry_size e;
                    entry_remove_failures := k |}
      end
  end.

(** The loop over [os.listdir(dir)]: what is left of the directory.  An
    [OSError] from [lstat] leaves the loop. *)
Fixpoint purge_entries (removeNonZero : bool) (l : list DirEntry) : list DirEntry :=
  match l with
  | [] => []
  | e :: rest =>
      match entry_size e with
      | None => e :: rest
      | Some size =>
          if (size =? 0)%Z
             || (removeNonZero && negb (re_search_run_log (entry_name e)))
          then match remove_with_retries 3 e with
               | None => purge_entries removeNonZero rest
               | Some e' => e' :: purge_entries removeNonZero rest
               end
          else e :: purge_entries removeNonZero rest
      end
  end.

(** The flag [removeNonZero] of [testComplete]. *)
Definition removeNonZero_flag (purge : bool) (testObj : ProcessUser) : bool :=
  purge && forallb (fun o => bool_decide (o = PASSED)) (outcome testObj).

(** [BaseRunner.testComplete(testObj, dir)] on a disk that maps the path
    of a directory to its entries; a path that is not on the disk makes
    [os.listdir] raise [OSError], which is passed over. *)
Definition testComplete (purge : bool) (testObj : ProcessUser) (dir : string)
    (disk : gmap string (list DirEntry)) : gmap string (list DirEntry) :=
  match disk !! dir with
  | None => disk
  | Some entries =>
      <[dir := purge_entries (removeNonZero_flag purge testObj) entries]> disk
  end.

(** Whether [testComplete] tries to remove an entry of the given name and
    size. *)
Definition selected_for_removal (removeNonZero : bool) (name : string) (size : Z) : bool :=
  (size =? 0)%Z || (removeNonZero && negb (re_search_run_log name)).

(** Whether an entry is still there after [testComplete]: it was not
    selected, or its removal failed three times. *)
Definition entry_stays (removeNonZero : bool) (e : DirEntry) : bool :=
  match entry_size e with
  | Some size => negb (selected_for_removal removeNonZero (entry_name e) size)
                 || (3 <=? entry_remove_failures e)%nat
  | None => true
  end.

(** *** Containers and the results queue *)

(** The attributes of a [TestContainer] that has run.  A container that
    [__call__] returns always has a test object. *)
Record TestContainer : Type := {
  counter : nat;
  descriptor_id : string;
  cycle : nat;
  outsubdir : string;
  testObj : ProcessUser;
  testTime : float;
  kbrdInt : bool
}.

(** The steps of the publication of one container, in the order of the
    loop body of [containerCallback]; [ProcessResult w] is the call of
    [processResult] on the writer at position [w] of [self.writers]. *)
Inductive Stage : Set :=
  | Flush
  | LogOutcome
  | TestComplete
  | ProcessResult (writer : nat)
  | Prompt
  | Tally.

#[global] Instance Stage_eq_dec : EqDecision Stage.
Proof. solve_decision. Defined.

(** How a call ends: it returns, it leaves through [sys.exit(1)], it
    raises an exception, or it never ends. *)
Inductive Completion : Set := Returns | SysExit | Raises | Hangs.

#[global] Instance Completion_eq_dec : EqDecision Completion.
Proof. solve_decision. Defined.

(** The attributes of [BaseRunner] that [containerCallback] works on, and
    its surroundings: whether the console handler is at level [WARN] or
    above, the lines waiting on standard input, the disk, and the trace of
    publication steps taken, each with the [counter] of the container it
    was taken for. *)
Record BaseRunner : Type := {
  record : bool;
  purge : bool;
  threads : Z;
  writers : list string;
  duration : float;
  results : gmap nat (Outcome -> list string);
  resultsPointer : nat;
  resultsQueue : list (option TestContainer);
  quiet : bool;
  stdin : list string;
  disk : gmap string (list DirEntry);
  trace : list (Stage * nat)
}.

Definition log_stage (st : Stage) (c : nat) (r : BaseRunner) : BaseRunner :=
  {| record := record r; purge := purge r; threads := threads r;
     writers := writers r; duration := duration r; results := results r;
     resultsPointer := resultsPointer r; resultsQueue := resultsQueue r;
     quiet := quiet r; stdin := stdin r; disk := disk r;
     trace := trace r ++ [(st, c)] |}.

Definition set_disk (d : gmap string (list DirEntry)) (r : BaseRunner) : BaseRunner :=
  {| record := record r; purge := purge r; threads := threads r;
     writers := writers r; duration := duration r; results := results r;
     resultsPointer := resultsPointer r; resultsQueue := resultsQueue r;
     quiet := quiet r; stdin := stdin r; disk := d; trace := trace r |}.

Definition set_stdin (l : list string) (r : BaseRunner) : BaseRunner :=
  {| record := record r; purge := purge r; threads := threads r;
     writers := writers r; duration := duration r; results := results r;
     resultsPointer := resultsPointer r; resultsQueue := resultsQueue r;
     quiet := quiet r; stdin := l; disk := disk r; trace := trace r |}.

Definition set_tally (d : float) (res : gmap nat (Outcome -> list string))
    (r : BaseRunner) : BaseRunner :=
  {| record := record r; purge := purge r; threads := threads r;
     writers := writers r; duration := d; results := res;
     resultsPointer := resultsPointer r; resultsQueue := resultsQueue r;
     quiet := quiet r; stdin := stdin r; disk := disk r; trace := trace r |}.

Definition set_queue (q : list (option TestContainer)) (ptr : nat)
    (r : BaseRunner) : BaseRunner :=
  {| record := record r; purge := purge r; threads := threads r;
     writers := writers r; duration := duration r; results := results r;
     resultsPointer := ptr; resultsQueue := q;
     quiet := quiet r; stdin := stdin r; disk := disk r; trace := trace r |}.

(** The prompt loop of [handleKbrdInt]: lines are read until one is y or
    yes (go on) or n or no (summary, hooks and [sys.exit(1)]).  At the end
    of the input [readline] returns the empty string for ever, and the
    loop does not end.  The result is the input left and how the call
    ends.  A further interrupt during the prompt, which starts the prompt
    again, is not modelled. *)
Fixpoint handleKbrdInt (lines : list string) : list string * Completion :=
  match lines with
  | [] => ([], Hangs)
  | l :: rest =>
      let line := strip l in
      if bool_decide (line = "y") || bool_decide (line = "yes") then (rest, Returns)
      else if bool_decide (line = "n") || bool_decide (line = "no") then (rest, SysExit)
      else handleKbrdInt rest
  end.

(** The body of the loop of [containerCallback] for a filled slot [i]
    holding [c].  The tally raises [KeyError] when [self.results] has no
    entry for the cycle of the container, after the duration was added. *)
Definition publish (i : nat) (c : TestContainer) (r : BaseRunner)
    : BaseRunner * Completion :=
  let r1 := if (1 <? threads r)%Z then log_stage Flush (counter c) r else r in
  let r2 := if quiet r1 then log_stage LogOutcome (counter c) r1 else r1 in
  let r3 := log_stage TestComplete (counter c)
              (set_disk (testComplete (purge r2) (testObj c) (outsubdir c) (disk r2)) r2) in
  let r4 := if record r3
            then foldl (fun r' w => log_stage (ProcessResult w) (counter c) r') r3
                       (seq 0 (length (writers r3)))
            else r3 in
  let '(r5, completion) :=
    if kbrdInt c
    then let '(rest, completion) := handleKbrdInt (stdin r4) in
         (log_stage Prompt (counter c) (set_stdin rest r4), completion)
    else (r4, Returns) in
  match completion with
  | Returns =>
      match results r5 !! cycle c with
      | None => (set_tally (duration r5 + testTime c)%float (results r5) r5, Raises)
      | Some tally =>
          let o := getOutcome (testObj c) in
          let tally' := fun o' => if decide (o' = o)
                                  then tally o' ++ [descriptor_id c] else tally o' in
          let r6 := log_stage Tally (counter c)
                      (set_tally (duration r5 + testTime c)%float
                                 (<[cycle c := tally']> (results r5)) r5) in
          (set_queue (<[i := None]> (resultsQueue r6)) (resultsPointer r6 + 1) r6,
           Returns)
      end
  | _ => (r5, completion)
  end.

(** The loop [for i in range(self.resultsPointer, len(self.resultsQueue))]
    from index [i] on, with [fuel] the number of indices left in the
    range. *)
Fixpoint publish_loop (fuel : nat) (i : nat) (r : BaseRunner)
    : BaseRunner * Completion :=
  match fuel with
  | 0 => (r, Returns)
  | S fuel' =>
      match resultsQueue r !! i with
      | Some (Some c) =>
          match publish i c r with
          | (r', Returns) => publish_loop fuel' (S i) r'
          | other => other
          end
      | _ => (r, Returns)
      end
  end.

(** [BaseRunner.containerCallback(thread, container)].  The assignment to
    the slot raises [IndexError] when the counter is not an index of the
    queue. *)
Definition containerCallback (r : BaseRunner) (container : TestContainer)
    : BaseRunner * Completion :=
  if (counter container <? length (resultsQueue r))%nat
  then
    let r1 := set_queue (<[counter container := Some container]> (resultsQueue r))
                        (resultsPointer r) r in
    publish_loop (length (resultsQueue r1) - resultsPointer r1) (resultsPointer r1) r1
  else (r, Raises).

(** Modelled from the spec: the worker pool of [pysys/utils/threadpool.py],
    which is not among the sources.  It invokes the containers on its
    workers and reports each success through the callback; the callbacks
    of a cycle are made one at a time (the runner makes them while it
    waits for the pool, and [containerCallback] takes no lock), in the
    order in which the workers finished the containers.  A callback that
    does not return ends the run. *)
Fixpoint deliver (r : BaseRunner) (completed : list TestContainer)
    : BaseRunner * Completion :=
  match completed with
  | [] => (r, Returns)
  | c :: rest =>
      match containerCallback r c with
      | (r', Returns) => deliver r' rest
      | other => other
      end
  end.

(** Whether a run takes a given step for the containers it publishes:
    buffers are flushed with more than one thread, the outcome line is
    logged on a quiet console, writers are called when recording.  The
    prompt is not a step of publication. *)
Definition enabled (r : BaseRunner) (st : Stage) : bool :=
  match st with
  | Flush => (1 <? threads r)%Z
  | LogOutcome => quiet r
  | TestComplete => true
  | ProcessResult w => record r && (w <? length (writers r))%nat
  | Prompt => false
  | Tally => true
  end.

(** The counters for which a given step was taken, in the order taken. *)
Definition published (st : Stage) (r : BaseRunner) : list nat :=
  map snd (filter (fun e => fst e = st) (trace r)).

(** *** The test container *)

(** The two kinds of exception that [TestContainer.__call__] tells apart:
    [KeyboardInterrupt], and everything else, which only a bare [except]
    catches ([AbortExecution], [AttributeError], errors of the test). *)
Inductive Exn : Set := KeyboardInterrupt | OtherException.

(** The code of a test class: each method works on the test object and
    returns or raises.  [BaseTest] is not among the sources, and a test
    class overrides what it wants, so the methods are given. *)
Record TestClass : Type := {
  t_setup : ProcessUser -> ProcessUser * option Exn;
  t_execute : ProcessUser -> ProcessUser * option Exn;
  t_validate : ProcessUser -> ProcessUser * option Exn;
  t_cleanup : ProcessUser -> ProcessUser * option Exn
}.

(** A test object: its state and its class. *)
Record TestObject : Type := {
  obj : ProcessUser;
  cls : TestClass
}.

(** What the import of the test module and the construction of the test
    object come to: an object, a keyboard interrupt (then [self.testObj]
    keeps its initial [None]), or another exception (then
    [BaseTest(descriptor, outsubdir, runner)] is used, given here). *)
Inductive ImportResult : Type :=
  | Loaded (t : TestObject)
  | ImportInterrupted
  | ImportFailed (placeholder : TestObject).

(** What a call of the container meets. *)
Record CallEnv : Type := {
  env_FAILS : list Outcome;
  env_prepare : option Exn;
  env_import : ImportResult;
  env_runnable : bool;
  env_mode_excluded : bool;
  env_detectCore : bool + Exn
}.

(** The attributes of the container that [__call__] assigns, and its local
    list [exc_info]. *)
Record ContainerState : Type := {
  c_testObj : option TestObject;
  c_kbrdInt : bool;
  c_exc_info : list Exn
}.

(** Statements of [__call__]: they change the state and return a value or
    raise. *)
Definition Stmt (A : Type) : Type := ContainerState -> ContainerState * (A + Exn).

Definition ret {A} (a : A) : Stmt A := fun st => (st, inl a).

Definition raise {A} (e : Exn) : Stmt A := fun st => (st, inr e).

Definition bind {A B} (m : Stmt A) (k : A -> Stmt B) : Stmt B :=
  fun st => match m st with
            | (st', inl a) => k a st'
            | (st', inr e) => (st', inr e)
            end.

Notation "m ;;; k" := (bind m (fun _ => k)) (at level 100, right associativity).

(** [try: body  except KeyboardInterrupt: on_kbrd  except: on_other]; with
    [on_other = None] there is no bare [except] clause. *)
Definition try_except (body : Stmt unit) (on_kbrd : Stmt unit)
    (on_other : option (Stmt unit)) : Stmt unit :=
  fun st => match body st with
            | (st', inl tt) => (st', inl tt)
            | (st', inr KeyboardInterrupt) => on_kbrd st'
            | (st', inr OtherException) =>
                match on_other with
                | Some handler => handler st'
                | None => (st', inr OtherException)
                end
            end.

Definition set_kbrdInt : Stmt unit :=
  fun st => ({| c_testObj := c_testObj st; c_kbrdInt := true;
                c_exc_info := c_exc_info st |}, inl tt).

Definition append_exc_info (e : Exn) : Stmt unit :=
  fun st => ({| c_testObj := c_testObj st; c_kbrdInt := c_kbrdInt st;
                c_exc_info := c_exc_info st ++ [e] |}, inl tt).

Definition set_testObj (t : TestObject) : Stmt unit :=
  fun st => ({| c_testObj := Some t; c_kbrdInt := c_kbrdInt st;
                c_exc_info := c_exc_info st |}, inl tt).

(** A method call on [self.testObj]: [AttributeError] when it is [None]. *)
Definition on_testObj (f : TestObject -> ProcessUser * option Exn) : Stmt unit :=
  fun st => match c_testObj st with
            | None => (st, inr OtherException)
            | Some t =>
                let '(o, e) := f t in
                ({| c_testObj := Some {| obj := o; cls := cls t |};
                    c_kbrdInt := c_kbrdInt st; c_exc_info := c_exc_info st |},
                 match e with Some e => inr e | None => inl tt end)
            end.

(** [self.testObj.addOutcome(o)]: the outcome is recorded, and
    [AbortExecution] is raised for a failure outcome when the object
    aborts on errors by default. *)
Definition testObj_addOutcome (FAILS : list Outcome) (o : Outcome) : Stmt unit :=
  on_testObj (fun t =>
    let '(o', aborted) := addOutcome FAILS (obj t) o "" None in
    (o', match aborted with Some _ => Some OtherException | None => None end)).

(** [self.detectCore(self.outsubdir)]. *)
Definition detectCore (env : CallEnv) : Stmt bool :=
  match env_detectCore env with
  | inl b => ret b
  | inr e => raise e
  end.

(** The first [try] statement: output directory, purge, log handler. *)
Definition prepare_block (env : CallEnv) : Stmt unit :=
  try_except
    (match env_prepare env with Some e => raise e | None => ret tt end)
    set_kbrdInt
    (Some (append_exc_info OtherException)).

(** The second: import of the test class and construction of the object,
    whose outcome says which branch was taken. *)
Definition import_block (env : CallEnv) : Stmt unit :=
  match env_import env with
  | Loaded t => set_testObj t
  | ImportInterrupted => set_kbrdInt
  | ImportFailed placeholder =>
      append_exc_info OtherException ;;; set_testObj placeholder
  end.

(** The third: the test is run if it can be. *)
Definition execute_block (env : CallEnv) : Stmt unit :=
  try_except
    (fun st =>
       (if negb (env_runnable env) then testObj_addOutcome (env_FAILS env) SKIPPED
        else if env_mode_excluded env then testObj_addOutcome (env_FAILS env) SKIPPED
        else if (0 <? length (c_exc_info st))%nat
             then testObj_addOutcome (env_FAILS env) BLOCKED
        else if c_kbrdInt st then testObj_addOutcome (env_FAILS env) BLOCKED
        else on_testObj (fun t => t_setup (cls t) (obj t)) ;;;
             on_testObj (fun t => t_execute (cls t) (obj t)) ;;;
             on_testObj (fun t => t_validate (cls t) (obj t)) ;;;
             bind (detectCore env) (fun core =>
               if core then testObj_addOutcome (env_FAILS env) DUMPEDCORE
               else ret tt)) st)
    (set_kbrdInt ;;; testObj_addOutcome (env_FAILS env) BLOCKED)
    (Some (testObj_addOutcome (env_FAILS env) BLOCKED)).

(** The fourth: the cleanup of the test, with a clause for
    [KeyboardInterrupt] and no other. *)
Definition cleanup_block (env : CallEnv) : Stmt unit :=
  try_except
    (on_testObj (fun t => t_cleanup (cls t) (obj t)))
    (set_kbrdInt ;;; testObj_addOutcome (env_FAILS env) BLOCKED)
    None.

(** [TestContainer.__call__]: the four blocks in a row; the last [try]
    statement (duration, final log lines, closing of the log handler) has
    a bare [except: pass] and changes none of the attributes above.  The
    result is the container as left, and the exception that leaves
    [__call__] if one does; [inl tt] is [return self]. *)
Definition TestContainer_call (env : CallEnv) : ContainerState * (unit + Exn) :=
  (prepare_block env ;;; import_block env ;;; execute_block env ;;; cleanup_block env)
    {| c_testObj := None; c_kbrdInt := false; c_exc_info := [] |}.

(** ** The performance reporter ([pysys/utils/perfreporter.py]) *)

(** *** Ordered dictionaries and result keys *)

(** [collections.OrderedDict] with string keys and values: the items in
    insertion order, each key once.  Two ordered dictionaries are equal
    when their items are equal in order, which is equality of the lists. *)
Fixpoint od_set (k v : string) (d : list (string * string)) : list (string * string) :=
  match d with
  | [] => [(k, v)]
  | (k', v') :: d' => if decide (k' = k) then (k', v) :: d'
                      else (k', v') :: od_set k v d'
  end.

(** [collections.OrderedDict(items)]. *)
Definition od_of_items (items : list (string * string)) : list (string * string) :=
  foldl (fun d kv => od_set (fst kv) (snd kv) d) [] items.

(** [sub in s]. *)
Fixpoint contains (sub s : string) : bool :=
  startswith sub s
  || match s with
     | EmptyString => false
     | String _ s' => contains sub s'
     end.

Definition is_digit (c : ascii) : bool :=
  let n := nat_of_ascii c in (48 <=? n)%nat && (n <=? 57)%nat.

Definition is_one_of (c1 c2 : ascii) (c : ascii) : bool :=
  Ascii.eqb c c1 || Ascii.eqb c c2.

(** A sequence of character classes matched at the start of a string. *)
Fixpoint matches_classes (p : list (ascii -> bool)) (s : string) : bool :=
  match p, s with
  | [], _ => true
  | f :: p', String c s' => f c && matches_classes p' s'
  | _ :: _, EmptyString => false
  end.

(** The pattern [\d{4}[-/]\d{2}[-/]\d{2}\ \d{2}[:/]\d{2}[:/]\d{2}]. *)
Definition datetime_classes : list (ascii -> bool) :=
  [is_digit; is_digit; is_digit; is_digit; is_one_of "-" "/";
   is_digit; is_digit; is_one_of "-" "/"; is_digit; is_digit;
   Ascii.eqb " ";
   is_digit; is_digit; is_one_of ":" "/"; is_digit; is_digit;
   is_one_of ":" "/"; is_digit; is_digit].

(** [re.compile('.*<pattern>.*').match(s) != None]: the pattern is found
    somewhere after characters none of which is a newline. *)
Fixpoint looks_like_datetime (s : string) : bool :=
  matches_classes datetime_classes s
  || match s with
     | EmptyString => false
     | String c s' => negb (Ascii.eqb c "010") && looks_like_datetime s'
     end.

(** The checks of the result key at the head of [reportResult]; each of
    them raises [Exception] when it fails. *)
Definition valid_resultKey (resultKey : string) : bool :=
  negb (contains "  " resultKey)
  && negb (looks_like_datetime resultKey)
  && negb (contains (String "010" EmptyString) resultKey)
  && negb (contains "%s" resultKey || contains "%d" resultKey || contains "%f" resultKey).

(** *** Units *)

Record PerformanceUnit : Set := {
  unit_name : string;
  biggerIsBetter : bool
}.

Definition SECONDS : PerformanceUnit := {| unit_name := "s"; biggerIsBetter := false |}.
Definition PER_SECOND : PerformanceUnit := {| unit_name := "/s"; biggerIsBetter := true |}.

(** The argument [unit]: a string or a [PerformanceUnit]. *)
Inductive UnitArg : Set :=
  | UnitAlias (s : string)
  | UnitObject (u : PerformanceUnit).

(** [if unit in self.unitAliases: unit = self.unitAliases[unit]] and the
    assertion that follows; [None] is the [AssertionError]. *)
Definition resolve_unit (unit : UnitArg) : option PerformanceUnit :=
  match unit with
  | UnitAlias s => if decide (s = "s") then Some SECONDS
                   else if decide (s = "/s") then Some PER_SECOND
                   else None
  | UnitObject u => Some u
  end.

(** *** Reporting a result *)

(** The test object as the reporter sees it: [descriptor.id],
    [hash(testobj)], and the process user that it is. *)
Record PerfTest : Type := {
  pt_id : string;
  pt_hash : Z;
  pt_obj : ProcessUser
}.

(** The reporter: the keys seen, each with the triple
    [(testid, testobjhash, resultDetails)], and the files written, each a
    list of lines. *)
Record CSVPerformanceReporter : Type := {
  previousResultKeys : gmap string (string * Z * list (string * string));
  files : gmap string (list string)
}.

(** What [reportResult] builds on and this development leaves open: the
    type of values with the conversion [float(value)] of a string ([None]
    when it raises), whether [valueToDisplayString(value)] returns the
    text that is logged or raises, the line that [formatResult] makes of a
    result, the header line, the path of the summary file for a test id,
    and the text of [list(d.items())] in the second message. *)
Record ReporterEnv (V : Type) : Type := {
  float_of_string : string -> option V;
  valueToDisplayString_returns : V -> bool;
  formatResult : string -> V -> string -> PerformanceUnit -> option V
                 -> list (string * string) -> string;
  runHeader : string;
  runSummaryFile : string -> string;
  repr_items : list (string * string) -> string
}.

Arguments float_of_string {V}.
Arguments valueToDisplayString_returns {V}.
Arguments formatResult {V}.
Arguments runHeader {V}.
Arguments runSummaryFile {V}.
Arguments repr_items {V}.

(** How a call of [reportResult] ends. *)
Inductive ReportEnd : Set :=
  | ResultRecorded
  | ResultNotRecordedTestFailed
  | ResultRefused
  | RaisedInvalidKey
  | RaisedInvalidValue
  | RaisedInvalidUnit
  | RaisedOverflow
  | RaisedAbort.

(** [valueToDisplayString(value)] of a float: [int(value)] is taken of a
    value above 1000 and raises [OverflowError] when the value is
    infinite; the formats applied otherwise do not raise. *)
Definition float_displays (value : float) : bool :=
  negb (PrimFloat.ltb 1000 value && PrimFloat.is_infinity value).

(** The double quote character as a string. *)
Definition dquote : string := String "034" EmptyString.

Definition already_used_by_this_test (resultKey : string) : string :=
  "Cannot report performance result as resultKey was already used by this test: "
  +:+ dquote +:+ resultKey +:+ dquote.

Definition must_be_unique {V} (E : ReporterEnv V) (resultKey : string)
    (used : list (string * string)) : string :=
  "Cannot report performance result as resultKey was already used - resultKey must be unique across all tests and modes: "
  +:+ dquote +:+ resultKey +:+ dquote +:+ " (already used by " +:+ repr_items E used +:+ ")".

(** Appending a line to a file, after the header when the file is new. *)
Definition append_line (header : string) (path : string) (line : string)
    (fs : gmap string (list string)) : gmap string (list string) :=
  match fs !! path with
  | None => <[path := [header; line]]> fs
  | Some lines => <[path := lines ++ [line]]> fs
  end.

(** [recordResult]: the file in the output directory of the test, then
    the summary file of the run. *)
Definition recordResult {V} (E : ReporterEnv V) (formatted : string)
    (testobj : PerfTest) (fs : gmap string (list string)) : gmap string (list string) :=
  append_line (runHeader E) (runSummaryFile E (pt_id testobj)) formatted
    (append_line (runHeader E) (output (pt_obj testobj) +:+ "/performance_results.csv")
                 formatted fs).

(** The head of [reportResult], up to the line that logs the result with
    the display string of the value: key, value and unit as the rest of
    the method uses them, or the exception raised. *)
Definition check_arguments {V} (E : ReporterEnv V) (value : string + V)
    (resultKey : string) (unit : UnitArg)
    : ReportEnd + (string * V * PerformanceUnit) :=
  let resultKey := strip resultKey in
  if negb (valid_resultKey resultKey) then inl RaisedInvalidKey
  else match (match value with inl text => float_of_string E text | inr v => Some v end) with
       | None => inl RaisedInvalidValue
       | Some v =>
           match resolve_unit unit with
           | None => inl RaisedInvalidUnit
           | Some u => if valueToDisplayString_returns E v
                       then inr (resultKey, v, u)
                       else inl RaisedOverflow
           end
       end.

(** [testobj.addOutcome(BLOCKED, reason)] followed by [return]; the call
    raises instead when the test aborts on errors. *)
Definition refuse (FAILS : list Outcome) (self : CSVPerformanceReporter)
    (testobj : PerfTest) (reason : string)
    : CSVPerformanceReporter * PerfTest * ReportEnd :=
  let '(o, aborted) := addOutcome FAILS (pt_obj testobj) BLOCKED reason None in
  (self, {| pt_id := pt_id testobj; pt_hash := pt_hash testobj; pt_obj := o |},
   match aborted with Some _ => RaisedAbort | None => ResultRefused end).

(** [CSVPerformanceReporter.reportResult]: the reporter and the test
    object afterwards, and how the call ended.  [resultDetails] is the
    list of pairs given ([None] and the empty list are the same). *)
Definition reportResult {V} (E : ReporterEnv V) (FAILS : list Outcome)
    (self : CSVPerformanceReporter) (testobj : PerfTest)
    (value : string + V) (resultKey : string) (unit : UnitArg)
    (toleranceStdDevs : option V) (resultDetails : list (string * string))
    : CSVPerformanceReporter * PerfTest * ReportEnd :=
  match check_arguments E value resultKey unit with
  | inl raised => (self, testobj, raised)
  | inr (resultKey, value, unit) =>
      let resultDetails := od_of_items resultDetails in
      let prevresult := previousResultKeys self !! resultKey in
      let d := od_set "testId" (pt_id testobj) resultDetails in
      let record_it (self : CSVPerformanceReporter) :=
        if bool_decide (getOutcome (pt_obj testobj) ∈ FAILS)
        then (self, testobj, ResultNotRecordedTestFailed)
        else
          let formatted := formatResult E (pt_id testobj) value resultKey unit
                             toleranceStdDevs resultDetails in
          ({| previousResultKeys := previousResultKeys self;
              files := recordResult E formatted testobj (files self) |},
           testobj, ResultRecorded) in
      match prevresult with
      | Some (prev_id, prev_hash, prev_d) =>
          if decide (prev_hash = pt_hash testobj)
          then refuse FAILS self testobj (already_used_by_this_test resultKey)
          else if bool_decide (prev_id <> pt_id testobj) || bool_decide (prev_d <> d)
          then refuse FAILS self testobj (must_be_unique E resultKey prev_d)
          else record_it self
      | None =>
          record_it {| previousResultKeys :=
                         <[resultKey := (pt_id testobj, pt_hash testobj, d)]>
                           (previousResultKeys self);
                       files := files self |}
      end
  end.

(** *** Aggregation of performance files *)

(** The arithmetic of [aggregate] on the numbers of a file.  Python
    raises where IEEE arithmetic goes on: [None] stands for
    [ZeroDivisionError] in [num_div], for [OverflowError] in [num_sq]
    (the power [x ** 2]) and for [ValueError] in [num_sqrt]
    ([math.sqrt]).  [num_of_int] is the conversion that Python applies to
    an integer operand next to a float one. *)
Record Arith (N : Type) : Type := {
  num_of_int : Z -> N;
  num_add : N -> N -> N;
  num_sub : N -> N -> N;
  num_mul : N -> N -> N;
  num_div : N -> N -> option N;
  num_sq : N -> option N;
  num_sqrt : N -> option N
}.

Arguments num_of_int {N}.
Arguments num_add {N}.
Arguments num_sub {N}.
Arguments num_mul {N}.
Arguments num_div {N}.
Arguments num_sq {N}.
Arguments num_sqrt {N}.

(** The floats of Python: IEEE binary64.  The conversion of an integer is
    exact below 2^53 in absolute value and is meant for integers below
    2^63; the square stands for the power [x ** 2]. *)
Definition float_of_Z (z : Z) : float :=
  match z with
  | Z0 => 0%float
  | Zpos _ => PrimFloat.of_uint63 (Uint63Axioms.of_Z z)
  | Zneg _ => PrimFloat.opp (PrimFloat.of_uint63 (Uint63Axioms.of_Z (- z)))
  end.

Definition float_arith : Arith float :=
  {| num_of_int := float_of_Z;
     num_add := PrimFloat.add;
     num_sub := PrimFloat.sub;
     num_mul := PrimFloat.mul;
     num_div := fun x y => if PrimFloat.eqb y 0%float then None
                           else Some (PrimFloat.div x y);
     num_sq := fun x => let y := PrimFloat.mul x x in
                        if PrimFloat.is_infinity y && negb (PrimFloat.is_infinity x)
                        then None else Some y;
     num_sqrt := fun x => if PrimFloat.ltb x 0%float then None
                          else Some (PrimFloat.sqrt x) |}.


(** The same expressions read in the real numbers, where nothing is
    rounded and nothing overflows.  This is exact arithmetic, not the
    arithmetic of the program. *)
Definition real_arith : Arith R :=
  {| num_of_int := IZR;
     num_add := Rplus;
     num_sub := Rminus;
     num_mul := Rmult;
     num_div := fun x y => if Req_dec_T y 0%R then None else Some (x / y)%R;
     num_sq := fun x => Some (x * x)%R;
     num_sqrt := fun x => if Rlt_dec x 0%R then None else Some (sqrt x) |}.

(** A row of a parsed file: the columns of [COLUMNS] and the result
    details. *)
Record PerfResult (N : Type) : Type := {
  r_resultKey : string;
  r_testId : string;
  r_value : N;
  r_unit : string;
  r_biggerIsBetter : bool;
  r_toleranceStdDevs : N;
  r_samples : Z;
  r_stdDev : N;
  r_resultDetails : list (string * string)
}.

Arguments r_resultKey {N}.
Arguments r_testId {N}.
Arguments r_value {N}.
Arguments r_unit {N}.
Arguments r_biggerIsBetter {N}.
Arguments r_toleranceStdDevs {N}.
Arguments r_samples {N}.
Arguments r_stdDev {N}.
Arguments r_resultDetails {N}.

(** [CSVPerformanceFile]: the rows and the run details. *)
Record CSVPerformanceFile (N : Type) : Type := {
  f_results : list (PerfResult N);
  f_runDetails : list (string * string)
}.

Arguments f_results {N}.
Arguments f_runDetails {N}.

(** The merge of a new row [r] into the existing row [e] of the same
    key. *)
Definition merge_result {N} (A : Arith N) (e r : PerfResult N) : option (PerfResult N) :=
  combinedmean ←
    num_div A (num_add A (num_mul A (r_value e) (num_of_int A (r_samples e)))
                         (num_mul A (r_value r) (num_of_int A (r_samples r))))
              (num_of_int A (r_samples e + r_samples r));
  e_var ← num_sq A (r_stdDev e);
  r_var ← num_sq A (r_stdDev r);
  e_dev ← num_sq A (num_sub A (r_value e) combinedmean);
  r_dev ← num_sq A (num_sub A (r_value r) combinedmean);
  quotient ←
    num_div A
      (num_add A
         (num_add A
            (num_add A (num_mul A (num_of_int A (r_samples e - 1)) e_var)
                       (num_mul A (num_of_int A (r_samples r - 1)) r_var))
            (num_mul A (num_of_int A (r_samples e)) e_dev))
         (num_mul A (num_of_int A (r_samples r)) r_dev))
      (num_of_int A (r_samples e + r_samples r - 1));
  stdDev ← num_sqrt A quotient;
  Some {| r_resultKey := r_resultKey e; r_testId := r_testId e;
          r_value := combinedmean; r_unit := r_unit e;
          r_biggerIsBetter := r_biggerIsBetter e;
          r_toleranceStdDevs := r_toleranceStdDevs e;
          r_samples := r_samples e + r_samples r;
          r_stdDev := stdDev;
          r_resultDetails := r_resultDetails r |}.

(** The dictionary [results], in the order in which the keys are met:
    one step of the loop over the rows of a file. *)
Fixpoint add_result {N} (A : Arith N) (r : PerfResult N)
    (results : list (string * PerfResult N)) : option (list (string * PerfResult N)) :=
  match results with
  | [] => Some [(r_resultKey r, r)]
  | (k, e) :: rest =>
      if decide (k = r_resultKey r)
      then e' ← merge_result A e r; Some ((k, e') :: rest)
      else rest' ← add_result A r rest; Some ((k, e) :: rest')
  end.

Fixpoint add_results {N} (A : Arith N) (rows : list (PerfResult N))
    (results : list (string * PerfResult N)) : option (list (string * PerfResult N)) :=
  match rows with
  | [] => Some results
  | r :: rows' => results' ← add_result A r results; add_results A rows' results'
  end.

(** The dictionary [details]: for each key of the run details the values
    met, each once, in the order met. *)
Fixpoint add_detail (k v : string) (details : list (string * list string))
    : list (string * list string) :=
  match details with
  | [] => [(k, [v])]
  | (k', vs) :: rest =>
      if decide (k' = k)
      then (k', if bool_decide (v ∈ vs) then vs else vs ++ [v]) :: rest
      else (k', vs) :: add_detail k v rest
  end.

(** [sorted] on strings and on rows by key: an insertion sort by the
    order of the code points. *)
Fixpoint insert_by {A} (leb : A -> A -> bool) (x : A) (l : list A) : list A :=
  match l with
  | [] => [x]
  | y :: l' => if leb x y then x :: y :: l' else y :: insert_by leb x l'
  end.

Definition sort_by {A} (leb : A -> A -> bool) (l : list A) : list A :=
  foldr (insert_by leb) [] l.

(** [sep.join(l)]. *)
Fixpoint join (sep : string) (l : list string) : string :=
  match l with
  | [] => ""
  | [x] => x
  | x :: l' => x +:+ sep +:+ join sep l'
  end.

(** The loop over the files: a file without rows is passed over. *)
Fixpoint aggregate_files {N} (A : Arith N) (fs : list (CSVPerformanceFile N))
    (results : list (string * PerfResult N)) (details : list (string * list string))
    : option (list (string * PerfResult N) * list (string * list string)) :=
  match fs with
  | [] => Some (results, details)
  | f :: fs' =>
      match f_results f with
      | [] => aggregate_files A fs' results details
      | _ :: _ =>
          results' ← add_results A (f_results f) results;
          aggregate_files A fs' results'
            (foldl (fun d kv => add_detail (fst kv) (snd kv) d) details (f_runDetails f))
      end
  end.

(** [CSVPerformanceFile.aggregate(files)]; [None] when the arithmetic
    raises. *)
Definition aggregate {N} (A : Arith N) (fs : list (CSVPerformanceFile N))
    : option (CSVPerformanceFile N) :=
  '(results, details) ← aggregate_files A fs [] [];
  Some {| f_results :=
            sort_by (fun x y => String.leb (r_resultKey x) (r_resultKey y))
                    (map snd (sort_by (fun x y => String.leb (fst x) (fst y)) results));
          f_runDetails :=
            map (fun kv => (fst kv, join "; " (sort_by String.leb (snd kv)))) details |}.

(** A file of one row with a single sample. *)
Definition single_sample_file {N} (A : Arith N) (key testId : string) (v : N)
    (unit : string) (bigger : bool) (details runDetails : list (string * string))
    : CSVPerformanceFile N :=
  {| f_results := [ {| r_resultKey := key; r_testId := testId; r_value := v;
                       r_unit := unit; r_biggerIsBetter := bigger;
                       r_toleranceStdDevs := num_of_int A 0;
                       r_samples := 1; r_stdDev := num_of_int A 0;
                       r_resultDetails := details |} ];
     f_runDetails := runDetails |}.

(** ** More of the process user ([pysys/process/user.py]) *)

(** *** Starting and stopping processes *)

(** [ProcessUser.getInstanceCount]. *)
Definition getInstanceCount (self : ProcessUser) (displayName : string) : Z :=
  match processCount self !! displayName with
  | Some n => n
  | None => 0%Z
  end.

(** [os.path.basename] of [posixpath]: what follows the last slash. *)
Fixpoint basename (s : string) : string :=
  match s with
  | EmptyString => EmptyString
  | String c s' => if contains "/" s' then basename s'
                   else if Ascii.eqb c "/" then s' else s
  end.

(** The exceptions that the process methods let out: [AbortExecution] and
    [ProcessError]. *)
Inductive UserRaise : Set :=
  | RaiseAbort (a : AbortExecution)
  | RaiseProcessError.

(** The argument [state] of [startProcess]. *)
Inductive RunState : Set := FOREGROUND | BACKGROUND.

(** How [process.start()] ends: it returns (with the exit status, for a
    foreground process), or it raises [ProcessError] or [ProcessTimeout]. *)
Inductive StartEnd : Set :=
  | StartReturns (exitStatus : Z)
  | StartProcessError
  | StartProcessTimeout.

(** Modelled from the spec: [ProcessWrapper.start] of
    [pysys/process/helper.py], which is not among the sources.  A
    background process runs when [start] returns; a foreground process has
    ended by then; a process that timed out was terminated, and one that
    could not be started does not run. *)
Definition process_start (p : Process) (state : RunState) (e : StartEnd)
    (w : World) : World :=
  match e, state with
  | StartReturns _, BACKGROUND =>
      {| running := running w ∪ {[proc_id p]}; events := events w |}
  | _, _ => w
  end.

(** [ProcessUser.startProcess], given the handle [process] that the
    wrapper makes, the text [process_str] of [str(process)] and the end of
    [process.start()].  The result is the object and the world afterwards
    and the exception that leaves the method, if any; the handle returned
    is [process]. *)
Definition startProcess (FAILS : list Outcome) (self : ProcessUser) (w : World)
    (command displayName : string) (process : Process) (process_str : string)
    (state : RunState) (timeout : Z) (started : StartEnd)
    (abortOnError ignoreExitStatus : option bool)
    : ProcessUser * World * option UserRaise :=
  let ignoreExitStatus := default (defaultIgnoreExitStatus self) ignoreExitStatus in
  let displayName := if decide (displayName = "") then basename command else displayName in
  let abortOnError := default (defaultAbortOnError self) abortOnError in
  let w1 := process_start process state started w in
  match started with
  | StartReturns exitStatus =>
      let '(self1, aborted) :=
        match state with
        | FOREGROUND =>
            if negb ignoreExitStatus && negb (exitStatus =? 0)%Z
            then addOutcome FAILS self BLOCKED
                   (process_str +:+ " returned non-zero exit code " +:+ pretty exitStatus)
                   (Some abortOnError)
            else (self, None)
        | BACKGROUND => (self, None)
        end in
      match aborted with
      | Some a => (self1, w1, Some (RaiseAbort a))
      | None =>
          (set_processes (processList self1 ++ [process])
             (<[displayName := (getInstanceCount self1 displayName + 1)%Z]>
                (processCount self1)) self1,
           w1, None)
      end
  | StartProcessError => (self, w1, None)
  | StartProcessTimeout =>
      let '(self1, aborted) :=
        addOutcome FAILS self TIMEDOUT
          (process_str +:+ " timed out after " +:+ pretty timeout +:+ " seconds")
          (Some abortOnError) in
      match aborted with
      | Some a => (self1, w1, Some (RaiseAbort a))
      | None =>
          let '(w2, raised) := process_stop process w1 in
          (self1, w2, if raised then Some RaiseProcessError else None)
      end
  end.

(** [ProcessUser.stopProcess], with the text [process_repr] of
    [repr(process)]. *)
Definition stopProcess (self : ProcessUser) (w : World) (process : Process)
    (process_repr : string) (abortOnError : option bool) : World * option UserRaise :=
  let abortOnError := default (defaultAbortOnError self) abortOnError in
  if bool_decide (proc_id process ∈ running w)
  then let '(w', raised) := process_stop process w in
       (w', if raised && abortOnError
            then Some (RaiseAbort {| abort_outcome := BLOCKED;
                                     abort_reason := "Unable to stop process " +:+ process_repr |})
            else None)
  else (w, None).

(** The names returned by a sequence of [allocateUniqueStdOutErr] calls on
    one object, one call per key of the list. *)
Fixpoint allocations (self : ProcessUser) (keys : list string) : list (string * string) :=
  match keys with
  | [] => []
  | k :: ks => let r := allocateUniqueStdOutErr self k in
               snd r :: allocations (fst r) ks
  end.

(** *** Logging the contents of a file *)

Section LogFileContents.

(** [re.search(x, s)] for a regular expression [x] and a line [s]: the
    text [m.group(0)] of the first match, if there is one. *)
Variable re_search : string -> string -> option string.

(** The local function [matchesany] of [logFileContents]. *)
Fixpoint matchesany (s : string) (regexes : list string) : option string :=
  match regexes with
  | [] => None
  | x :: rest => match re_search x s with
                 | Some m => Some m
                 | None => matchesany s rest
                 end
  end.

(** Truth of a string or of [None]: the empty string is false. *)
Definition truthy (r : option string) : bool :=
  match r with
  | Some s => negb (bool_decide (s = ""))
  | None => false
  end.

(** What the body of the loop keeps of a line, before the limit on the
    number of lines is looked at: the stripped line, or the matched text
    when [includes] is given; nothing for a blank line, a line without a
    match (or with an empty match) for [includes], or a line with a
    non-empty match for [excludes].  [None] and the empty list are both
    false as [includes] or [excludes], so a list stands for both. *)
Definition log_line (includes excludes : list string) (l : string) : option string :=
  let l := strip l in
  if bool_decide (l = "") then None
  else
    let l' := if bool_decide (includes = []) then Some l else matchesany l includes in
    if truthy l'
    then match l' with
         | Some l =>
             if negb (bool_decide (excludes = [])) && truthy (matchesany l excludes)
             then None else Some l
         | None => None
         end
    else None.

(** The loop [for l in f] of [logFileContents] from the list [tolog] built
    so far; the result is [tolog] when the loop is left. *)
Fixpoint log_lines (includes excludes : list string) (maxLines : Z) (tail : bool)
    (lines : list string) (tolog : list string) : list string :=
  match lines with
  | [] => tolog
  | l :: rest =>
      match log_line includes excludes l with
      | None => log_lines includes excludes maxLines tail rest tolog
      | Some l =>
          let tolog := tolog ++ [l] in
          if negb (maxLines =? 0)%Z
          then if negb tail && (Z.of_nat (length tolog) =? maxLines)%Z
               then tolog ++ ["..."]
               else if tail && (Z.of_nat (length tolog) =? maxLines + 1)%Z
                    then log_lines includes excludes maxLines tail rest (drop 1 tolog)
                    else log_lines includes excludes maxLines tail rest tolog
          else log_lines includes excludes maxLines tail rest tolog
      end
  end.

(** [ProcessUser.logFileContents], given what opening the file yields: its
    lines, or [None] when it cannot be opened.  The result is the value
    returned and the lines logged between the header and the rule. *)
Definition logFileContents (path : string) (file : option (list string))
    (includes excludes : list string) (maxLines : Z) (tail : bool)
    : bool * list string :=
  if bool_decide (path = "") then (false, [])
  else match file with
       | None => (false, [])
       | Some lines =>
           let tolog := log_lines includes excludes maxLines tail lines [] in
           if bool_decide (tolog = []) then (false, []) else (true, tolog)
       end.

(** The lines of a file that pass the filters, in order. *)
Definition kept_lines (includes excludes : list string) (lines : list string)
    : list string :=
  omap (log_line includes excludes) lines.

End LogFileContents.

(** ** More of the runner ([pysys/baserunner.py]) *)

(** *** The utility methods of the container *)

(** What [os.lstat] tells [purgeDirectory] about an entry: a regular
    file, a symbolic link, a directory with its entries, or something else
    (a socket, a pipe, a device).  The flag says whether the call that
    removes the entry succeeds ([os.remove], [os.unlink], and [os.rmdir]
    once the directory is empty); it raises [OSError] otherwise. *)
#[local] Unset Elimination Schemes.
Inductive Node : Set :=
  | File (removes : bool)
  | Link (removes : bool)
  | Dir (removes : bool) (entries : list (string * Node))
  | Special.
#[local] Set Elimination Schemes.

(** The loop [for file in os.listdir(dir)] of [purgeDirectory], with
    [purge_entry] for what happens to one entry: what is left of the
    listing, and whether an [OSError] left the loop. *)
Fixpoint purge_loop (purge_entry : Node -> option Node * bool)
    (l : list (string * Node)) : list (string * Node) * bool :=
  match l with
  | [] => ([], false)
  | (name, n) :: rest =>
      match purge_entry n with
      | (Some n', true) => ((name, n') :: rest, true)
      | (None, true) => (rest, true)
      | (None, false) => purge_loop purge_entry rest
      | (Some n', false) =>
          let '(rest', raised) := purge_loop purge_entry rest in
          ((name, n') :: rest', raised)
      end
  end.

(** One entry in the loop, on the platforms where [os.lstat] is used
    (sunos and linux): a link is unlinked, a regular file removed, a
    directory purged by the recursive call with [delTop=True], whose
    [os.rmdir] raises [OSError] unless the directory is empty by then;
    anything else is left alone.  The result is what is left of the entry
    and whether an exception was raised. *)
Fixpoint purge_entry (n : Node) : option Node * bool :=
  match n with
  | File removes => if removes then (None, false) else (Some n, true)
  | Link removes => if removes then (None, false) else (Some n, true)
  | Special => (Some Special, false)
  | Dir removes sub =>
      let '(sub', raised) := purge_loop purge_entry sub in
      if raised then (Some (Dir removes sub'), true)
      else match sub' with
           | [] => if removes then (None, false) else (Some (Dir removes sub'), true)
           | _ :: _ => (Some (Dir removes sub'), true)
           end
  end.

(** [TestContainer.purgeDirectory(dir, delTop)] on the entries of [dir],
    with [removes] for [os.rmdir(dir)]: what is left of the directory
    ([None] when it was removed itself) and whether the call raised. *)
Definition purgeDirectory (removes : bool) (entries : list (string * Node))
    (delTop : bool) : option (list (string * Node)) * bool :=
  let '(l, raised) := purge_loop purge_entry entries in
  if raised then (Some l, true)
  else if delTop
       then match l with
            | [] => if removes then (None, false) else (Some l, true)
            | _ :: _ => (Some l, true)
            end
       else (Some l, false).

(** What [os.stat] tells [detectCore] about an entry; links are followed. *)
Inductive FileKind : Set := RegularFile | DirectoryFile | OtherFile.

(** The loop of [detectCore] over the names of the listing, each with the
    result of [os.stat], [None] when it raises [OSError] (a link whose
    target is missing).  [re.search('^core', file)] holds of the names that
    start with core.  The method returns [True] or falls off its end and
    returns [None], which is false where the result is tested. *)
Fixpoint detectCore_loop (l : list (string * option FileKind)) : bool + Exn :=
  match l with
  | [] => inl false
  | (file, None) :: _ => inr OtherException
  | (file, Some RegularFile) :: rest =>
      if startswith "core" file then inl true else detectCore_loop rest
  | (file, Some _) :: rest => detectCore_loop rest
  end.

(** [TestContainer.detectCore(dir)], given the listing of [dir], [None]
    when [os.listdir] raises. *)
Definition detectCore_dir (listing : option (list (string * option FileKind)))
    : bool + Exn :=
  match listing with
  | None => inr OtherException
  | Some l => detectCore_loop l
  end.

#[global] Instance Exn_eq_dec : EqDecision Exn.
Proof. solve_decision. Defined.

(** The calls [setup()], [execute()] and [validate()] of the last branch
    of the third [try] statement, in a row on the test object: the object
    afterwards and the exception that ended them, if any. *)
Definition test_phases (t : TestObject) : ProcessUser * option Exn :=
  let '(o1, e1) := t_setup (cls t) (obj t) in
  match e1 with
  | Some e => (o1, Some e)
  | None =>
      let '(o2, e2) := t_execute (cls t) o1 in
      match e2 with
      | Some e => (o2, Some e)
      | None => t_validate (cls t) o2
      end
  end.

(** *** A cycle of [start] with one thread *)

(** [TestContainer(counter, descriptor, cycle, self)] called: what the
    call leaves in the container, with the counter and the cycle that the
    constructor was given. *)
Definition container_at (counter cycle : nat) (c : TestContainer) : TestContainer :=
  {| counter := counter; descriptor_id := descriptor_id c; cycle := cycle;
     outsubdir := outsubdir c; testObj := testObj c; testTime := testTime c;
     kbrdInt := kbrdInt c |}.

(** The loop [for descriptor in self.descriptors] of [start] from the
    value [counter] on: a slot is appended to the queue; with one thread
    the container is called and handed to [containerCallback] at once,
    with more the request goes to the pool, which calls back later.
    [runs] holds, for each descriptor left, what the call of its container
    comes to: the container as the call returns it, or [None] when the
    call raises, which ends the loop as a callback that does not return
    does.  An interrupt of the loop from the keyboard is not modelled. *)
Fixpoint run_descriptors (cycle : nat) (counter : nat)
    (runs : list (option TestContainer)) (r : BaseRunner) : BaseRunner * Completion :=
  match runs with
  | [] => (r, Returns)
  | run :: rest =>
      let r1 := set_queue (resultsQueue r ++ [None]) (resultsPointer r) r in
      if (1 <? threads r)%Z
      then run_descriptors cycle (S counter) rest r1
      else match run with
           | None => (r1, Raises)
           | Some c =>
               match containerCallback r1 (container_at counter cycle c) with
               | (r2, Returns) => run_descriptors cycle (S counter) rest r2
               | other => other
               end
           end
  end.

(** The body of the loop [for cycle in range(self.cycle)] of [start] up to
    the end of the loop over the descriptors. *)
Definition start_cycle (cycle : nat) (runs : list (option TestContainer)) (r : BaseRunner)
    : BaseRunner * Completion :=
  run_descriptors cycle 0 runs
    (set_tally (duration r) (<[cycle := fun _ => []]> (results r)) (set_queue [] 0 r)).

(** ** Invariants used in the proofs *)

(** *** Exceptions from the cleanup of a test *)

(** The [cleanup] method of the test object, or of the placeholder,
    raises an exception other than [KeyboardInterrupt] whatever the state
    of the object. *)
Definition cleanup_always_raises (env : CallEnv) : Prop :=
  match env_import env with
  | Loaded t | ImportFailed t =>
      forall o, snd (t_cleanup (cls t) o) = Some OtherException
  | ImportInterrupted => True
  end.

(** The same, of the test object that a container holds. *)
Definition testObj_cleanup_raises (st : ContainerState) : Prop :=
  match c_testObj st with
  | Some t => forall o, snd (t_cleanup (cls t) o) = Some OtherException
  | None => True
  end.

(** A statement that leaves the class of the test object alone and does
    not raise [KeyboardInterrupt]. *)
Definition keeps_class (m : Stmt unit) : Prop :=
  forall st, testObj_cleanup_raises st ->
    testObj_cleanup_raises (fst (m st)) /\ snd (m st) <> inr KeyboardInterrupt.

(** *** Invariants of the results queue *)

(** The configuration of a run, which publication does not change. *)
Definition same_config (r r' : BaseRunner) : Prop :=
  record r' = record r /\ purge r' = purge r /\ threads r' = threads r
  /\ writers r' = writers r /\ quiet r' = quiet r.

(** The steps taken for a container before the prompt and the tally. *)
Definition announce_events (c : TestContainer) (r : BaseRunner) : list (Stage * nat) :=
  (if (1 <? threads r)%Z then [(Flush, counter c)] else [])
  ++ (if quiet r then [(LogOutcome, counter c)] else [])
  ++ [(TestComplete, counter c)]
  ++ (if record r then map (fun w => (ProcessResult w, counter c)) (seq 0 (length (writers r))) else []).

(** Every step that the run takes has been taken for the containers
    [0 .. k-1], in this order, and for no other. *)
Definition published_upto (r0 r : BaseRunner) (k : nat) : Prop :=
  forall st, st <> Prompt -> published st r = if enabled r0 st then seq 0 k else [].

(** The invariant of the results queue between callbacks, for a queue of
    [n] slots and the set [delivered] of counters handed to the callback
    so far: a filled slot holds the container of its index, the slots
    below the cursor were delivered, and a delivered slot from the cursor
    on is still filled. *)
Definition queue_inv (n : nat) (delivered : nat -> Prop) (r : BaseRunner) : Prop :=
  length (resultsQueue r) = n
  /\ resultsPointer r <= n
  /\ (forall i c, resultsQueue r !! i = Some (Some c) -> counter c = i /\ delivered i)
  /\ (forall i, i < resultsPointer r -> delivered i)
  /\ (forall i, delivered i -> resultsPointer r <= i -> i < n ->
                exists c, resultsQueue r !! i = Some (Some c)).

(** The cursor is at the end of the queue or on an empty slot. *)
Definition cursor_rests (n : nat) (r : BaseRunner) : Prop :=
  resultsPointer r = n \/ resultsQueue r !! resultsPointer r = Some None.

(** A callback that did not return left the publication of the container
    at the cursor unfinished: every step but the tally was taken for
    it. *)
Definition publication_cut_short (r0 : BaseRunner) (n : nat) (delivered : nat -> Prop)
    (r : BaseRunner) : Prop :=
  resultsPointer r < n /\ delivered (resultsPointer r)
  /\ published Tally r = seq 0 (resultsPointer r)
  /\ forall st, st <> Prompt -> st <> Tally ->
       published st r = if enabled r0 st then seq 0 (S (resultsPointer r)) else [].

(** What holds of a run of callbacks, whichever way it ended. *)
Definition publication_in_order (r0 : BaseRunner) (n : nat) (delivered : nat -> Prop)
    (r : BaseRunner) (comp : Completion) : Prop :=
  let k := resultsPointer r in
  k <= n
  /\ (forall i, i < k -> delivered i)
  /\ published Tally r = seq 0 k
  /\ ((forall st, st <> Prompt -> published st r = if enabled r0 st then seq 0 k else [])
      \/ (comp <> Returns /\ k < n /\ delivered k
          /\ forall st, st <> Prompt -> st <> Tally ->
               published st r = if enabled r0 st then seq 0 (S k) else []))
  /\ (comp = Returns -> (forall i, i < n -> delivered i) -> k = n).

(** *** Sequences of calls and what they leave *)

(** A call of [startProcess]. *)
Record StartCall : Set := {
  sc_command : string;
  sc_displayName : string;
  sc_process : Process;
  sc_str : string;
  sc_state : RunState;
  sc_timeout : Z;
  sc_started : StartEnd;
  sc_abortOnError : option bool;
  sc_ignoreExitStatus : option bool
}.

(** A sequence of [startProcess] calls on one object; an exception that a
    call raises leaves the object as the call made it. *)
Definition startProcesses (FAILS : list Outcome) (st : ProcessUser * World)
    (calls : list StartCall) : ProcessUser * World :=
  foldl (fun st c =>
           fst (startProcess FAILS (fst st) (snd st) (sc_command c) (sc_displayName c)
                  (sc_process c) (sc_str c) (sc_state c) (sc_timeout c) (sc_started c)
                  (sc_abortOnError c) (sc_ignoreExitStatus c)))
        st calls.

(** The logical name under which a call counts its process. *)
Definition sc_name (c : StartCall) : string :=
  if decide (sc_displayName c = "") then basename (sc_command c) else sc_displayName c.

(** Whether a call goes through to the end of [startProcess]: [start]
    returned, and no abort was raised for a non-zero exit status. *)
Definition sc_completes (FAILS : list Outcome) (abortDefault ignoreDefault : bool)
    (c : StartCall) : bool :=
  match sc_started c with
  | StartReturns exitStatus =>
      match sc_state c with
      | FOREGROUND =>
          negb (negb (default ignoreDefault (sc_ignoreExitStatus c))
                && negb (exitStatus =? 0)%Z
                && bool_decide (BLOCKED ∈ FAILS)
                && default abortDefault (sc_abortOnError c))
      | BACKGROUND => true
      end
  | _ => false
  end.

(** The number that the next call for a key will carry. *)
Definition next_number (self : ProcessUser) (key : string) : Z :=
  (default (-1) (uniqueProcessKeys self !! key) + 1)%Z.

Definition numbered (key : string) (n : Z) (ext : string) : string :=
  key +:+ (if (0 <? n)%Z then "." +:+ pretty n else "") +:+ ext.

(** Whether nothing stands in the way of removing an entry: every call
    that removes something in it succeeds, and no socket, pipe or device
    is in it. *)
Fixpoint removable (n : Node) : bool :=
  match n with
  | File removes => removes
  | Link removes => removes
  | Special => false
  | Dir removes sub => removes && forallb (fun e => removable (snd e)) sub
  end.

Definition is_special (n : Node) : bool :=
  match n with Special => true | _ => false end.

(** Whether an entry is a core file for [detectCore]. *)
Definition is_core (e : string * option FileKind) : bool :=
  match snd e with
  | Some RegularFile => startswith "core" (fst e)
  | _ => false
  end.

Definition stat_fails (e : string * option FileKind) : bool :=
  match snd e with None => true | Some _ => false end.

(** The container between two of its [try] statements. *)
Definition container_with (t : TestObject) (o : ProcessUser) (k : bool) (excs : list Exn)
    : ContainerState :=
  {| c_testObj := Some {| obj := o; cls := cls t |}; c_kbrdInt := k; c_exc_info := excs |}.

(** The identifiers of the tests with a given overall outcome, in order. *)
Definition ids_with_outcome (o : Outcome) (runs : list TestContainer) : list string :=
  map descriptor_id (List.filter (fun c => bool_decide (getOutcome (testObj c) = o)) runs).



(** An entry that [testComplete] leaves when it removes empty files only:
    it is not empty, or it cannot be removed. *)
Definition kept_without_purge (e : DirEntry) : bool :=
  negb (bool_decide (entry_size e = Some 0%Z)) || (3 <=? entry_remove_failures e)%nat.

(** The rows that a list of files holds, in order. *)
Definition all_rows {N} (fs : list (CSVPerformanceFile N)) : list (PerfResult N) :=
  concat (map f_results fs).

(** The number of samples behind a list of rows. *)
Definition total_samples {N} (rows : list (PerfResult N)) : Z :=
  foldr (fun r acc => (r_samples r + acc)%Z) 0%Z rows.

(** The dictionary [results] holds each row under its own key, each key
    once. *)
Definition results_keyed {N} (results : list (string * PerfResult N)) : Prop :=
  Forall (fun kr => r_resultKey (snd kr) = fst kr) results /\ NoDup (map fst results).

(** ** Examples *)

(** *** A test in its container

    A test with given [execute] and [cleanup] methods, whose [validate]
    adds [PASSED], in a container that meets no other trouble. *)
Definition passes_on (o : ProcessUser) : ProcessUser * option Exn := (o, None).

Definition example_FAILS : list Outcome := [BLOCKED; DUMPEDCORE; TIMEDOUT; FAILED].

Definition example_test (execute cleanup : ProcessUser -> ProcessUser * option Exn)
    : TestObject :=
  {| obj := ProcessUser_init false true "/t/out";
     cls := {| t_setup := passes_on;
               t_execute := execute;
               t_validate := fun o => (fst (addOutcome example_FAILS o PASSED "" None), None);
               t_cleanup := cleanup |} |}.

Definition example_env (t : TestObject) : CallEnv :=
  {| env_FAILS := example_FAILS;
     env_prepare := None;
     env_import := Loaded t;
     env_runnable := true;
     env_mode_excluded := false;
     env_detectCore := inl false |}.

(** *** Reports of a performance result

    A reporter whose values are integers, and a report of the value 100
    per second under the key throughput. *)
Definition example_reporter_env : ReporterEnv Z :=
  {| float_of_string := fun _ => None;
     valueToDisplayString_returns := fun _ => true;
     formatResult := fun id v key u tol d =>
       key +:+ "," +:+ id +:+ "," +:+ pretty v +:+ "," +:+ unit_name u;
     runHeader := "# resultKey,testId,value,unit";
     runSummaryFile := fun id => "/perf/summary.csv";
     repr_items := fun d => "[...]" |}.

Definition example_perf_test (id : string) (hash : Z) : PerfTest :=
  {| pt_id := id; pt_hash := hash;
     pt_obj := ProcessUser_init false true ("/t/" +:+ id +:+ "/out") |}.

Definition example_report (self : CSVPerformanceReporter) (testobj : PerfTest)
    : CSVPerformanceReporter * PerfTest * ReportEnd :=
  reportResult example_reporter_env example_FAILS self testobj
    (inr 100%Z) " throughput " (UnitAlias "/s") None [].


(** A reporter whose values are floats, as the values that Python
    computes are. *)
Definition example_float_reporter_env : ReporterEnv float :=
  {| float_of_string := fun _ => None;
     valueToDisplayString_returns := float_displays;
     formatResult := fun id v key u tol d => key +:+ "," +:+ id +:+ "," +:+ unit_name u;
     runHeader := "# resultKey,testId,unit";
     runSummaryFile := fun id => "/perf/summary.csv";
     repr_items := fun d => "[...]" |}.

(** *** A run of three containers *)

(** Three containers are dispatched; the workers finish the third first,
    then the first, then the second. *)
Definition example_container (i : nat) : TestContainer :=
  {| counter := i; descriptor_id := "Test_" +:+ pretty i; cycle := 0;
     outsubdir := "/t/Test_" +:+ pretty i +:+ "/out";
     testObj := set_outcome [PASSED] (ProcessUser_init false true "/t/out");
     testTime := 0.5%float;
     kbrdInt := false |}.

Definition example_runner : BaseRunner :=
  {| record := true; purge := false; threads := 3;
     writers := ["results.log"];
     duration := 0%float;
     results := {[ 0 := fun _ => [] ]};
     resultsPointer := 0;
     resultsQueue := replicate 3 None;
     quiet := false; stdin := []; disk := ∅; trace := [] |}.

Definition example_completed : list TestContainer :=
  [example_container 2; example_container 0; example_container 1].

(** *** A cleanup

    Two registered functions, the first of which raises an error when
    called, and one running process. *)
Definition cleanup_example_behaviour (f : CleanupFn) : FnBehaviour :=
  {| fn_registers := []; fn_starts := []; fn_running := fun r => r;
     fn_result := if (fn_ident f =? 1)%nat then FnRaisesError else FnReturns |}.

Definition cleanup_example_self : ProcessUser :=
  set_processes [{| proc_id := 7; proc_stop_raises := false |}] ∅
    (foldl addCleanupFunction (ProcessUser_init false true "/out")
       [{| fn_ident := 1; fn_truthy := true |};
        {| fn_ident := 2; fn_truthy := true |}]).

Definition cleanup_example_world : World :=
  {| running := {[ 7 ]}; events := [] |}.

(** An object without cleanup functions whose one process cannot be
    stopped: [stop()] raises [ProcessError]. *)
Definition cleanup_failing_stop_self : ProcessUser :=
  set_processes [{| proc_id := 7; proc_stop_raises := true |}] ∅
    (ProcessUser_init false true "/out").

(** *** An interrupted cleanup

    The functions of the cleanup above, of which the one registered last
    is interrupted. *)
Definition cleanup_interrupted_behaviour (f : CleanupFn) : FnBehaviour :=
  {| fn_registers := []; fn_starts := []; fn_running := fun r => r;
     fn_result := if (fn_ident f =? 2)%nat then FnRaisesInterrupt else FnReturns |}.

(** *** A log file

    A search that finds the expression as it stands in the line, and the
    lines of a log. *)
Definition example_re_search (x s : string) : option string :=
  if contains x s then Some x else None.

Definition example_log : list string :=
  ["  starting "; ""; "debug: connecting"; "connected"; "done"].

(** *** Containers

    A container that is interrupted while it imports the test, one whose
    test is not runnable, and a run with one thread. *)
Definition example_env_interrupted : CallEnv :=
  {| env_FAILS := example_FAILS; env_prepare := None;
     env_import := ImportInterrupted; env_runnable := true;
     env_mode_excluded := false; env_detectCore := inl false |}.

Definition example_env_not_runnable : CallEnv :=
  {| env_FAILS := example_FAILS; env_prepare := None;
     env_import := Loaded (example_test passes_on passes_on); env_runnable := false;
     env_mode_excluded := false; env_detectCore := inl false |}.

Definition example_runner_one_thread : BaseRunner :=
  {| record := true; purge := false; threads := 1;
     writers := ["results.log"];
     duration := 0%float;
     results := ∅;
     resultsPointer := 0;
     resultsQueue := [];
     quiet := false; stdin := []; disk := ∅; trace := [] |}.

(** *** Performance files

    A row, and a file of two rows. *)
Definition example_row {N} (A : Arith N) (key : string) (v : N) (samples : Z)
    : PerfResult N :=
  {| r_resultKey := key; r_testId := "Perf_001"; r_value := v; r_unit := "/s";
     r_biggerIsBetter := true; r_toleranceStdDevs := num_of_int A 0;
     r_samples := samples; r_stdDev := num_of_int A 0; r_resultDetails := [] |}.

Definition example_file : CSVPerformanceFile float :=
  {| f_results := [example_row float_arith "write rate" 20%float 1;
                   example_row float_arith "read rate" 10%float 1];
     f_runDetails := [("hostname", "h1")] |}.

(** * Part II: properties *)

(** ** Outcome precedence *)

Lemma PRECEDENT_index_total (x : Outcome) :
  list_index x PRECEDENT = Some (PRECEDENT_index x).
Proof. destruct x; reflexivity. Qed.

Lemma insert_sorted_head {A} (key : A -> nat) (x : A) (l : list A) :
  exists y r, insert_sorted key x l = y :: r.
Proof. destruct l as [|z l]; simpl; [eauto|]. destruct (_ <=? _)%nat; eauto. Qed.

Lemma PRECEDENT_index_inj (x y : Outcome) :
  PRECEDENT_index x = PRECEDENT_index y -> x = y.
Proof. destruct x, y; simpl; intros H; try reflexivity; discriminate H. Qed.

(** Sorting keeps the elements. *)
Lemma insert_sorted_perm {A} (key : A -> nat) (x : A) (l : list A) :
  insert_sorted key x l ≡ₚ x :: l.
Proof.
  induction l as [|y l IH]; simpl; [reflexivity|].
  destruct (_ <=? _)%nat; [reflexivity|].
  rewrite IH. apply perm_swap.
Qed.

Lemma sorted_perm {A} (key : A -> nat) (l : list A) : sorted key l ≡ₚ l.
Proof.
  induction l as [|x l IH]; simpl; [reflexivity|].
  rewrite insert_sorted_perm. by constructor.
Qed.

(** The first element of the sorted list has the least key. *)
Lemma insert_sorted_least {A} (key : A -> nat) (x : A) (l : list A) y r :
  (forall z r', l = z :: r' -> Forall (fun o => key z <= key o) l) ->
  insert_sorted key x l = y :: r ->
  Forall (fun o => key y <= key o) (x :: l).
Proof.
  intros Hl. destruct l as [|z l']; simpl.
  - intros [= <- <-]. by constructor.
  - specialize (Hl z l' eq_refl).
    destruct (key x <=? key z)%nat eqn:E.
    + intros [= <- <-]. apply Nat.leb_le in E.
      constructor; [lia|]. eapply Forall_impl; [exact Hl|]. simpl. intros; lia.
    + intros [= <- <-]. apply Nat.leb_gt in E.
      constructor; [lia|]. exact Hl.
Qed.

Lemma sorted_least {A} (key : A -> nat) (l : list A) y r :
  sorted key l = y :: r -> Forall (fun o => key y <= key o) l.
Proof.
  revert y r. induction l as [|x l IH]; simpl; intros y r H; [discriminate|].
  apply insert_sorted_least in H.
  - rewrite <- (sorted_perm key l). exact H.
  - intros z r' Hz. rewrite (sorted_perm key l). eapply IH. exact Hz.
Qed.

Lemma getOutcome_nonempty (self : ProcessUser) :
  outcome self <> [] ->
  exists r, sorted PRECEDENT_index (outcome self) = getOutcome self :: r.
Proof.
  intros Hne. unfold getOutcome.
  destruct (outcome self) as [|o l] eqn:E; [done|].
  cbn [length Nat.eqb]. simpl sorted.
  destruct (insert_sorted_head PRECEDENT_index o (sorted PRECEDENT_index l))
    as (y & r & ->). eauto.
Qed.

Lemma getOutcome_empty (self : ProcessUser) :
  outcome self = [] -> getOutcome self = NOTVERIFIED.
Proof. intros E. unfold getOutcome. by rewrite E. Qed.

Lemma getOutcome_in (self : ProcessUser) :
  outcome self <> [] -> getOutcome self ∈ outcome self.
Proof.
  intros Hne. destruct (getOutcome_nonempty self Hne) as [r Hr].
  rewrite <- (sorted_perm PRECEDENT_index (outcome self)), Hr. by left.
Qed.

Lemma getOutcome_least (self : ProcessUser) :
  Forall (fun o => PRECEDENT_index (getOutcome self) <= PRECEDENT_index o)
         (outcome self).
Proof.
  destruct (outcome self) as [|o l] eqn:E; [constructor|].
  destruct (getOutcome_nonempty self) as [r Hr]; [by rewrite E|].
  rewrite <- E. eapply sorted_least. exact Hr.
Qed.

Lemma getOutcome_unique (self : ProcessUser) (x : Outcome) :
  x ∈ outcome self ->
  Forall (fun o => PRECEDENT_index x <= PRECEDENT_index o) (outcome self) ->
  x = getOutcome self.
Proof.
  intros Hx Hleast.
  assert (Hne : outcome self <> []) by (intros E; rewrite E in Hx; inversion Hx).
  apply PRECEDENT_index_inj. apply Nat.le_antisymm.
  - rewrite Forall_forall in Hleast. apply Hleast. by apply getOutcome_in.
  - pose proof (getOutcome_least self) as Hmin.
    rewrite Forall_forall in Hmin. by apply Hmin.
Qed.

(** C2.  [getOutcome] returns [NOTVERIFIED] when no outcome was recorded;
    otherwise it returns an outcome of the list whose index in the
    precedence order SKIPPED, BLOCKED, DUMPEDCORE, TIMEDOUT, FAILED,
    NOTVERIFIED, INSPECT, PASSED is the least of the list, and that
    determines it: any member of the list with a least index is the
    outcome returned. *)
Theorem getOutcome_min_precedence (self : ProcessUser) :
  map PRECEDENT_index
      [SKIPPED; BLOCKED; DUMPEDCORE; TIMEDOUT; FAILED; NOTVERIFIED; INSPECT; PASSED]
    = [0; 1; 2; 3; 4; 5; 6; 7]
  /\ match outcome self with
     | [] => getOutcome self = NOTVERIFIED
     | _ :: _ =>
         getOutcome self ∈ outcome self
         /\ Forall (fun o => PRECEDENT_index (getOutcome self) <= PRECEDENT_index o)
                   (outcome self)
         /\ Forall (fun o =>
                      Forall (fun o' => PRECEDENT_index o <= PRECEDENT_index o')
                             (outcome self) -> o = getOutcome self)
                   (outcome self)
     end.
Proof.
  split; [reflexivity|].
  destruct (outcome self) as [|o l] eqn:E; [by apply getOutcome_empty|].
  rewrite <- E.
  split; [apply getOutcome_in; by rewrite E|].
  split; [apply getOutcome_least|].
  apply Forall_forall. intros x Hx Hleast. by apply getOutcome_unique.
Qed.

(** ** The outcome reason *)

Lemma strip_empty_reason (reason : string) :
  (if decide (reason = "") then "" else strip reason) = strip reason.
Proof. destruct (decide (reason = "")) as [->|]; reflexivity. Qed.

Lemma outcome_addOutcome FAILS self o reason a :
  outcome (fst (addOutcome FAILS self o reason a)) = outcome self ++ [o].
Proof. unfold addOutcome. cbn [fst]. by destruct (decide _). Qed.

(** The overall outcome after one more outcome: the new one if it is
    strictly higher in precedence, the old one otherwise. *)
Lemma getOutcome_snoc (self : ProcessUser) (o : Outcome) :
  outcome self <> [] ->
  getOutcome (set_outcome (outcome self ++ [o]) self)
  = if decide (PRECEDENT_index o < PRECEDENT_index (getOutcome self))
    then o else getOutcome self.
Proof.
  intros Hne. symmetry. apply getOutcome_unique; cbn [outcome set_outcome].
  - destruct (decide _); [set_solver|].
    apply elem_of_app. left. by apply getOutcome_in.
  - pose proof (getOutcome_least self) as Hmin.
    apply Forall_app. split.
    + eapply Forall_impl; [exact Hmin|]. simpl. intros x Hx.
      destruct (decide _); lia.
    + constructor; [|constructor]. destruct (decide _); lia.
Qed.

Lemma getOutcome_first (self : ProcessUser) (o : Outcome) :
  outcome self = [] ->
  getOutcome (set_outcome (outcome self ++ [o]) self) = o.
Proof. intros E. unfold getOutcome. cbn [outcome set_outcome]. by rewrite E. Qed.

Lemma addOutcome_reason_nonempty FAILS self o reason a :
  outcome self <> [] ->
  getOutcomeReason (fst (addOutcome FAILS self o reason a))
  = if decide (PRECEDENT_index o < PRECEDENT_index (getOutcome self))
    then strip reason else getOutcomeReason self.
Proof.
  intros Hne. unfold addOutcome, getOutcomeReason. cbn [fst].
  rewrite (getOutcome_snoc self o Hne), strip_empty_reason.
  destruct (decide (PRECEDENT_index o < _)) as [Hlt|Hge].
  - destruct (decide (o = getOutcome self)) as [E|Hneq]; [|done].
    rewrite <- E in Hlt. lia.
  - by rewrite decide_True.
Qed.

Lemma addOutcome_reason_empty FAILS self o reason a :
  outcome self = [] ->
  getOutcomeReason (fst (addOutcome FAILS self o reason a))
  = if decide (o = NOTVERIFIED) then getOutcomeReason self else strip reason.
Proof.
  intros E. unfold addOutcome, getOutcomeReason. cbn [fst].
  rewrite (getOutcome_first self o E), (getOutcome_empty self E), strip_empty_reason.
  by destruct (decide (o = NOTVERIFIED)).
Qed.

Lemma reason_given_app o (l1 l2 : list (Outcome * string)) :
  reason_given o (l1 ++ l2)
  = match reason_given o l1 with
    | Some r => Some r
    | None => reason_given o l2
    end.
Proof.
  induction l1 as [|c l1 IH]; simpl; [done|]. by destruct (decide _).
Qed.

Lemma reason_given_absent o (l : list (Outcome * string)) :
  o ∉ map fst l -> reason_given o l = None.
Proof.
  induction l as [|c l IH]; simpl; [done|]. intros Hnot.
  apply not_elem_of_cons in Hnot as [Hne Hnot].
  rewrite decide_False by (intros E; by apply Hne). by apply IH.
Qed.

(** The invariant of a sequence of calls that does not start with
    [NOTVERIFIED]: the list holds the outcomes in call order, and the
    stored reason is the one given when the overall outcome was first
    added. *)
Lemma addOutcomes_reason FAILS abortOnError ignoreExitStatus out c0 calls :
  fst c0 <> NOTVERIFIED ->
  let self := addOutcomes FAILS (ProcessUser_init abortOnError ignoreExitStatus out)
                          (c0 :: calls) in
  outcome self = map fst (c0 :: calls)
  /\ reason_given (getOutcome self) (c0 :: calls) = Some (getOutcomeReason self).
Proof.
  intros Hc0. induction calls as [|c calls IH] using rev_ind.
  - cbn zeta. unfold addOutcomes. cbn [foldl].
    set (s0 := ProcessUser_init _ _ _).
    split; [by rewrite outcome_addOutcome|].
    rewrite (addOutcome_reason_empty FAILS s0 (fst c0) (snd c0) None eq_refl).
    rewrite decide_False by done.
    unfold addOutcome. cbn [fst].
    rewrite (getOutcome_first s0 (fst c0) eq_refl), (getOutcome_empty s0 eq_refl).
    rewrite decide_False by done. unfold getOutcome. cbn. by rewrite decide_True.
  - cbn zeta in *. destruct IH as [IHo IHr].
    unfold addOutcomes in *. rewrite app_comm_cons, foldl_snoc.
    set (s := foldl _ _ (c0 :: calls)) in *.
    assert (Hne : outcome s <> []) by (rewrite IHo; discriminate).
    split; [rewrite outcome_addOutcome, IHo, map_app; reflexivity|].
    rewrite (addOutcome_reason_nonempty FAILS s (fst c) (snd c) None Hne).
    assert (Hg : getOutcome (fst (addOutcome FAILS s (fst c) (snd c) None))
                 = if decide (PRECEDENT_index (fst c) < PRECEDENT_index (getOutcome s))
                   then fst c else getOutcome s).
    { rewrite <- (getOutcome_snoc s (fst c) Hne).
      unfold getOutcome. by rewrite outcome_addOutcome. }
    rewrite Hg, reason_given_app.
    destruct (decide (PRECEDENT_index (fst c) < _)) as [Hlt|Hge].
    + rewrite reason_given_absent; [simpl; by rewrite decide_True|].
      rewrite <- IHo. intros Hin.
      pose proof (getOutcome_least s) as Hmin. rewrite Forall_forall in Hmin.
      apply Hmin in Hin. lia.
    + by rewrite IHr.
Qed.

(** C4, as stated, fails on a fresh object: its overall outcome is the
    default [NOTVERIFIED], [PASSED] is lower in precedence, and yet adding
    [PASSED] with a reason replaces the stored reason. *)
Lemma addOutcome_reason_counterexample :
  let self := ProcessUser_init false true "/out" in
  PRECEDENT_index (getOutcome self) <= PRECEDENT_index PASSED
  /\ getOutcomeReason self = ""
  /\ getOutcomeReason
       (fst (addOutcome [BLOCKED; DUMPEDCORE; TIMEDOUT; FAILED] self PASSED "checked" None))
     = "checked".
Proof. vm_compute. repeat split. lia. Qed.

(** C4, amended.  On an object whose outcome list is not empty, adding an
    outcome of lower or equal precedence than the overall outcome leaves
    the stored reason unchanged, and adding one of strictly higher
    precedence stores its reason (stripped).  On an empty outcome list,
    adding any outcome but [NOTVERIFIED] stores its reason.  Hence, after
    any sequence of [addOutcome] calls on a fresh object that does not
    start with [NOTVERIFIED], the outcome list holds the outcomes in call
    order and the stored reason is the reason given when the current
    overall outcome was first added. *)
Theorem addOutcome_reason_follows_overall (FAILS : list Outcome) :
  (forall self o reason a,
      outcome self <> [] ->
      getOutcomeReason (fst (addOutcome FAILS self o reason a))
      = if decide (PRECEDENT_index o < PRECEDENT_index (getOutcome self))
        then strip reason else getOutcomeReason self)
  /\ (forall self o reason a,
        outcome self = [] -> o <> NOTVERIFIED ->
        getOutcomeReason (fst (addOutcome FAILS self o reason a)) = strip reason)
  /\ (forall abortOnError ignoreExitStatus out c0 calls,
        fst c0 <> NOTVERIFIED ->
        let self := addOutcomes FAILS
                      (ProcessUser_init abortOnError ignoreExitStatus out)
                      (c0 :: calls) in
        outcome self = map fst (c0 :: calls)
        /\ reason_given (getOutcome self) (c0 :: calls)
           = Some (getOutcomeReason self)).
Proof.
  split; [intros; by apply addOutcome_reason_nonempty|].
  split; [|intros; by apply addOutcomes_reason].
  intros self o reason a E Ho.
  rewrite (addOutcome_reason_empty FAILS self o reason a E).
  by rewrite decide_False.
Qed.

(** The three parts of the amended C4 at work: [FAILED] after [PASSED]
    takes the reason over, [PASSED] after [FAILED] does not. *)
Lemma addOutcome_reason_follows_overall_witness :
  let FAILS := [BLOCKED; DUMPEDCORE; TIMEDOUT; FAILED] in
  let s0 := ProcessUser_init false true "/out" in
  let s1 := fst (addOutcome FAILS s0 PASSED " first " None) in
  let s2 := fst (addOutcome FAILS s1 FAILED "second" None) in
  let s3 := fst (addOutcome FAILS s2 PASSED "third" None) in
  (outcome s0 = [] /\ PASSED <> NOTVERIFIED /\ getOutcomeReason s1 = "first")
  /\ (outcome s1 <> [] /\ getOutcomeReason s2 = "second")
  /\ (outcome s2 <> [] /\ getOutcomeReason s3 = "second")
  /\ (fst (PASSED, " first ") <> NOTVERIFIED
      /\ reason_given (getOutcome s3)
            [(PASSED, " first "); (FAILED, "second"); (PASSED, "third")]
         = Some (getOutcomeReason s3)).
Proof.
  intros FAILS s0 s1 s2 s3.
  destruct (addOutcome_reason_follows_overall FAILS) as (Hstep & Hfirst & Hseq).
  assert (H0 : outcome s0 = []) by reflexivity.
  assert (Hp : PASSED <> NOTVERIFIED) by discriminate.
  assert (H1 : outcome s1 <> []) by (vm_compute; discriminate).
  assert (H2 : outcome s2 <> []) by (vm_compute; discriminate).
  split; [split; [exact H0|split; [exact Hp|]]|].
  { exact (Hfirst s0 PASSED " first " None H0 Hp). }
  split; [split; [exact H1|]|].
  { exact (Hstep s1 FAILED "second" None H1). }
  split; [split; [exact H2|]|].
  { exact (Hstep s2 PASSED "third" None H2). }
  split; [exact Hp|].
  exact (proj2 (Hseq false true "/out" (PASSED, " first ")
                  [(FAILED, "second"); (PASSED, "third")] Hp)).
Defined.

(** ** Unique names for stdout and stderr *)

(** The counter of a key after a call is one more than before, starting
    from 0 at the first call; the counters of other keys are untouched. *)
Lemma allocateUniqueStdOutErr_counter (self : ProcessUser) (key : string) :
  uniqueProcessKeys (fst (allocateUniqueStdOutErr self key)) !! key
  = Some (default (-1) (uniqueProcessKeys self !! key) + 1)%Z.
Proof. unfold allocateUniqueStdOutErr. simpl. by rewrite lookup_insert_eq. Qed.

Lemma allocateUniqueStdOutErr_other_key (self : ProcessUser) (key key' : string) :
  key <> key' ->
  uniqueProcessKeys (fst (allocateUniqueStdOutErr self key)) !! key'
  = uniqueProcessKeys self !! key'.
Proof. intros Hne. unfold allocateUniqueStdOutErr. simpl. by rewrite lookup_insert_ne. Qed.

(** The names returned depend on the counter of the key alone: with [n]
    earlier calls for the key (counter [n - 1]) the suffix is empty for
    [n = 0] and [.n] otherwise. *)
Lemma allocateUniqueStdOutErr_suffix (self : ProcessUser) (key : string) (n : Z) :
  (0 < n)%Z ->
  uniqueProcessKeys self !! key = Some (n - 1)%Z ->
  snd (allocateUniqueStdOutErr self key)
  = (os_path_join (output self) (key +:+ ("." +:+ pretty n) +:+ ".out"),
     os_path_join (output self) (key +:+ ("." +:+ pretty n) +:+ ".err")).
Proof.
  intros Hn Hk. unfold allocateUniqueStdOutErr. rewrite Hk. simpl default.
  replace (n - 1 + 1)%Z with n by lia.
  apply Z.ltb_lt in Hn. cbn [snd]. by rewrite Hn.
Qed.

(** C3.  The calls of the scenario, with keys key, key, key, keyb on a
    fresh object with output directory /out: the second call returns
    key.1.out and key.1.err, the third key.2.out and key.2.err, so the
    second name does not end in key.2.out as the specification and the
    test PySys_internal_058 have it. *)
Theorem allocateUniqueStdOutErr_second_call_is_dot_1 :
  let s0 := ProcessUser_init false true "/out" in
  let r1 := allocateUniqueStdOutErr s0 "key" in
  let r2 := allocateUniqueStdOutErr (fst r1) "key" in
  let r3 := allocateUniqueStdOutErr (fst r2) "key" in
  let r4 := allocateUniqueStdOutErr (fst r3) "keyb" in
  snd r1 = ("/out/key.out", "/out/key.err")
  /\ snd r2 = ("/out/key.1.out", "/out/key.1.err")
  /\ snd r3 = ("/out/key.2.out", "/out/key.2.err")
  /\ snd r4 = ("/out/keyb.out", "/out/keyb.err")
  /\ endswith "key.2.out" (fst (snd r2)) = false
  /\ endswith "key.2.err" (snd (snd r2)) = false.
Proof. vm_compute. repeat split; reflexivity. Qed.

(** ** Registration of cleanup functions *)

Lemma cleanupFunctions_set (l : list CleanupFn) (self : ProcessUser) :
  cleanupFunctions (set_cleanupFunctions l self) = l.
Proof. reflexivity. Qed.

Lemma addCleanupFunction_falsy (self : ProcessUser) (fn : CleanupFn) :
  fn_truthy fn = false -> addCleanupFunction self fn = self.
Proof. intros H. unfold addCleanupFunction. by rewrite H. Qed.

Lemma addCleanupFunction_present (self : ProcessUser) (fn : CleanupFn) :
  fn ∈ cleanupFunctions self -> addCleanupFunction self fn = self.
Proof.
  intros H. unfold addCleanupFunction.
  rewrite (bool_decide_eq_true_2 _ H). by rewrite andb_false_r.
Qed.

Lemma addCleanupFunction_twice (self : ProcessUser) (fn : CleanupFn) :
  addCleanupFunction (addCleanupFunction self fn) fn = addCleanupFunction self fn.
Proof.
  destruct (fn_truthy fn) eqn:Ht.
  - destruct (decide (fn ∈ cleanupFunctions self)) as [Hin|Hin].
    + by rewrite !(addCleanupFunction_present self fn Hin).
    + apply addCleanupFunction_present. unfold addCleanupFunction.
      rewrite Ht, (bool_decide_eq_false_2 _ Hin). simpl. set_solver.
  - by rewrite !(addCleanupFunction_falsy self fn Ht).
Qed.

(** The stack never holds a callable twice, nor a falsy one. *)
Lemma addCleanupFunction_NoDup (self : ProcessUser) (fn : CleanupFn) :
  NoDup (cleanupFunctions self) -> NoDup (cleanupFunctions (addCleanupFunction self fn)).
Proof.
  intros H. unfold addCleanupFunction.
  destruct (fn_truthy fn); simpl; [|done].
  destruct (bool_decide (fn ∈ cleanupFunctions self)) eqn:Hin; simpl; [done|].
  apply bool_decide_eq_false_1 in Hin.
  apply NoDup_app. split; [done|]. split; [|apply NoDup_singleton].
  intros x Hx ->%list_elem_of_singleton. done.
Qed.

Lemma registrations_NoDup (self : ProcessUser) (fns : list CleanupFn) :
  NoDup (cleanupFunctions self) ->
  NoDup (cleanupFunctions (foldl addCleanupFunction self fns)).
Proof.
  revert self. induction fns as [|f fns IH]; simpl; intros self H; [done|].
  apply IH. by apply addCleanupFunction_NoDup.
Qed.

(** ** Cleanup *)

Section CleanupFacts.

Variable behaviour : CleanupFn -> FnBehaviour.

(** The loop over the cleanup functions calls a prefix of them, in order;
    it calls all of them unless one is interrupted. *)
Lemma run_cleanup_functions_events (fns : list CleanupFn) (st : ProcessUser * World) :
  exists k,
    events (snd (fst (run_cleanup_functions behaviour fns st)))
    = events (snd st) ++ map CalledFn (take k fns)
    /\ (snd (run_cleanup_functions behaviour fns st) = false -> k = length fns).
Proof.
  revert st. induction fns as [|f fns IH]; intros [self w].
  - exists 0. simpl. by rewrite app_nil_r.
  - cbn [run_cleanup_functions]. unfold call_fn. cbn [fst snd].
    destruct (fn_result (behaviour f)) eqn:Hr.
    1, 2: edestruct IH as (k & -> & Hk); exists (S k); cbn [events snd fst];
          split; [by rewrite <- app_assoc | intros H; simpl; f_equal; by apply Hk].
    exists 1. cbn [events snd fst]. split; [by destruct fns|done].
Qed.

(** Functions that raise errors do not end the loop: it runs to the end
    when no function is interrupted, and then the process list has grown
    by the processes the functions started. *)
Lemma run_cleanup_functions_all (fns : list CleanupFn) (st : ProcessUser * World) :
  Forall (fun f => fn_result (behaviour f) <> FnRaisesInterrupt) fns ->
  snd (run_cleanup_functions behaviour fns st) = false
  /\ processList (fst (fst (run_cleanup_functions behaviour fns st)))
     = processList (fst st) ++ flat_map (fun f => fn_starts (behaviour f)) fns.
Proof.
  intros H. revert st. induction H as [|f fns Hf _ IH]; intros [self w].
  - simpl. by rewrite app_nil_r.
  - cbn [run_cleanup_functions]. unfold call_fn. cbn [fst snd].
    destruct (fn_result (behaviour f)) eqn:Hr; [| |done].
    1, 2: match goal with |- context [run_cleanup_functions _ _ ?s] =>
            destruct (IH s) as [-> ->] end;
          split; [done|]; cbn [processList fst set_processes flat_map];
          rewrite <- app_assoc; f_equal;
          clear; generalize (fn_registers (behaviour f)); intros l; revert self;
          induction l as [|g l IHl]; intros self; simpl; [done|];
          rewrite IHl; unfold addCleanupFunction;
          by destruct (_ && _).
Qed.

(** Stopping the processes only ever shrinks the set of those running and
    only ever adds calls. *)
Lemma stop_processes_running (ps : list Process) (w : World) :
  running (stop_processes ps w) ⊆ running w.
Proof.
  revert w. induction ps as [|p ps IH]; intros w; simpl; [done|].
  etransitivity; [apply IH|].
  destruct (bool_decide _); [|done]. simpl.
  destruct (proc_stop_raises p); [done|]. by apply subseteq_difference_l.
Qed.

(** After the loop every process of the list is stopped, except where
    [stop()] itself was called and raised; [stop()] is called on
    processes of the list only. *)
Lemma stop_processes_stopped (ps : list Process) (w : World) :
  exists stops,
    events (stop_processes ps w) = events w ++ map CalledStop stops
    /\ stops ⊆ ps
    /\ Forall (fun p => proc_id p ∉ running (stop_processes ps w)
                        \/ (p ∈ stops /\ proc_stop_raises p = true)) ps.
Proof.
  revert w. induction ps as [|p ps IH]; intros w.
  - exists []. simpl. rewrite app_nil_r. by repeat split.
  - cbn [stop_processes].
    destruct (bool_decide (proc_id p ∈ running w)) eqn:Hrun.
    + destruct (IH (fst (process_stop p w))) as (stops & Hev & Hsub & Hall).
      exists (p :: stops). rewrite Hev. simpl. rewrite <- app_assoc.
      split; [done|]. split.
      { intros x Hx. apply elem_of_cons in Hx as [->|Hx]; [by left|].
        right. by apply Hsub. }
      constructor.
      * destruct (proc_stop_raises p) eqn:Hraise.
        -- right. split; [by left|done].
        -- left. intros Hin. apply stop_processes_running in Hin.
           simpl in Hin. try rewrite Hraise in Hin.
           apply elem_of_difference in Hin as [_ Hn].
           by apply Hn, elem_of_singleton.
      * eapply Forall_impl; [exact Hall|]. simpl. intros q [Hq|[Hq Hr]]; [by left|].
        right. split; [by right|done].
    + destruct (IH w) as (stops & Hev & Hsub & Hall).
      exists stops. split; [done|]. split.
      { intros x Hx. right. by apply Hsub. }
      constructor; [|done].
      left. intros Hin. apply stop_processes_running in Hin.
      by apply bool_decide_eq_false_1 in Hrun.
Qed.

(** A cleanup on an object with no cleanup function and no process calls
    nothing and changes nothing. *)
Lemma cleanup_idle (self : ProcessUser) (w : World) :
  cleanupFunctions self = [] -> processList self = [] -> processCount self = ∅ ->
  cleanup behaviour (self, w) = (self, w, false).
Proof.
  destruct self. simpl. intros -> -> ->. reflexivity.
Qed.

(** C9, as stated, fails for a process that cannot be stopped: [cleanup]
    calls [stop()] on it, logs the [ProcessError] and returns, and the
    process of the list is still running. *)
Lemma cleanup_leaves_process_running_counterexample :
  let p := {| proc_id := 7; proc_stop_raises := true |} in
  let res := cleanup cleanup_example_behaviour
               (cleanup_failing_stop_self, cleanup_example_world) in
  p ∈ processList cleanup_failing_stop_self
  /\ snd res = false
  /\ events (snd (fst res)) = [CalledStop p]
  /\ proc_id p ∈ running (snd (fst res))
  /\ processList (fst (fst res)) = [].
Proof.
  cbv zeta. split; [by left|]. split; [reflexivity|]. split; [reflexivity|].
  split; [|reflexivity]. vm_compute. reflexivity.
Qed.

(** C9, amended.  When no registered function is interrupted (errors, the
    subclasses of [Exception], are allowed), [cleanup] returns; it has
    called the registered functions most recently added first, all of
    them, whatever errors they raised; then it has called [stop()] on
    processes of the process list only, and every process of the list is
    not running afterwards unless [stop()] was called on it and raised;
    the stack of cleanup functions, the process list and the process
    counts are empty, and a second [cleanup] calls nothing and changes
    nothing. *)
Theorem cleanup_lifo_then_stop (self : ProcessUser) (w : World) :
  Forall (fun f => fn_result (behaviour f) <> FnRaisesInterrupt)
         (cleanupFunctions self) ->
  exists self' w' stops,
    let ps := processList self
              ++ flat_map (fun f => fn_starts (behaviour f))
                          (rev (cleanupFunctions self)) in
    cleanup behaviour (self, w) = (self', w', false)
    /\ events w' = events w ++ map CalledFn (rev (cleanupFunctions self))
                             ++ map CalledStop stops
    /\ stops ⊆ ps
    /\ Forall (fun p => proc_id p ∉ running w'
                        \/ (p ∈ stops /\ proc_stop_raises p = true)) ps
    /\ cleanupFunctions self' = [] /\ processList self' = []
    /\ processCount self' = ∅
    /\ cleanup behaviour (self', w') = (self', w', false).
Proof.
  intros Hfns.
  assert (Hrev : Forall (fun f => fn_result (behaviour f) <> FnRaisesInterrupt)
                        (rev (cleanupFunctions self))).
  { apply Forall_forall. intros f Hf. rewrite Forall_forall in Hfns.
    apply Hfns. apply list_elem_of_In. apply in_rev. by apply list_elem_of_In. }
  destruct (run_cleanup_functions_all _ (self, w) Hrev) as [Hint Hps].
  destruct (run_cleanup_functions_events (rev (cleanupFunctions self)) (self, w))
    as (k & Hev & Hk).
  specialize (Hk Hint). subst k. rewrite firstn_all in Hev.
  unfold cleanup. cbn [fst].
  destruct (run_cleanup_functions behaviour (rev (cleanupFunctions self)) (self, w))
    as [[self1 w1] i].
  cbn [fst snd] in *. subst i.
  destruct (stop_processes_stopped (processList self1) w1) as (stops & Hstop & Hsub & Hall).
  eexists _, _, stops. cbn zeta.
  split; [reflexivity|]. cbn [processList cleanupFunctions set_cleanupFunctions].
  rewrite Hstop, Hev, <- Hps, <- app_assoc.
  repeat split; try done.
Qed.

End CleanupFacts.

Lemma cleanup_lifo_then_stop_witness :
  Forall (fun f => fn_result (cleanup_example_behaviour f) <> FnRaisesInterrupt)
         (cleanupFunctions cleanup_example_self)
  /\ exists self' w' stops,
       cleanup cleanup_example_behaviour (cleanup_example_self, cleanup_example_world)
       = (self', w', false)
       /\ events w' = [CalledFn {| fn_ident := 2; fn_truthy := true |};
                       CalledFn {| fn_ident := 1; fn_truthy := true |}]
                      ++ map CalledStop stops
       /\ cleanupFunctions self' = [] /\ processList self' = [].
Proof.
  assert (H : Forall (fun f => fn_result (cleanup_example_behaviour f) <> FnRaisesInterrupt)
                     (cleanupFunctions cleanup_example_self)).
  { repeat constructor; simpl; discriminate. }
  split; [exact H|].
  destruct (cleanup_lifo_then_stop cleanup_example_behaviour
              cleanup_example_self cleanup_example_world H)
    as (self' & w' & stops & Hc & Hev & _ & _ & Hf & Hp & _).
  exists self', w', stops. repeat split; assumption.
Defined.

(** ** Each registered function is called at most once *)

Lemma calls_of_app (fn : CleanupFn) (l1 l2 : list Event) :
  calls_of fn (l1 ++ l2) = calls_of fn l1 + calls_of fn l2.
Proof. unfold calls_of. by rewrite filter_app, length_app. Qed.

Lemma calls_of_stops (fn : CleanupFn) (ps : list Process) :
  calls_of fn (map CalledStop ps) = 0.
Proof.
  unfold calls_of. induction ps as [|p ps IH]; [done|].
  simpl. rewrite filter_cons_False; [exact IH|discriminate].
Qed.

Lemma calls_of_absent (fn : CleanupFn) (l : list CleanupFn) :
  fn ∉ l -> calls_of fn (map CalledFn l) = 0.
Proof.
  unfold calls_of. induction l as [|g l IH]; intros Hnot; [done|].
  simpl. rewrite filter_cons_False.
  - apply IH. set_solver.
  - intros [= ->]. set_solver.
Qed.

Lemma calls_of_NoDup (fn : CleanupFn) (l : list CleanupFn) :
  NoDup l -> calls_of fn (map CalledFn l) <= 1.
Proof.
  induction 1 as [|g l Hg Hl IH]; [unfold calls_of; simpl; lia|].
  destruct (decide (g = fn)) as [->|Hne].
  - change (map CalledFn (fn :: l)) with ([CalledFn fn] ++ map CalledFn l).
    rewrite calls_of_app, (calls_of_absent fn l Hg).
    unfold calls_of. simpl. rewrite filter_cons_True; [|done]. simpl. lia.
  - unfold calls_of in *. simpl. rewrite filter_cons_False; [exact IH|].
    intros [= ->]. done.
Qed.

Lemma addCleanupFunction_truthy (self : ProcessUser) (fn : CleanupFn) :
  Forall (fun f => fn_truthy f = true) (cleanupFunctions self) ->
  Forall (fun f => fn_truthy f = true) (cleanupFunctions (addCleanupFunction self fn)).
Proof.
  intros H. unfold addCleanupFunction.
  destruct (fn_truthy fn) eqn:Ht; simpl; [|done].
  destruct (bool_decide _); simpl; [done|].
  apply Forall_app. split; [done|]. by constructor.
Qed.

Lemma registrations_truthy (self : ProcessUser) (fns : list CleanupFn) :
  Forall (fun f => fn_truthy f = true) (cleanupFunctions self) ->
  Forall (fun f => fn_truthy f = true)
         (cleanupFunctions (foldl addCleanupFunction self fns)).
Proof.
  revert self. induction fns as [|f fns IH]; simpl; intros self H; [done|].
  apply IH. by apply addCleanupFunction_truthy.
Qed.

(** What a cleanup calls, interrupted or not: some of the registered
    functions, latest first, then [stop()] on some processes. *)
Lemma cleanup_events (behaviour : CleanupFn -> FnBehaviour)
    (self : ProcessUser) (w : World) :
  exists k stops,
    events (snd (fst (cleanup behaviour (self, w))))
    = events w ++ map CalledFn (take k (rev (cleanupFunctions self)))
               ++ map CalledStop stops.
Proof.
  destruct (run_cleanup_functions_events behaviour (rev (cleanupFunctions self)) (self, w))
    as (k & Hev & _).
  unfold cleanup. cbn [fst].
  destruct (run_cleanup_functions behaviour (rev (cleanupFunctions self)) (self, w))
    as [[self1 w1] i].
  cbn [fst snd] in *.
  match goal with |- context [stop_processes ?ps w1] =>
    destruct (stop_processes_stopped ps w1) as (stops & Hstop & _) end.
  exists k, stops. by rewrite Hstop, Hev, <- app_assoc.
Qed.

(** C10.  Registering the same callable a second time changes nothing, and
    registering a falsy value changes nothing; so, whatever was registered
    on a fresh object and however often, a cleanup calls a callable at
    most once, and a falsy one never. *)
Theorem addCleanupFunction_idempotent :
  (forall self fn,
      addCleanupFunction (addCleanupFunction self fn) fn = addCleanupFunction self fn)
  /\ (forall self ident,
        addCleanupFunction self {| fn_ident := ident; fn_truthy := false |} = self)
  /\ (forall behaviour abortOnError ignoreExitStatus out fns fn w,
        let self := foldl addCleanupFunction
                          (ProcessUser_init abortOnError ignoreExitStatus out) fns in
        calls_of fn (events (snd (fst (cleanup behaviour (self, w)))))
        <= calls_of fn (events w) + (if fn_truthy fn then 1 else 0)).
Proof.
  split; [exact addCleanupFunction_twice|].
  split; [intros; by apply addCleanupFunction_falsy|].
  intros behaviour a i out fns fn w self.
  destruct (cleanup_events behaviour self w) as (k & stops & ->).
  rewrite !calls_of_app, calls_of_stops.
  assert (Hnd : NoDup (cleanupFunctions self))
    by (apply registrations_NoDup; simpl; constructor).
  assert (Htr : Forall (fun f => fn_truthy f = true) (cleanupFunctions self))
    by (apply registrations_truthy; simpl; constructor).
  set (l := take k (rev (cleanupFunctions self))).
  assert (Hsub : l ⊆ cleanupFunctions self).
  { intros x Hx. apply list_elem_of_In, in_rev, list_elem_of_In.
    eapply subseteq_take. exact Hx. }
  destruct (fn_truthy fn) eqn:Ht.
  - assert (calls_of fn (map CalledFn l) <= 1); [|lia].
    apply calls_of_NoDup. eapply sublist_NoDup; [|apply sublist_take].
    eapply NoDup_Permutation_proper; [|exact Hnd].
    symmetry. apply Permutation_rev.
  - rewrite calls_of_absent; [lia|].
    intros Hin. apply Hsub in Hin. rewrite Forall_forall in Htr.
    apply Htr in Hin. congruence.
Qed.

(** ** Purging the output directory *)

Lemma remove_with_retries_None (fuel : nat) (e : DirEntry) :
  remove_with_retries fuel e = None <-> entry_remove_failures e < fuel.
Proof.
  revert e. induction fuel as [|fuel IH]; intros e; simpl.
  - split; [discriminate|lia].
  - destruct (entry_remove_failures e) as [|k] eqn:E.
    + split; [lia|done].
    + rewrite IH. simpl. lia.
Qed.

Lemma remove_with_retries_name (fuel : nat) (e e' : DirEntry) :
  remove_with_retries fuel e = Some e' -> entry_name e' = entry_name e.
Proof.
  revert e. induction fuel as [|fuel IH]; intros e; simpl.
  - by intros [= ->].
  - destruct (entry_remove_failures e); [discriminate|].
    intros H. by apply IH in H.
Qed.

(** When [lstat] succeeds on every entry, the entries left are those not
    selected for removal and those whose removal failed three times. *)
Lemma purge_entries_names (removeNonZero : bool) (l : list DirEntry) :
  Forall (fun e => is_Some (entry_size e)) l ->
  map entry_name (purge_entries removeNonZero l)
  = map entry_name (filter (fun e => entry_stays removeNonZero e = true) l).
Proof.
  induction 1 as [|e l [size Hsize] _ IH]; [done|].
  cbn [purge_entries]. rewrite Hsize.
  fold (selected_for_removal removeNonZero (entry_name e) size).
  destruct (selected_for_removal removeNonZero (entry_name e) size) eqn:Hsel.
  - destruct (remove_with_retries 3 e) as [e'|] eqn:Hrm.
    + rewrite filter_cons_True.
      * simpl. f_equal; [by eapply remove_with_retries_name|exact IH].
      * unfold entry_stays. rewrite Hsize, Hsel. cbn [negb orb].
        apply Nat.leb_le.
        destruct (decide (entry_remove_failures e < 3)) as [Hlt|]; [|lia].
        apply remove_with_retries_None in Hlt. congruence.
    + rewrite filter_cons_False; [exact IH|].
      unfold entry_stays. rewrite Hsize, Hsel. cbn [negb orb].
      apply remove_with_retries_None in Hrm.
      intros Hle%Nat.leb_le. lia.
  - rewrite filter_cons_True; [simpl; by f_equal|].
    unfold entry_stays. by rewrite Hsize, Hsel.
Qed.

(** The flag is set exactly when [purge] is and every outcome of the test
    is [PASSED]. *)
Lemma removeNonZero_flag_true (purge : bool) (testObj : ProcessUser) :
  removeNonZero_flag purge testObj = true
  <-> purge = true /\ Forall (fun o => o = PASSED) (outcome testObj).
Proof.
  unfold removeNonZero_flag. rewrite andb_true_iff, forallb_forall, Forall_forall.
  split; intros [Hp Hall]; (split; [done|]); intros o Ho.
  - apply list_elem_of_In, Hall in Ho. by apply bool_decide_eq_true_1 in Ho.
  - apply bool_decide_eq_true_2, Hall. by apply list_elem_of_In.
Qed.

(** Files of zero length are selected whatever the flag; without the flag
    nothing else is. *)
Lemma selected_for_removal_no_purge (name : string) (size : Z) :
  selected_for_removal false name size = (size =? 0)%Z.
Proof. unfold selected_for_removal. simpl. by rewrite orb_false_r. Qed.

(** With the flag, a file that is not empty is kept exactly when the
    pattern is found in its name, which is so for run.log and for other
    names too. *)
Lemma selected_for_removal_purge (name : string) (size : Z) :
  size <> 0%Z ->
  selected_for_removal true name size = negb (re_search_run_log name).
Proof.
  intros Hs. unfold selected_for_removal.
  apply Z.eqb_neq in Hs. by rewrite Hs.
Qed.

(** C7.  A test whose only outcome is [PASSED], a runner with [purge] set,
    and an output directory that holds run.log, a copy of it named
    run.log.proc as the test PySys_internal_053 makes one, a file with
    content and an empty file, all removable: [testComplete] removes the
    last two and leaves run.log.proc next to run.log, where the
    specification has every file but run.log removed. *)
Theorem testComplete_keeps_names_matching_run_log :
  let testObj := set_outcome [PASSED] (ProcessUser_init false true "/t/out") in
  let file := fun name size =>
    {| entry_name := name; entry_size := Some size; entry_remove_failures := 0 |} in
  let disk : gmap string (list DirEntry) :=
    {[ "/t/out" := [file "run.log" 120%Z; file "run.log.proc" 120%Z;
                    file "output.txt" 56%Z; file "empty.err" 0%Z] ]} in
  removeNonZero_flag true testObj = true
  /\ map entry_name <$> (testComplete true testObj "/t/out" disk !! "/t/out")
     = Some ["run.log"; "run.log.proc"].
Proof. vm_compute. split; reflexivity. Qed.

(** ** Ordered publication of results *)

Lemma same_config_refl r : same_config r r.
Proof. by repeat split. Qed.

Lemma same_config_trans r1 r2 r3 :
  same_config r1 r2 -> same_config r2 r3 -> same_config r1 r3.
Proof. unfold same_config. intuition congruence. Qed.

Lemma same_config_enabled r r' st : same_config r r' -> enabled r' st = enabled r st.
Proof. intros (? & ? & ? & ? & ?). destruct st; simpl; congruence. Qed.

Lemma published_app_trace st r evs r' :
  trace r' = trace r ++ evs ->
  published st r' = published st r ++ map snd (filter (fun e => fst e = st) evs).
Proof. intros H. unfold published. by rewrite H, filter_app, map_app. Qed.

Lemma fold_writers_fields c ws r :
  let r' := foldl (fun r' w => log_stage (ProcessResult w) c r') r ws in
  trace r' = trace r ++ map (fun w => (ProcessResult w, c)) ws
  /\ same_config r r' /\ resultsPointer r' = resultsPointer r
  /\ resultsQueue r' = resultsQueue r /\ stdin r' = stdin r
  /\ results r' = results r /\ duration r' = duration r.
Proof.
  revert r. induction ws as [|w ws IH]; intros r; simpl.
  - rewrite app_nil_r. repeat split.
  - destruct (IH (log_stage (ProcessResult w) c r)) as (Ht & Hc & Hp & Hq & Hs & Hr & Hd).
    rewrite Ht, Hp, Hq, Hs, Hr, Hd. simpl. rewrite <- app_assoc.
    repeat split; apply Hc.
Qed.

Lemma filter_writer_events st c ws :
  map snd (filter (fun e : Stage * nat => fst e = st)
                  (map (fun w => (ProcessResult w, c)) ws))
  = match st with
    | ProcessResult w => map (fun _ => c) (filter (fun w' => w' = w) ws)
    | _ => []
    end.
Proof.
  induction ws as [|w' ws IH]; [by destruct st|].
  simpl. destruct (decide (ProcessResult w' = st)) as [<-|Hne].
  - rewrite filter_cons_True by done. simpl. rewrite IH.
    by rewrite filter_cons_True.
  - rewrite filter_cons_False by done. rewrite IH.
    destruct st; try done. rewrite filter_cons_False; [done|congruence].
Qed.

Lemma filter_eq_seq w a m :
  filter (fun w' => w' = w) (seq a m) = if bool_decide (a <= w < a + m) then [w] else [].
Proof.
  revert a. induction m as [|m IH]; intros a; simpl.
  - rewrite bool_decide_eq_false_2; [done|lia].
  - destruct (decide (a = w)) as [->|Hne].
    + rewrite filter_cons_True by done. rewrite IH.
      rewrite bool_decide_eq_false_2 by lia. rewrite bool_decide_eq_true_2 by lia. done.
    + rewrite filter_cons_False by done. rewrite IH.
      destruct (decide (S a <= w < S a + m)).
      * rewrite !bool_decide_eq_true_2 by lia. done.
      * rewrite !bool_decide_eq_false_2 by lia. done.
Qed.

Lemma publish_trace i c r r' comp :
  publish i c r = (r', comp) ->
  same_config r r'
  /\ trace r' = trace r ++ announce_events c r
                ++ (if kbrdInt c then [(Prompt, counter c)] else [])
                ++ (if decide (comp = Returns) then [(Tally, counter c)] else [])
  /\ (if decide (comp = Returns)
      then resultsPointer r' = resultsPointer r + 1
           /\ resultsQueue r' = <[i:=None]> (resultsQueue r)
      else resultsPointer r' = resultsPointer r
           /\ resultsQueue r' = resultsQueue r).
Proof.
  unfold publish, announce_events.
  set (r1 := if (1 <? threads r)%Z then log_stage Flush (counter c) r else r).
  assert (H1 : same_config r r1 /\ trace r1 = trace r ++ (if (1 <? threads r)%Z then [(Flush, counter c)] else [])
               /\ resultsPointer r1 = resultsPointer r /\ resultsQueue r1 = resultsQueue r).
  { subst r1. destruct (1 <? threads r)%Z; simpl; rewrite ?app_nil_r; repeat split. }
  clearbody r1. destruct H1 as (Hc1 & Ht1 & Hp1 & Hq1).
  set (r2 := if quiet r1 then log_stage LogOutcome (counter c) r1 else r1).
  assert (H2 : same_config r1 r2 /\ trace r2 = trace r1 ++ (if quiet r then [(LogOutcome, counter c)] else [])
               /\ resultsPointer r2 = resultsPointer r1 /\ resultsQueue r2 = resultsQueue r1).
  { subst r2. destruct Hc1 as (_ & _ & _ & _ & ->).
    destruct (quiet r); simpl; rewrite ?app_nil_r; repeat split. }
  clearbody r2. destruct H2 as (Hc2 & Ht2 & Hp2 & Hq2).
  set (r3 := log_stage TestComplete (counter c) (set_disk _ r2)).
  assert (H3 : same_config r2 r3 /\ trace r3 = trace r2 ++ [(TestComplete, counter c)]
               /\ resultsPointer r3 = resultsPointer r2 /\ resultsQueue r3 = resultsQueue r2).
  { subst r3. simpl. repeat split. }
  clearbody r3. destruct H3 as (Hc3 & Ht3 & Hp3 & Hq3).
  set (r4 := if record r3 then foldl _ r3 _ else r3).
  assert (H4 : same_config r3 r4
               /\ trace r4 = trace r3 ++ (if record r then map (fun w => (ProcessResult w, counter c)) (seq 0 (length (writers r))) else [])
               /\ resultsPointer r4 = resultsPointer r3 /\ resultsQueue r4 = resultsQueue r3).
  { subst r4.
    assert (Hc : same_config r r3) by eauto using same_config_trans.
    destruct Hc as (-> & _ & _ & -> & _).
    destruct (record r).
    - destruct (fold_writers_fields (counter c) (seq 0 (length (writers r))) r3)
        as (Ht & Hc & Hp & Hq & _). split; [exact Hc|]. by repeat split.
    - rewrite app_nil_r. repeat split. }
  clearbody r4. destruct H4 as (Hc4 & Ht4 & Hp4 & Hq4).
  assert (Hc : same_config r r4) by eauto using same_config_trans.
  assert (Ht : trace r4 = trace r ++ ((if (1 <? threads r)%Z then [(Flush, counter c)] else [])
     ++ (if quiet r then [(LogOutcome, counter c)] else [])
     ++ [(TestComplete, counter c)]
     ++ (if record r then map (fun w => (ProcessResult w, counter c)) (seq 0 (length (writers r))) else []))).
  { rewrite Ht4, Ht3, Ht2, Ht1. by rewrite <- !app_assoc. }
  assert (Hp : resultsPointer r4 = resultsPointer r) by congruence.
  assert (Hq : resultsQueue r4 = resultsQueue r) by congruence.
  clear Hc1 Ht1 Hp1 Hq1 Hc2 Ht2 Hp2 Hq2 Hc3 Ht3 Hp3 Hq3 Hc4 Ht4 Hp4 Hq4 r1 r2 r3.
  destruct (kbrdInt c).
  - destruct (handleKbrdInt (stdin r4)) as [rest comp'].
    destruct comp'.
    + destruct (results _ !! cycle c) as [tally|]; intros [= <- <-]; simpl;
        rewrite ?Ht, ?Hp, ?Hq, <- ?app_assoc; repeat split; try apply Hc.
    + intros [= <- <-]; simpl;
        rewrite ?Ht, ?Hp, ?Hq, <- ?app_assoc; repeat split; try apply Hc.
    + intros [= <- <-]; simpl;
        rewrite ?Ht, ?Hp, ?Hq, <- ?app_assoc; repeat split; try apply Hc.
    + intros [= <- <-]; simpl;
        rewrite ?Ht, ?Hp, ?Hq, <- ?app_assoc; repeat split; try apply Hc.
  - destruct (results _ !! cycle c) as [tally|]; intros [= <- <-]; simpl;
        rewrite ?Ht, ?Hp, ?Hq, <- ?app_assoc, ?app_nil_r; repeat split; try apply Hc.
Qed.

Lemma published_announce st c r :
  map snd (filter (fun e : Stage * nat => fst e = st) (announce_events c r))
  = match st with
    | Prompt | Tally => []
    | _ => if enabled r st then [counter c] else []
    end.
Proof.
  unfold announce_events. rewrite !filter_app, !map_app.
  assert (Hw : map snd (filter (fun e : Stage * nat => fst e = st)
                 (if record r then map (fun w => (ProcessResult w, counter c))
                                       (seq 0 (length (writers r))) else []))
               = match st with
                 | ProcessResult w => if enabled r st then [counter c] else []
                 | _ => []
                 end).
  { destruct (record r) eqn:Hrec.
    - rewrite filter_writer_events. destruct st; try done.
      rewrite filter_eq_seq. simpl. rewrite Hrec. simpl.
      destruct (decide (writer < length (writers r))) as [Hlt|Hge].
      + rewrite bool_decide_eq_true_2 by lia.
        apply Nat.ltb_lt in Hlt. by rewrite Hlt.
      + rewrite bool_decide_eq_false_2 by lia.
        apply Nat.nlt_ge, Nat.ltb_ge in Hge. by rewrite Hge.
    - destruct st; try done. simpl. by rewrite Hrec. }
  rewrite Hw. clear Hw.
  destruct st; simpl; destruct (1 <? threads r)%Z, (quiet r); simpl;
    rewrite ?filter_cons_True, ?filter_cons_False, ?filter_nil by (done || discriminate);
    simpl; rewrite ?app_nil_r; try done; by destruct (_ && _).
Qed.

Lemma publish_upto r0 i c r r' comp :
  publish i c r = (r', comp) ->
  same_config r0 r -> counter c = i -> published_upto r0 r i ->
  same_config r0 r'
  /\ (if decide (comp = Returns)
      then resultsPointer r' = resultsPointer r + 1
           /\ resultsQueue r' = <[i:=None]> (resultsQueue r)
           /\ published_upto r0 r' (S i)
      else resultsPointer r' = resultsPointer r
           /\ resultsQueue r' = resultsQueue r
           /\ published Tally r' = seq 0 i
           /\ forall st, st <> Prompt -> st <> Tally ->
                published st r' = if enabled r0 st then seq 0 (S i) else []).
Proof.
  intros Hpub Hc0 Hci Hupto.
  destruct (publish_trace _ _ _ _ _ Hpub) as (Hc & Ht & Hrest).
  split; [by eapply same_config_trans|].
  assert (Hst : forall st, st <> Prompt ->
            published st r' = published st r
              ++ match st with
                 | Tally => if decide (comp = Returns) then [i] else []
                 | _ => if enabled r0 st then [i] else []
                 end).
  { intros st Hst. rewrite (published_app_trace st r _ r' Ht).
    f_equal. rewrite !filter_app, !map_app, published_announce.
    rewrite (same_config_enabled r0 r st Hc0), Hci.
    assert (Hp : map snd (filter (fun e : Stage * nat => fst e = st)
                   (if kbrdInt c then [(Prompt, i)] else [])) = []).
    { destruct (kbrdInt c); [|done]. by rewrite filter_cons_False. }
    rewrite Hp. clear Hp.
    destruct st; try done; simpl;
      rewrite ?app_nil_r; try (destruct (decide (comp = Returns)));
      rewrite ?filter_cons_True, ?filter_cons_False, ?filter_nil by (done || discriminate);
      simpl; rewrite ?app_nil_r; done. }
  destruct (decide (comp = Returns)) as [->|Hne].
  - destruct Hrest as [Hp Hq]. split; [done|]. split; [done|].
    intros st Hprompt. rewrite (Hst st Hprompt), (Hupto st Hprompt).
    rewrite seq_S. simpl.
    destruct st; try done; simpl; repeat case_match; done.
  - destruct Hrest as [Hp Hq]. split; [done|]. split; [done|]. split.
    + rewrite (Hst Tally) by done. rewrite (Hupto Tally) by done. simpl.
      by rewrite app_nil_r.
    + intros st Hprompt Htally. rewrite (Hst st Hprompt), (Hupto st Hprompt).
      rewrite seq_S. simpl.
      destruct st; try done; simpl; repeat case_match; done.
Qed.

Lemma queue_inv_published (n : nat) (delivered : nat -> Prop) (r r' : BaseRunner) :
  queue_inv n delivered r ->
  delivered (resultsPointer r) -> resultsPointer r < n ->
  resultsPointer r' = resultsPointer r + 1 ->
  resultsQueue r' = <[resultsPointer r := None]> (resultsQueue r) ->
  queue_inv n delivered r'.
Proof.
  intros (Hlen & Hle & Hslot & Hbelow & Hfilled) Hd Hlt Hp Hq.
  unfold queue_inv. rewrite Hp, Hq, length_insert.
  split; [done|]. split; [lia|]. split; [|split].
  - intros i c Hi. destruct (decide (i = resultsPointer r)) as [->|Hne].
    + rewrite list_lookup_insert_eq in Hi by lia. discriminate.
    + rewrite list_lookup_insert_ne in Hi by done. by apply Hslot.
  - intros i Hi. destruct (decide (i = resultsPointer r)) as [->|Hne]; [done|].
    apply Hbelow. lia.
  - intros i Hi Hge Hin. rewrite list_lookup_insert_ne by lia.
    apply Hfilled; [done|lia|done].
Qed.

Lemma publish_loop_spec (r0 : BaseRunner) (n : nat) (delivered : nat -> Prop) (fuel : nat) :
  forall r r' comp,
    same_config r0 r -> queue_inv n delivered r ->
    published_upto r0 r (resultsPointer r) ->
    fuel = n - resultsPointer r ->
    publish_loop fuel (resultsPointer r) r = (r', comp) ->
    same_config r0 r' /\ queue_inv n delivered r'
    /\ (if decide (comp = Returns)
        then published_upto r0 r' (resultsPointer r') /\ cursor_rests n r'
        else publication_cut_short r0 n delivered r').
Proof.
  induction fuel as [|fuel IH]; intros r r' comp Hc Hinv Hupto Hfuel.
  - simpl. intros [= <- <-]. split; [done|]. split; [done|]. simpl.
    split; [done|]. left. destruct Hinv as (_ & Hle & _). lia.
  - cbn [publish_loop].
    destruct (resultsQueue r !! resultsPointer r) as [[c|]|] eqn:Hslot.
    + pose proof Hinv as (Hlen & Hle & Hs & _).
      destruct (Hs _ _ Hslot) as [Hci Hd].
      assert (Hlt : resultsPointer r < n).
      { rewrite <- Hlen. eapply lookup_lt_Some. exact Hslot. }
      destruct (publish (resultsPointer r) c r) as [r1 comp1] eqn:Hpub.
      destruct (publish_upto r0 _ _ _ _ _ Hpub Hc Hci Hupto) as [Hc1 Hres].
      destruct comp1; simpl in Hres.
      * destruct Hres as (Hp & Hq & Hup1).
        assert (Hinv1 : queue_inv n delivered r1) by by eapply queue_inv_published.
        intros Hloop. replace (S (resultsPointer r)) with (resultsPointer r1) in Hloop by lia.
        eapply IH; [exact Hc1|exact Hinv1| |lia|exact Hloop].
        by replace (resultsPointer r1) with (S (resultsPointer r)) by lia.
      * intros [= <- <-]. destruct Hres as (Hp & Hq & Ht & Hst).
        split; [done|]. split.
        { unfold queue_inv. by rewrite Hp, Hq. }
        simpl. unfold publication_cut_short. by rewrite Hp.
      * intros [= <- <-]. destruct Hres as (Hp & Hq & Ht & Hst).
        split; [done|]. split.
        { unfold queue_inv. by rewrite Hp, Hq. }
        simpl. unfold publication_cut_short. by rewrite Hp.
      * intros [= <- <-]. destruct Hres as (Hp & Hq & Ht & Hst).
        split; [done|]. split.
        { unfold queue_inv. by rewrite Hp, Hq. }
        simpl. unfold publication_cut_short. by rewrite Hp.
    + intros [= <- <-]. split; [done|]. split; [done|]. simpl.
      split; [done|]. by right.
    + intros [= <- <-]. split; [done|]. split; [done|]. simpl.
      split; [done|]. left.
      apply lookup_ge_None in Hslot. destruct Hinv as (Hlen & Hle & _). lia.
Qed.

Lemma containerCallback_spec (r0 : BaseRunner) (n : nat) (delivered : nat -> Prop)
    (r : BaseRunner) (c : TestContainer) (r' : BaseRunner) (comp : Completion) :
  same_config r0 r -> queue_inv n delivered r ->
  published_upto r0 r (resultsPointer r) ->
  containerCallback r c = (r', comp) ->
  same_config r0 r'
  /\ queue_inv n (fun i => delivered i \/ i = counter c) r'
  /\ (if decide (comp = Returns)
      then published_upto r0 r' (resultsPointer r') /\ cursor_rests n r'
      else published_upto r0 r' (resultsPointer r')
           \/ publication_cut_short r0 n (fun i => delivered i \/ i = counter c) r').
Proof.
  intros Hc Hinv Hupto. unfold containerCallback.
  destruct (counter c <? length (resultsQueue r))%nat eqn:Hlt.
  - apply Nat.ltb_lt in Hlt.
    set (r1 := set_queue _ _ r).
    assert (Hinv1 : queue_inv n (fun i => delivered i \/ i = counter c) r1).
    { destruct Hinv as (Hlen & Hle & Hslot & Hbelow & Hfilled).
      unfold queue_inv. subst r1. cbn [resultsQueue resultsPointer set_queue].
      rewrite length_insert. split; [done|]. split; [done|]. split; [|split].
      - intros i c' Hi. destruct (decide (i = counter c)) as [->|Hne].
        + rewrite list_lookup_insert_eq in Hi by done.
          injection Hi as <-. by split; [|right].
        + rewrite list_lookup_insert_ne in Hi by done.
          destruct (Hslot _ _ Hi). by split; [|left].
      - intros i Hi. left. by apply Hbelow.
      - intros i Hi Hge Hin. destruct (decide (i = counter c)) as [->|Hne].
        + exists c. by rewrite list_lookup_insert_eq.
        + rewrite list_lookup_insert_ne by done.
          destruct Hi as [Hi|Hi]; [|done]. by apply Hfilled. }
    intros Hloop.
    assert (Hlen1 : length (resultsQueue r1) = n) by apply Hinv1.
    rewrite Hlen1 in Hloop.
    destruct (publish_loop_spec r0 n _ _ r1 r' comp Hc Hinv1 Hupto eq_refl Hloop)
      as (Hc' & Hinv' & Hres).
    split; [done|]. split; [done|].
    destruct (decide (comp = Returns)); [done|by right].
  - intros [= <- <-]. apply Nat.ltb_ge in Hlt.
    split; [done|]. split; [|by left].
    destruct Hinv as (Hlen & Hle & Hslot & Hbelow & Hfilled).
    split; [done|]. split; [done|]. split; [|split].
    + intros i c' Hi. destruct (Hslot _ _ Hi). by split; [|left].
    + intros i Hi. left. by apply Hbelow.
    + intros i [Hi| ->] Hge Hin; [by apply Hfilled|lia].
Qed.

Lemma publication_in_order_ext r0 n (P Q : nat -> Prop) r comp :
  (forall i, P i -> Q i) -> (comp = Returns -> forall i, Q i -> P i) ->
  publication_in_order r0 n P r comp -> publication_in_order r0 n Q r comp.
Proof.
  intros HPQ HQP (Hle & Hbelow & Ht & Hst & Hall).
  split; [done|]. split; [by auto|]. split; [done|]. split.
  - destruct Hst as [Hst|(Hne & Hlt & Hd & Hst)]; [by left|right]. by auto.
  - intros -> Hn. apply Hall; [done|]. intros i Hi. by apply HQP, Hn.
Qed.

Lemma deliver_spec (r0 : BaseRunner) (n : nat) (completed : list TestContainer) :
  forall (delivered : nat -> Prop) r r' comp,
    same_config r0 r -> queue_inv n delivered r ->
    published_upto r0 r (resultsPointer r) -> cursor_rests n r ->
    deliver r completed = (r', comp) ->
    publication_in_order r0 n
      (fun i => delivered i \/ i ∈ map counter completed) r' comp.
Proof.
  induction completed as [|c cs IH]; intros delivered r r' comp Hc Hinv Hupto Hrest.
  - simpl. intros [= <- <-].
    destruct Hinv as (Hlen & Hle & Hslot & Hbelow & Hfilled).
    split; [done|]. split; [by auto|]. split; [by apply Hupto|].
    split; [by left|]. intros _ Hall.
    destruct Hrest as [?|Hnone]; [done|].
    destruct (decide (resultsPointer r = n)) as [?|Hne]; [done|].
    destruct (Hall (resultsPointer r)) as [Hd|Hd]; [lia| |by apply elem_of_nil in Hd].
    destruct (Hfilled _ Hd) as [c Hsome]; [lia|lia|]. congruence.
  - cbn [deliver]. destruct (containerCallback r c) as [r1 comp1] eqn:Hcb.
    destruct (containerCallback_spec r0 n delivered r c r1 comp1 Hc Hinv Hupto Hcb)
      as (Hc1 & Hinv1 & Hres).
    assert (Hcut : comp1 <> Returns ->
              publication_in_order r0 n
                (fun i => delivered i \/ i ∈ map counter (c :: cs)) r1 comp1).
    { intros Hne. rewrite decide_False in Hres by done.
      apply (publication_in_order_ext r0 n (fun i => delivered i \/ i = counter c));
        [intros i [?| ->]; [by left|right; simpl; by left]|done|].
      destruct Hinv1 as (Hlen & Hle & Hslot & Hbelow & Hfilled).
      split; [done|]. split; [done|].
      destruct Hres as [Hup|(Hlt & Hd & Ht & Hst)].
      - split; [by apply Hup|]. split; [by left|done].
      - split; [done|]. split; [by right|done]. }
    destruct comp1; [|intros [= <- <-]; by apply Hcut..].
    simpl in Hres. destruct Hres as [Hup1 Hrest1].
    intros Hd. specialize (IH _ _ _ _ Hc1 Hinv1 Hup1 Hrest1 Hd).
    eapply publication_in_order_ext; [| |exact IH].
    + intros i [[?| ->]|?]; [by left|right; simpl; by left|right; simpl; by right].
    + intros _ i [?|Hi]; [by left; left|].
      simpl in Hi. apply elem_of_cons in Hi as [-> |?]; [left; by right|by right].
Qed.

(** C1.  A cycle starts with a queue of [n] empty slots, the cursor at 0
    and nothing published.  Whatever containers the pool hands to
    [containerCallback], in whatever order, and whichever way the run of
    callbacks ends: with the cursor at [k], the containers tallied are
    0, 1, ..., k-1 in this order, each of them was handed in, and every
    other step the run takes (flush of the buffered log, outcome line,
    [testComplete], each writer's [processResult]) was taken for exactly
    0, 1, ..., k-1 in this order, or also for [k], last, when a callback did
    not return (the prompt after a keyboard interrupt ended the run, or the
    tally raised).  When all callbacks return and every container of the
    cycle was handed in, the cursor is at [n]: all were published. *)
Theorem containerCallback_publishes_in_order (r0 : BaseRunner) (n : nat)
    (completed : list TestContainer) :
  resultsQueue r0 = replicate n None -> resultsPointer r0 = 0 -> trace r0 = [] ->
  let r := fst (deliver r0 completed) in
  let completion := snd (deliver r0 completed) in
  let k := resultsPointer r in
  k <= n
  /\ (forall i, i < k -> i ∈ map counter completed)
  /\ published Tally r = seq 0 k
  /\ ((forall st, st <> Prompt -> published st r = if enabled r0 st then seq 0 k else [])
      \/ (completion <> Returns /\ k < n /\ k ∈ map counter completed
          /\ forall st, st <> Prompt -> st <> Tally ->
               published st r = if enabled r0 st then seq 0 (S k) else []))
  /\ (completion = Returns -> (forall i, i < n -> i ∈ map counter completed) -> k = n).
Proof.
  intros Hq Hp Ht.
  destruct (deliver r0 completed) as [r comp] eqn:Hd. cbn [fst snd].
  assert (Hinv : queue_inv n (fun _ => False) r0).
  { unfold queue_inv. rewrite Hq, Hp, length_replicate.
    split; [done|]. split; [lia|]. split; [|split]; try done.
    - intros i c Hi. apply lookup_replicate in Hi as [? _]. discriminate.
    - intros i Hi. lia. }
  assert (Hup : published_upto r0 r0 (resultsPointer r0)).
  { intros st _. unfold published. rewrite Ht, Hp. simpl. by destruct (enabled r0 st). }
  assert (Hrest : cursor_rests n r0).
  { unfold cursor_rests. rewrite Hq, Hp. destruct n; [by left|by right]. }
  pose proof (deliver_spec r0 n completed _ r0 r comp (same_config_refl r0)
                Hinv Hup Hrest Hd) as Hfinal.
  apply (publication_in_order_ext r0 n _ (fun i => i ∈ map counter completed)) in Hfinal;
    [exact Hfinal|by intros i [[]|?]|by right].
Qed.

Lemma containerCallback_publishes_in_order_witness :
  (resultsQueue example_runner = replicate 3 None
   /\ resultsPointer example_runner = 0 /\ trace example_runner = [])
  /\ published Tally (fst (deliver example_runner example_completed))
     = seq 0 (resultsPointer (fst (deliver example_runner example_completed))).
Proof.
  split; [repeat split|].
  exact (proj1 (proj2 (proj2
           (containerCallback_publishes_in_order example_runner 3 example_completed
              eq_refl eq_refl eq_refl)))).
Defined.

(** The run of three containers finished in the order 2, 0, 1: nothing is
    published at the first callback, containers 0 and 1 and 2 at the
    later ones, in the order of their counters. *)
Example deliver_example :
  let r1 := fst (containerCallback example_runner (example_container 2)) in
  let r := fst (deliver example_runner example_completed) in
  trace r1 = []
  /\ snd (deliver example_runner example_completed) = Returns
  /\ resultsPointer r = 3
  /\ published Flush r = [0; 1; 2]
  /\ published TestComplete r = [0; 1; 2]
  /\ published (ProcessResult 0) r = [0; 1; 2]
  /\ published Tally r = [0; 1; 2]
  /\ (fun tally => tally PASSED) <$> (results r !! 0)
     = Some ["Test_0"; "Test_1"; "Test_2"].
Proof. vm_compute. repeat split. Qed.

(** ** The test container *)

Lemma TestContainer_call_returns_testObj (env : CallEnv) :
  snd (TestContainer_call env) = inl tt ->
  is_Some (c_testObj (fst (TestContainer_call env))).
Proof.
  unfold TestContainer_call, bind.
  destruct (prepare_block env _) as [st1 [[]|e1]]; [|done].
  destruct (import_block env st1) as [st2 [[]|e2]]; [|done].
  destruct (execute_block env st2) as [st3 [[]|e3]]; [|done].
  unfold cleanup_block, try_except, on_testObj.
  destruct (c_testObj st3) as [t|] eqn:E; [|done].
  destruct (t_cleanup (cls t) (obj t)) as [o [[]|]]; simpl; [|done|by eauto].
  unfold bind, set_kbrdInt, testObj_addOutcome, on_testObj. simpl.
  destruct (addOutcome (env_FAILS env) o BLOCKED "" None) as [o' [a|]]; simpl;
    [done|by eauto].
Qed.

Lemma on_testObj_class f st :
  testObj_cleanup_raises st -> testObj_cleanup_raises (fst (on_testObj f st)).
Proof.
  unfold testObj_cleanup_raises, on_testObj. intros H.
  destruct (c_testObj st) as [t|] eqn:E.
  - destruct (f t) as [o e]. simpl. exact H.
  - simpl. by rewrite E.
Qed.

Lemma testObj_addOutcome_keeps FAILS o : keeps_class (testObj_addOutcome FAILS o).
Proof.
  intros st H. split; [by apply on_testObj_class|].
  unfold testObj_addOutcome, on_testObj.
  destruct (c_testObj st) as [t|]; [|done].
  by destruct (addOutcome FAILS (obj t) o "" None) as [o' [a|]].
Qed.

Lemma execute_block_class env st :
  testObj_cleanup_raises st ->
  testObj_cleanup_raises (fst (execute_block env st))
  /\ snd (execute_block env st) <> inr KeyboardInterrupt.
Proof.
  intros H. unfold execute_block, try_except.
  match goal with |- context [match ?b st with _ => _ end] => set (body := b) end.
  assert (Hb : testObj_cleanup_raises (fst (body st))).
  { subst body. cbv beta.
    repeat (match goal with |- context [if ?c then _ else _] => destruct c end);
      try by apply testObj_addOutcome_keeps.
    unfold bind.
    repeat (match goal with
            | |- context [on_testObj ?f ?s] =>
                let Hc := fresh in
                pose proof (on_testObj_class f s) as Hc;
                destruct (on_testObj f s) as [? [[]|?]]; simpl in *;
                [specialize (Hc ltac:(assumption))|by auto]
            end).
    unfold detectCore. destruct (env_detectCore env) as [[]|e]; simpl; try done.
    by apply testObj_addOutcome_keeps. }
  destruct (body st) as [st' [[]|[]]]; simpl in *; [done| |].
  - unfold bind, set_kbrdInt. simpl.
    by apply (testObj_addOutcome_keeps (env_FAILS env) BLOCKED).
  - by apply (testObj_addOutcome_keeps (env_FAILS env) BLOCKED).
Qed.

(** Whatever else happens in the call, an exception from [cleanup] that is
    not a [KeyboardInterrupt] leaves [__call__]. *)
Lemma TestContainer_call_cleanup_exception_propagates (env : CallEnv) :
  cleanup_always_raises env ->
  snd (TestContainer_call env) = inr OtherException.
Proof.
  intros Hraise. unfold TestContainer_call, bind.
  set (st0 := {| c_testObj := None; c_kbrdInt := false; c_exc_info := [] |}).
  assert (H0 : testObj_cleanup_raises st0) by done.
  assert (H1 : testObj_cleanup_raises (fst (prepare_block env st0))
               /\ exists u, snd (prepare_block env st0) = inl u).
  { unfold prepare_block, try_except. destruct (env_prepare env) as [[]|]; simpl; eauto. }
  destruct (prepare_block env st0) as [st1 r1]. simpl in H1.
  destruct H1 as [H1 [u ->]].
  assert (H2 : testObj_cleanup_raises (fst (import_block env st1))
               /\ exists u, snd (import_block env st1) = inl u).
  { unfold import_block, cleanup_always_raises in *.
    destruct (env_import env) as [t| |t]; simpl; eauto. }
  destruct (import_block env st1) as [st2 r2]. simpl in H2.
  destruct H2 as [H2 [u2 ->]].
  destruct (execute_block_class env st2 H2) as [H3 Hk].
  destruct (execute_block env st2) as [st3 [u3|[]]]; simpl in *; [|done|done].
  unfold cleanup_block, try_except, on_testObj.
  unfold testObj_cleanup_raises in H3.
  destruct (c_testObj st3) as [t|]; [|done].
  specialize (H3 (obj t)). destruct (t_cleanup (cls t) (obj t)) as [o e].
  simpl in H3. by rewrite H3.
Qed.

(** The sibling block does catch: an exception raised by [execute] is
    recorded as [BLOCKED] and the container returns. *)
Example TestContainer_call_catches_execute_exception :
  let env := example_env (example_test (fun o => (o, Some OtherException)) passes_on) in
  outcome <$> (obj <$> c_testObj (fst (TestContainer_call env))) = Some [BLOCKED]
  /\ snd (TestContainer_call env) = inl tt.
Proof. vm_compute. done. Qed.

(** C5.  A runnable test whose [setup], [execute] and [validate] return and
    whose [cleanup] raises an exception other than [KeyboardInterrupt]: the
    exception leaves [TestContainer.__call__], the container does not
    return, and no [BLOCKED] outcome is recorded for it. *)
Theorem TestContainer_call_raises_from_cleanup :
  let env := example_env (example_test passes_on (fun o => (o, Some OtherException))) in
  outcome <$> (obj <$> c_testObj (fst (TestContainer_call env))) = Some [PASSED]
  /\ snd (TestContainer_call env) = inr OtherException.
Proof. vm_compute. done. Qed.

(** ** Duplicate result keys *)

Lemma od_set_absent (k v : string) (d : list (string * string)) :
  k ∉ map fst d -> od_set k v d = d ++ [(k, v)].
Proof.
  induction d as [|[k' v'] d IH]; simpl; intros Hnot; [done|].
  apply not_elem_of_cons in Hnot as [Hne Hnot].
  rewrite decide_False by (intros E; by apply Hne). f_equal. by apply IH.
Qed.

(** When neither carries a key testId, the stored details and the current
    ones are equal exactly when the test ids and the details given are. *)
Lemma od_set_testId_eq (id1 id2 : string) (d1 d2 : list (string * string)) :
  "testId" ∉ map fst d1 -> "testId" ∉ map fst d2 ->
  od_set "testId" id1 d1 = od_set "testId" id2 d2 <-> id1 = id2 /\ d1 = d2.
Proof.
  intros H1 H2. rewrite !od_set_absent by done. split.
  - intros H. apply app_inj_tail in H as [-> [= ->]]. done.
  - by intros [-> ->].
Qed.




(** A call whose arguments make the head of the method raise ends there:
    the reporter and the test object are as before, whatever was reported
    under the key. *)
Lemma reportResult_raises_before_the_check {V} (E : ReporterEnv V) (FAILS : list Outcome)
    (self : CSVPerformanceReporter) (testobj : PerfTest)
    (value : string + V) (resultKey : string) (unit : UnitArg)
    (toleranceStdDevs : option V) (resultDetails : list (string * string))
    (raised : ReportEnd) :
  check_arguments E value resultKey unit = inl raised ->
  reportResult E FAILS self testobj value resultKey unit toleranceStdDevs resultDetails
  = (self, testobj, raised).
Proof. intros H. unfold reportResult. by rewrite H. Qed.

(** So it is with an infinite value: [int(value)] raises [OverflowError]
    in [valueToDisplayString] before the key is looked up, and a second
    report of the key by the same test object adds no [BLOCKED]. *)
Example reportResult_infinite_value :
  let report := fun self v =>
    reportResult example_float_reporter_env example_FAILS self
      (example_perf_test "Perf_001" 11) (inr v) "throughput" (UnitAlias "/s") None [] in
  let first := report {| previousResultKeys := ∅; files := ∅ |} 100%float in
  let again := report (fst (fst first)) infinity in
  snd first = ResultRecorded
  /\ is_Some (previousResultKeys (fst (fst first)) !! "throughput")
  /\ again = (fst (fst first), example_perf_test "Perf_001" 11, RaisedOverflow).
Proof. vm_compute. repeat split. by eexists. Qed.

(** The scenario of the duplicate key: a second report by the same test
    object is refused, a report by another object of the same test (the
    next cycle) is recorded, a report by another test is refused. *)
Example reportResult_scenario :
  let r0 := {| previousResultKeys := ∅; files := ∅ |} in
  let first := example_report r0 (example_perf_test "Perf_001" 11) in
  let again := example_report (fst (fst first)) (example_perf_test "Perf_001" 11) in
  let next_cycle := example_report (fst (fst first)) (example_perf_test "Perf_001" 12) in
  let other_test := example_report (fst (fst first)) (example_perf_test "Perf_002" 13) in
  snd first = ResultRecorded
  /\ files (fst (fst first)) !! "/perf/summary.csv"
     = Some ["# resultKey,testId,value,unit"; "throughput,Perf_001,100,/s"]
  /\ snd again = ResultRefused
  /\ outcome (pt_obj (snd (fst again))) = [BLOCKED]
  /\ startswith "Cannot report performance result as resultKey was already used by this test"
       (getOutcomeReason (pt_obj (snd (fst again)))) = true
  /\ files (fst (fst again)) = files (fst (fst first))
  /\ snd next_cycle = ResultRecorded
  /\ outcome (pt_obj (snd (fst next_cycle))) = []
  /\ files (fst (fst next_cycle)) !! "/perf/summary.csv"
     = Some ["# resultKey,testId,value,unit"; "throughput,Perf_001,100,/s";
             "throughput,Perf_001,100,/s"]
  /\ snd other_test = ResultRefused
  /\ outcome (pt_obj (snd (fst other_test))) = [BLOCKED]
  /\ contains "must be unique across all tests and modes"
       (getOutcomeReason (pt_obj (snd (fst other_test)))) = true.
Proof. vm_compute. repeat split. Qed.

(** ** Aggregation of two single samples *)

Lemma real_div_ok (x y : R) : y <> 0%R -> num_div real_arith x y = Some (x / y)%R.
Proof. intros H. simpl. by destruct (Req_dec_T y 0). Qed.

Lemma real_sqrt_ok (x : R) : (0 <= x)%R -> num_sqrt real_arith x = Some (sqrt x).
Proof. intros H. simpl. destruct (Rlt_dec x 0); [lra|done]. Qed.

Lemma sqrt_half_square (x : R) : sqrt (x * x / 2) = (Rabs x / sqrt 2)%R.
Proof.
  rewrite sqrt_div_alt by lra. f_equal.
  replace (x * x)%R with (Rsqr x) by reflexivity. apply sqrt_Rsqr_abs.
Qed.

(** The merge of two rows of one sample each, in the real numbers. *)
Lemma merge_single_samples_real (e r : PerfResult R) :
  r_samples e = 1%Z -> r_samples r = 1%Z ->
  r_stdDev e = 0%R -> r_stdDev r = 0%R ->
  merge_result real_arith e r
  = Some {| r_resultKey := r_resultKey e; r_testId := r_testId e;
            r_value := ((r_value e + r_value r) / 2)%R; r_unit := r_unit e;
            r_biggerIsBetter := r_biggerIsBetter e;
            r_toleranceStdDevs := r_toleranceStdDevs e;
            r_samples := 2;
            r_stdDev := (Rabs (r_value e - r_value r) / sqrt 2)%R;
            r_resultDetails := r_resultDetails r |}.
Proof.
  intros He Hr Hse Hsr. unfold merge_result. rewrite He, Hr, Hse, Hsr.
  change (1 + 1)%Z with 2%Z. change (1 + 1 - 1)%Z with 1%Z. change (1 - 1)%Z with 0%Z.
  rewrite real_div_ok by (apply not_0_IZR; lia).
  cbn [mbind option_bind num_sq num_sub num_add num_mul num_of_int real_arith].
  rewrite real_div_ok by (apply not_0_IZR; lia).
  set (v1 := r_value e). set (v2 := r_value r).
  cbn [mbind option_bind].
  match goal with |- context [num_sqrt real_arith ?q] =>
    replace q with ((v1 - v2) * (v1 - v2) / 2)%R
      by (change (2 - 1)%Z with 1%Z; field) end.
  rewrite real_sqrt_ok.
  - cbn [mbind option_bind]. rewrite sqrt_half_square.
    do 2 f_equal. simpl. field.
  - apply Rmult_le_pos; [|lra]. apply Rle_0_sqr.
Qed.

(** Read in the real numbers, the two rows merge into one with 2 samples,
    the value [(v1 + v2) / 2] and the standard deviation
    [|v1 - v2| / sqrt 2]: the formulas of the code are those of the mean
    and of the sample standard deviation. *)
Lemma aggregate_two_single_samples_exact
    (v1 v2 : R) (key id1 id2 unit1 unit2 : string) (b1 b2 : bool)
    (d1 d2 rd1 rd2 : list (string * string)) :
  f_results <$>
    aggregate real_arith
      [single_sample_file real_arith key id1 v1 unit1 b1 d1 rd1;
       single_sample_file real_arith key id2 v2 unit2 b2 d2 rd2]
  = Some [ {| r_resultKey := key; r_testId := id1;
              r_value := ((v1 + v2) / 2)%R; r_unit := unit1;
              r_biggerIsBetter := b1; r_toleranceStdDevs := 0%R;
              r_samples := 2;
              r_stdDev := (Rabs (v1 - v2) / sqrt 2)%R;
              r_resultDetails := d2 |} ].
Proof.
  unfold aggregate, single_sample_file.
  cbn [aggregate_files f_results add_results add_result r_resultKey mbind option_bind].
  rewrite decide_True by done.
  rewrite merge_single_samples_real by done.
  reflexivity.
Qed.



(** ** The overall outcome, reordered and extended *)

(** X1.  The overall outcome does not depend on the order in which the
    outcomes were added: two objects whose outcome lists hold the same
    outcomes, each as often, have the same overall outcome. *)
Theorem getOutcome_permutation (self self' : ProcessUser) :
  outcome self ≡ₚ outcome self' -> getOutcome self = getOutcome self'.
Proof.
  intros Hp.
  destruct (outcome self) as [|o l] eqn:E.
  - apply Permutation_nil_l in Hp.
    rewrite (getOutcome_empty self E). symmetry. by apply getOutcome_empty.
  - assert (Hne : outcome self <> []) by (rewrite E; discriminate).
    rewrite <- E in Hp.
    apply getOutcome_unique.
    + rewrite <- Hp. by apply getOutcome_in.
    + rewrite <- Hp. apply getOutcome_least.
Qed.

Lemma getOutcome_permutation_witness :
  outcome (set_outcome [PASSED; FAILED; PASSED] (ProcessUser_init false true "/out"))
    ≡ₚ outcome (set_outcome [FAILED; PASSED; PASSED] (ProcessUser_init false true "/out"))
  /\ getOutcome (set_outcome [PASSED; FAILED; PASSED] (ProcessUser_init false true "/out"))
     = getOutcome (set_outcome [FAILED; PASSED; PASSED] (ProcessUser_init false true "/out")).
Proof.
  assert (H : outcome (set_outcome [PASSED; FAILED; PASSED] (ProcessUser_init false true "/out"))
    ≡ₚ outcome (set_outcome [FAILED; PASSED; PASSED] (ProcessUser_init false true "/out")))
    by (simpl; apply perm_swap).
  split; [exact H|]. exact (getOutcome_permutation _ _ H).
Defined.

(** X2.  Once an outcome is recorded, adding another never improves the
    overall outcome: afterwards it is the overall outcome of before or the
    outcome added, whichever comes first in the precedence order, whatever
    the reason given and whether or not the call aborts. *)
Theorem addOutcome_never_improves (FAILS : list Outcome) (self : ProcessUser)
    (o : Outcome) (reason : string) (abortOnError : option bool) :
  outcome self <> [] ->
  let self' := fst (addOutcome FAILS self o reason abortOnError) in
  PRECEDENT_index (getOutcome self') <= PRECEDENT_index (getOutcome self)
  /\ PRECEDENT_index (getOutcome self') <= PRECEDENT_index o
  /\ (getOutcome self' = getOutcome self \/ getOutcome self' = o).
Proof.
  intros Hne. cbn zeta.
  assert (H : getOutcome (fst (addOutcome FAILS self o reason abortOnError))
              = if decide (PRECEDENT_index o < PRECEDENT_index (getOutcome self))
                then o else getOutcome self).
  { rewrite <- (getOutcome_snoc self o Hne). unfold getOutcome.
    by rewrite outcome_addOutcome. }
  rewrite H. destruct (decide _); repeat split; try lia; auto.
Qed.

Lemma addOutcome_never_improves_witness :
  let self := set_outcome [PASSED] (ProcessUser_init false true "/out") in
  outcome self <> []
  /\ PRECEDENT_index (getOutcome (fst (addOutcome example_FAILS self FAILED "f" None)))
     <= PRECEDENT_index (getOutcome self).
Proof.
  assert (H : outcome (set_outcome [PASSED] (ProcessUser_init false true "/out")) <> [])
    by discriminate.
  split; [exact H|].
  exact (proj1 (addOutcome_never_improves example_FAILS _ FAILED "f" None H)).
Defined.

(** ** Starting and stopping processes *)

Lemma addOutcome_fields FAILS self o reason a :
  let self' := fst (addOutcome FAILS self o reason a) in
  processList self' = processList self /\ processCount self' = processCount self
  /\ cleanupFunctions self' = cleanupFunctions self
  /\ defaultAbortOnError self' = defaultAbortOnError self
  /\ defaultIgnoreExitStatus self' = defaultIgnoreExitStatus self
  /\ uniqueProcessKeys self' = uniqueProcessKeys self /\ output self' = output self.
Proof. unfold addOutcome. cbn [fst]. by destruct (decide _). Qed.

Lemma addOutcome_aborts FAILS self o reason (b : bool) :
  snd (addOutcome FAILS self o reason (Some b))
  = if bool_decide (o ∈ FAILS) && b
    then Some {| abort_outcome := o;
                 abort_reason := if decide (reason = "") then "" else strip reason |}
    else None.
Proof. reflexivity. Qed.

(** One call: the list, the counts and the flags afterwards. *)
Lemma startProcess_step FAILS self w c :
  let self' := fst (fst (startProcess FAILS self w (sc_command c) (sc_displayName c)
                  (sc_process c) (sc_str c) (sc_state c) (sc_timeout c) (sc_started c)
                  (sc_abortOnError c) (sc_ignoreExitStatus c))) in
  let counted := sc_completes FAILS (defaultAbortOnError self) (defaultIgnoreExitStatus self) c in
  defaultAbortOnError self' = defaultAbortOnError self
  /\ defaultIgnoreExitStatus self' = defaultIgnoreExitStatus self
  /\ processList self' = processList self ++ (if counted then [sc_process c] else [])
  /\ forall name,
       getInstanceCount self' name
       = (getInstanceCount self name
          + if counted && bool_decide (sc_name c = name) then 1 else 0)%Z.
Proof.
  unfold startProcess, sc_completes, sc_name.
  set (name := if decide (sc_displayName c = "") then basename (sc_command c)
               else sc_displayName c).
  destruct (sc_started c) as [exitStatus| |].
  - destruct (sc_state c).
    + destruct (negb (default (defaultIgnoreExitStatus self) (sc_ignoreExitStatus c))
                && negb (exitStatus =? 0)%Z) eqn:Hnz.
      * pose proof (addOutcome_fields FAILS self BLOCKED
                      (sc_str c +:+ " returned non-zero exit code " +:+ pretty exitStatus)
                      (Some (default (defaultAbortOnError self) (sc_abortOnError c))))
          as (Hl & Hc & _ & Ha & Hi & _).
        pose proof (addOutcome_aborts FAILS self BLOCKED
                      (sc_str c +:+ " returned non-zero exit code " +:+ pretty exitStatus)
                      (default (defaultAbortOnError self) (sc_abortOnError c)))
          as Hab.
        destruct (addOutcome FAILS self BLOCKED _ _) as [self1 aborted].
        cbn [fst snd default] in *. subst aborted.
        destruct (bool_decide (BLOCKED ∈ FAILS)
                  && default (defaultAbortOnError self) (sc_abortOnError c)) eqn:Hb.
        -- cbn [fst]. rewrite <- andb_assoc, Hb. cbn [negb andb].
           rewrite app_nil_r. split; [done|]. split; [done|]. split; [done|].
           intros n. unfold getInstanceCount. rewrite Hc. lia.
        -- cbn [fst]. rewrite <- andb_assoc, Hb. cbn [negb andb processList set_processes
             defaultAbortOnError defaultIgnoreExitStatus].
           rewrite Hl. split; [done|]. split; [done|]. split; [done|].
           intros n. unfold getInstanceCount at 1. cbn [processCount set_processes].
           destruct (decide (name = n)) as [<-|Hne].
           ++ rewrite lookup_insert_eq, bool_decide_eq_true_2 by done.
              unfold getInstanceCount. by rewrite Hc.
           ++ rewrite lookup_insert_ne, bool_decide_eq_false_2 by done.
              unfold getInstanceCount. rewrite Hc. lia.
      * cbn [fst negb andb processList set_processes
             defaultAbortOnError defaultIgnoreExitStatus].
        replace (negb (default (defaultIgnoreExitStatus self) (sc_ignoreExitStatus c))
                 && negb (exitStatus =? 0)%Z && bool_decide (BLOCKED ∈ FAILS)
                 && default (defaultAbortOnError self) (sc_abortOnError c)) with false
          by (by rewrite Hnz).
        cbn [negb]. split; [done|]. split; [done|]. split; [done|].
        intros n. unfold getInstanceCount at 1. cbn [processCount set_processes].
        destruct (decide (name = n)) as [<-|Hne].
        -- by rewrite lookup_insert_eq, bool_decide_eq_true_2.
        -- rewrite lookup_insert_ne, bool_decide_eq_false_2 by done.
           fold (getInstanceCount self n). lia.
    + cbn [fst negb andb processList set_processes
           defaultAbortOnError defaultIgnoreExitStatus].
      split; [done|]. split; [done|]. split; [done|].
      intros n. unfold getInstanceCount at 1. cbn [processCount set_processes].
      destruct (decide (name = n)) as [<-|Hne].
      * by rewrite lookup_insert_eq, bool_decide_eq_true_2.
      * rewrite lookup_insert_ne, bool_decide_eq_false_2 by done.
        fold (getInstanceCount self n). lia.
  - cbn [fst andb]. rewrite app_nil_r. split; [done|]. split; [done|]. split; [done|]. intros n. lia.
  - pose proof (addOutcome_fields FAILS self TIMEDOUT
                  (sc_str c +:+ " timed out after " +:+ pretty (sc_timeout c) +:+ " seconds")
                  (Some (default (defaultAbortOnError self) (sc_abortOnError c))))
      as (Hl & Hc & _ & Ha & Hi & _).
    destruct (addOutcome FAILS self TIMEDOUT _ _) as [self1 [a|]]; cbn [fst snd] in *.
    + rewrite app_nil_r. split; [done|]. split; [done|]. split; [done|].
      intros n. unfold getInstanceCount. rewrite Hc. cbn [andb]. lia.
    + destruct (process_stop _ _) as [w2 raised]. cbn [fst andb].
      rewrite app_nil_r. split; [done|]. split; [done|]. split; [done|].
      intros n. unfold getInstanceCount. rewrite Hc. lia.
Qed.

(** ** What cleanup does whatever the functions do *)

Lemma registrations_extend (self : ProcessUser) (fns : list CleanupFn) :
  exists l, cleanupFunctions (foldl addCleanupFunction self fns) = cleanupFunctions self ++ l
            /\ processList (foldl addCleanupFunction self fns) = processList self.
Proof.
  revert self. induction fns as [|f fns IH]; intros self; simpl.
  - exists []. by rewrite app_nil_r.
  - destruct (IH (addCleanupFunction self f)) as (l & -> & ->).
    unfold addCleanupFunction. destruct (_ && _); simpl.
    + exists ([f] ++ l). by rewrite app_assoc.
    + by exists l.
Qed.

Section CleanupAlways.

Variable behaviour : CleanupFn -> FnBehaviour.

(** The calls of cleanup functions only ever add to the stack and to the
    process list of the object. *)
Lemma run_cleanup_functions_extends (fns : list CleanupFn) (st : ProcessUser * World) :
  exists fs ps,
    cleanupFunctions (fst (fst (run_cleanup_functions behaviour fns st)))
    = cleanupFunctions (fst st) ++ fs
    /\ processList (fst (fst (run_cleanup_functions behaviour fns st)))
       = processList (fst st) ++ ps.
Proof.
  revert st. induction fns as [|f fns IH]; intros [self w].
  - exists [], []. simpl. by rewrite !app_nil_r.
  - cbn [run_cleanup_functions]. unfold call_fn. cbn [fst snd].
    destruct (registrations_extend self (fn_registers (behaviour f))) as (l & Hl & Hp).
    destruct (fn_result (behaviour f)).
    1, 2: match goal with |- context [run_cleanup_functions _ _ ?s] =>
            destruct (IH s) as (fs & ps & -> & ->) end;
          cbn [fst cleanupFunctions processList set_processes]; rewrite Hl, Hp;
          exists (l ++ fs), (fn_starts (behaviour f) ++ ps); by rewrite !app_assoc.
    cbn [fst cleanupFunctions processList set_processes]. rewrite Hl, Hp.
    by exists l, (fn_starts (behaviour f)).
Qed.

(** The loop is left early exactly at the first function that is
    interrupted. *)
Lemma run_cleanup_functions_interrupted (fns : list CleanupFn) (st : ProcessUser * World) :
  snd (run_cleanup_functions behaviour fns st) = true ->
  exists k f,
    fns !! k = Some f /\ fn_result (behaviour f) = FnRaisesInterrupt
    /\ Forall (fun g => fn_result (behaviour g) <> FnRaisesInterrupt) (take k fns)
    /\ events (snd (fst (run_cleanup_functions behaviour fns st)))
       = events (snd st) ++ map CalledFn (take (S k) fns).
Proof.
  revert st. induction fns as [|f fns IH]; intros [self w]; [done|].
  cbn [run_cleanup_functions]. unfold call_fn. cbn [fst snd].
  destruct (fn_result (behaviour f)) eqn:Hr.
  1, 2: intros Hi; apply IH in Hi as (k & g & Hk & Hg & Hall & Hev);
        exists (S k), g; cbn [fst snd events] in *;
        split; [done|]; split; [done|]; split;
        [simpl; constructor; [congruence|done]| rewrite Hev, <- app_assoc; done].
  intros _. exists 0, f. cbn [fst snd events]. repeat split; try done.
Qed.

(** [cleanup] spelled out: the loop over the stack as it was at the
    start, then the [finally] block on the process list as the loop left
    it, which holds the processes of the start and those the functions
    started. *)
Lemma cleanup_unfold (self : ProcessUser) (w : World) :
  exists self1 w1 i fs ps,
    run_cleanup_functions behaviour (rev (cleanupFunctions self)) (self, w) = (self1, w1, i)
    /\ cleanupFunctions self1 = cleanupFunctions self ++ fs
    /\ processList self1 = processList self ++ ps
    /\ cleanup behaviour (self, w)
       = (set_processes [] ∅ (if i then self1 else set_cleanupFunctions [] self1),
          stop_processes (processList self ++ ps) w1, i).
Proof.
  unfold cleanup. cbn [fst].
  destruct (run_cleanup_functions_extends (rev (cleanupFunctions self)) (self, w))
    as (fs & ps & Hfs & Hps).
  destruct (run_cleanup_functions behaviour (rev (cleanupFunctions self)) (self, w))
    as [[self1 w1] i].
  cbn [fst snd] in *. exists self1, w1, i, fs, ps.
  split; [done|]. split; [done|]. split; [done|].
  rewrite <- Hps. by destruct i.
Qed.

(** Every process of a list is stopped by the loop of the [finally] block
    unless [stop()] was called on it and raised. *)
Lemma stop_processes_each (ps : list Process) (w : World) :
  Forall (fun p => proc_id p ∉ running (stop_processes ps w)
                   \/ (CalledStop p ∈ events (stop_processes ps w)
                       /\ proc_stop_raises p = true)) ps.
Proof.
  destruct (stop_processes_stopped ps w) as (stops & Hev & _ & Hall).
  eapply Forall_impl; [exact Hall|]. simpl. intros p [Hp|[Hp Hr]]; [by left|right].
  split; [|done]. rewrite Hev. apply elem_of_app. right.
  apply list_elem_of_fmap. by exists p.
Qed.

(** X3.  Whatever the cleanup functions do, and whether [cleanup] returns
    or is interrupted, its [finally] block empties the process list and
    the process counts, and every process that was in the list is not
    running afterwards unless [stop()] was called on it and raised. *)
Theorem cleanup_always_stops_processes (self : ProcessUser) (w : World) :
  let self' := fst (fst (cleanup behaviour (self, w))) in
  let w' := snd (fst (cleanup behaviour (self, w))) in
  processList self' = [] /\ processCount self' = ∅
  /\ Forall (fun p => proc_id p ∉ running w'
                      \/ (CalledStop p ∈ events w' /\ proc_stop_raises p = true))
            (processList self).
Proof.
  destruct (cleanup_unfold self w) as (self1 & w1 & i & fs & ps & _ & _ & _ & ->).
  cbn [fst snd]. split; [done|]. split; [done|].
  pose proof (stop_processes_each (processList self ++ ps) w1) as Hall.
  by apply Forall_app in Hall as [Hall _].
Qed.

(** X4.  When [cleanup] raises, a cleanup function was interrupted: the
    functions were called most recently added first up to that one and
    none after it, only calls of [stop()] on processes follow, and the
    stack of cleanup functions still holds what it held. *)
Theorem cleanup_interrupted_keeps_stack (self : ProcessUser) (w : World) :
  snd (cleanup behaviour (self, w)) = true ->
  let self' := fst (fst (cleanup behaviour (self, w))) in
  let w' := snd (fst (cleanup behaviour (self, w))) in
  exists k f fs stops,
    rev (cleanupFunctions self) !! k = Some f
    /\ fn_result (behaviour f) = FnRaisesInterrupt
    /\ Forall (fun g => fn_result (behaviour g) <> FnRaisesInterrupt)
              (take k (rev (cleanupFunctions self)))
    /\ events w' = events w ++ map CalledFn (take (S k) (rev (cleanupFunctions self)))
                            ++ map CalledStop stops
    /\ cleanupFunctions self' = cleanupFunctions self ++ fs.
Proof.
  destruct (cleanup_unfold self w) as (self1 & w1 & i & fs & ps & Hrun & Hfs & _ & ->).
  cbn [fst snd]. intros ->.
  pose proof (run_cleanup_functions_interrupted (rev (cleanupFunctions self)) (self, w)) as Hi.
  rewrite Hrun in Hi. cbn [fst snd] in Hi.
  destruct (Hi eq_refl) as (k & f & Hk & Hf & Hall & Hev).
  destruct (stop_processes_stopped (processList self ++ ps) w1) as (stops & Hstop & _).
  exists k, f, fs, stops. rewrite Hstop, Hev, <- app_assoc. done.
Qed.

End CleanupAlways.

Lemma cleanup_interrupted_keeps_stack_witness :
  snd (cleanup cleanup_interrupted_behaviour (cleanup_example_self, cleanup_example_world))
  = true
  /\ exists k f fs stops,
       rev (cleanupFunctions cleanup_example_self) !! k = Some f
       /\ fn_result (cleanup_interrupted_behaviour f) = FnRaisesInterrupt
       /\ Forall (fun g => fn_result (cleanup_interrupted_behaviour g) <> FnRaisesInterrupt)
                 (take k (rev (cleanupFunctions cleanup_example_self)))
       /\ events (snd (fst (cleanup cleanup_interrupted_behaviour
                              (cleanup_example_self, cleanup_example_world))))
          = events cleanup_example_world
            ++ map CalledFn (take (S k) (rev (cleanupFunctions cleanup_example_self)))
            ++ map CalledStop stops
       /\ cleanupFunctions (fst (fst (cleanup cleanup_interrupted_behaviour
                                        (cleanup_example_self, cleanup_example_world))))
          = cleanupFunctions cleanup_example_self ++ fs.
Proof.
  assert (H : snd (cleanup cleanup_interrupted_behaviour
                     (cleanup_example_self, cleanup_example_world)) = true)
    by reflexivity.
  split; [exact H|].
  exact (cleanup_interrupted_keeps_stack cleanup_interrupted_behaviour
           cleanup_example_self cleanup_example_world H).
Defined.

(** ** Processes from start to cleanup *)

Lemma startProcesses_general FAILS self w calls :
  let self' := fst (startProcesses FAILS (self, w) calls) in
  let completes := sc_completes FAILS (defaultAbortOnError self) (defaultIgnoreExitStatus self) in
  defaultAbortOnError self' = defaultAbortOnError self
  /\ defaultIgnoreExitStatus self' = defaultIgnoreExitStatus self
  /\ processList self' = processList self ++ map sc_process (List.filter completes calls)
  /\ forall name,
       getInstanceCount self' name
       = (getInstanceCount self name
          + Z.of_nat (length (List.filter
                                (fun c => completes c && bool_decide (sc_name c = name)) calls)))%Z.
Proof.
  revert self w. induction calls as [|c calls IH]; intros self w.
  - cbn. rewrite app_nil_r. repeat split; try done. intros; lia.
  - unfold startProcesses. cbn [foldl fst snd].
    pose proof (startProcess_step FAILS self w c) as (Ha & Hi & Hl & Hc).
    destruct (startProcess FAILS self w _ _ _ _ _ _ _ _ _) as [[self1 w1] r].
    cbn [fst snd] in *.
    specialize (IH self1 w1) as (Ha' & Hi' & Hl' & Hc'). unfold startProcesses in *.
    rewrite Ha, Hi in *.
    split; [done|]. split; [done|]. split.
    + rewrite Hl', Hl, <- app_assoc. f_equal. cbn [List.filter].
      by destruct (sc_completes _ _ _ c).
    + intros name. rewrite Hc', Hc. cbn [List.filter].
      destruct (sc_completes _ _ _ c && bool_decide (sc_name c = name)); cbn [length]; lia.
Qed.

Lemma startProcess_counts_completed_calls_aux FAILS a i out w calls :
  processList (fst (startProcesses FAILS (ProcessUser_init a i out, w) calls))
  = map sc_process (List.filter (sc_completes FAILS a i) calls).
Proof.
  by pose proof (startProcesses_general FAILS (ProcessUser_init a i out) w calls)
    as (_ & _ & Hl & _).
Qed.

(** X5.  After a sequence of [startProcess] calls on a fresh object, the
    process list holds the handles of the calls that went through to the
    end ([start()] returned, and the exit status of a foreground process
    raised no abort), in the order of the calls, and
    [getInstanceCount(name)] is the number of those calls whose logical
    name is [name]: the display name, or the basename of the command when
    none was given.  A call that ends in [ProcessError], in a timeout or
    in an abort is not counted. *)
Theorem startProcess_counts_completed_calls (FAILS : list Outcome) (a i : bool)
    (out : string) (w : World) (calls : list StartCall) :
  let self' := fst (startProcesses FAILS (ProcessUser_init a i out, w) calls) in
  processList self' = map sc_process (List.filter (sc_completes FAILS a i) calls)
  /\ forall name,
       getInstanceCount self' name
       = Z.of_nat (length (List.filter
                             (fun c => sc_completes FAILS a i c
                                       && bool_decide (sc_name c = name)) calls)).
Proof.
  pose proof (startProcesses_general FAILS (ProcessUser_init a i out) w calls)
    as (_ & _ & Hl & Hc).
  cbn zeta in *. split; [exact Hl|]. intros name. rewrite Hc.
  unfold getInstanceCount at 1. cbn [processCount ProcessUser_init].
  rewrite lookup_empty. cbn. lia.
Qed.

(** X6.  Processes started through [startProcess] on a fresh object and
    left to [cleanup]: every process whose call went through to the end is
    not running afterwards unless [stop()] was called on it and raised,
    and [getInstanceCount] is 0 for every name. *)
Theorem cleanup_stops_started_processes (behaviour : CleanupFn -> FnBehaviour)
    (FAILS : list Outcome) (a i : bool) (out : string) (w : World)
    (calls : list StartCall) :
  let st := startProcesses FAILS (ProcessUser_init a i out, w) calls in
  let self' := fst (fst (cleanup behaviour st)) in
  let w' := snd (fst (cleanup behaviour st)) in
  (forall name, getInstanceCount self' name = 0%Z)
  /\ Forall (fun c => proc_id (sc_process c) ∉ running w'
                      \/ (CalledStop (sc_process c) ∈ events w'
                          /\ proc_stop_raises (sc_process c) = true))
            (List.filter (sc_completes FAILS a i) calls).
Proof.
  pose proof (startProcess_counts_completed_calls_aux FAILS a i out w calls) as Hl.
  destruct (startProcesses FAILS (ProcessUser_init a i out, w) calls) as [self1 w1].
  cbn [fst] in Hl. cbn zeta.
  destruct (cleanup_unfold behaviour self1 w1) as (self2 & w2 & b & fs & ps & _ & _ & _ & ->).
  cbn [fst snd]. split; [done|].
  pose proof (stop_processes_each (processList self1 ++ ps) w2) as Hall.
  apply Forall_app in Hall as [Hall _].
  rewrite Forall_forall in Hall. apply Forall_forall. intros c Hc.
  apply Hall. rewrite Hl. apply list_elem_of_fmap. by exists c.
Qed.

Lemma stop_processes_skips (p : Process) (ps : list Process) (w : World) :
  proc_id p ∉ running w ->
  exists stops, events (stop_processes ps w) = events w ++ map CalledStop stops
                /\ p ∉ stops.
Proof.
  revert w. induction ps as [|q ps IH]; intros w Hp.
  - exists []. cbn. rewrite app_nil_r. split; [done|]. apply not_elem_of_nil.
  - cbn [stop_processes].
    destruct (bool_decide (proc_id q ∈ running w)) eqn:Hq.
    + apply bool_decide_eq_true_1 in Hq.
      destruct (IH (fst (process_stop q w))) as (stops & Hev & Hn).
      { cbn. destruct (proc_stop_raises q); [done|].
        intros [H _]%elem_of_difference. done. }
      exists (q :: stops). rewrite Hev. cbn. rewrite <- app_assoc.
      split; [done|]. apply not_elem_of_cons. split; [|done].
      intros ->. done.
    + by apply IH.
Qed.

Lemma run_cleanup_functions_no_restart (behaviour : CleanupFn -> FnBehaviour)
    (x : nat) (fns : list CleanupFn) (st : ProcessUser * World) :
  Forall (fun f => forall s, x ∉ s -> x ∉ fn_running (behaviour f) s) fns ->
  x ∉ running (snd st) ->
  x ∉ running (snd (fst (run_cleanup_functions behaviour fns st))).
Proof.
  intros H. revert st. induction H as [|f fns Hf _ IH]; intros [self w] Hx; [done|].
  cbn [run_cleanup_functions]. unfold call_fn. cbn [fst snd] in *.
  destruct (fn_result (behaviour f)).
  1, 2: apply IH; cbn; by apply Hf.
  cbn. by apply Hf.
Qed.

(** X7.  A process that [stopProcess] has stopped is not stopped a second
    time by [cleanup]: when [stop()] does not raise on it, [stopProcess]
    raises nothing and leaves it not running, and a [cleanup] whose
    functions do not start it again makes no call of [stop()] on it. *)
Theorem stopProcess_then_cleanup_stops_once (behaviour : CleanupFn -> FnBehaviour)
    (self : ProcessUser) (w : World) (p : Process) (process_repr : string)
    (abortOnError : option bool) :
  proc_stop_raises p = false ->
  Forall (fun f => forall s, proc_id p ∉ s -> proc_id p ∉ fn_running (behaviour f) s)
         (cleanupFunctions self) ->
  let w1 := fst (stopProcess self w p process_repr abortOnError) in
  let w2 := snd (fst (cleanup behaviour (self, w1))) in
  snd (stopProcess self w p process_repr abortOnError) = None
  /\ (proc_id p ∉ running w1)
  /\ exists evs, events w2 = events w1 ++ evs /\ CalledStop p ∉ evs.
Proof.
  intros Hp Hfns. cbn zeta.
  assert (Hstop : snd (stopProcess self w p process_repr abortOnError) = None
                  /\ proc_id p ∉ running (fst (stopProcess self w p process_repr abortOnError))).
  { unfold stopProcess. destruct (bool_decide (proc_id p ∈ running w)) eqn:Hr.
    - unfold process_stop. rewrite Hp. cbn. split; [done|].
      intros [_ H]%elem_of_difference. by apply H, elem_of_singleton.
    - apply bool_decide_eq_false_1 in Hr. by split. }
  destruct Hstop as [Hnone Hnot]. split; [done|]. split; [done|].
  set (w1 := fst (stopProcess self w p process_repr abortOnError)) in *.
  destruct (cleanup_unfold behaviour self w1) as (self1 & w1' & i & fs & ps & Hrun & _ & _ & ->).
  cbn [fst snd].
  destruct (run_cleanup_functions_events behaviour (rev (cleanupFunctions self)) (self, w1))
    as (k & Hev & _).
  pose proof (run_cleanup_functions_no_restart behaviour (proc_id p)
                (rev (cleanupFunctions self)) (self, w1)) as Hkeep.
  rewrite Hrun in Hev, Hkeep. cbn [fst snd] in Hev, Hkeep.
  destruct (stop_processes_skips p (processList self ++ ps) w1') as (stops & Hs & Hn).
  { apply Hkeep; [|done]. apply Forall_forall. intros f Hf.
    rewrite Forall_forall in Hfns. apply Hfns.
    apply list_elem_of_In. apply in_rev. by apply list_elem_of_In. }
  exists (map CalledFn (take k (rev (cleanupFunctions self))) ++ map CalledStop stops).
  rewrite Hs, Hev, <- app_assoc. split; [done|].
  intros [H|H]%elem_of_app.
  - apply list_elem_of_fmap in H as (f & Hf & _). discriminate.
  - apply list_elem_of_fmap in H as (q & [= ->] & Hq). done.
Qed.

Lemma stopProcess_then_cleanup_stops_once_witness :
  let p := {| proc_id := 7; proc_stop_raises := false |} in
  let w1 := fst (stopProcess cleanup_example_self cleanup_example_world p "p" None) in
  proc_stop_raises p = false
  /\ snd (stopProcess cleanup_example_self cleanup_example_world p "p" None) = None
  /\ (proc_id p ∉ running w1).
Proof.
  assert (Hf : Forall (fun f => forall s : gset nat,
                         7 ∉ s -> 7 ∉ fn_running (cleanup_example_behaviour f) s)
                 (cleanupFunctions cleanup_example_self)).
  { apply Forall_forall. intros f _ s Hs. exact Hs. }
  split; [reflexivity|].
  pose proof (stopProcess_then_cleanup_stops_once cleanup_example_behaviour
                cleanup_example_self cleanup_example_world
                {| proc_id := 7; proc_stop_raises := false |} "p" None eq_refl Hf) as H.
  split; [exact (proj1 H)|exact (proj1 (proj2 H))].
Defined.

(** ** Names for stdout and stderr across keys *)

Lemma string_app_length (s t : string) :
  String.length (s +:+ t) = String.length s + String.length t.
Proof. induction s as [|c s IH]; simpl; [done|]. by rewrite IH. Qed.

Lemma string_app_inj_r (t s1 s2 : string) : s1 +:+ t = s2 +:+ t -> s1 = s2.
Proof.
  revert s2. induction s1 as [|c s1 IH]; intros [|d s2] H.
  - done.
  - apply (f_equal String.length) in H. rewrite !string_app_length in H.
    simpl in H. lia.
  - apply (f_equal String.length) in H. rewrite !string_app_length in H.
    simpl in H. lia.
  - change (String c (s1 +:+ t) = String d (s2 +:+ t)) in H.
    injection H as -> H. f_equal. by apply IH.
Qed.

Lemma allocateUniqueStdOutErr_next (self : ProcessUser) (key key' : string) :
  next_number (fst (allocateUniqueStdOutErr self key)) key'
  = (next_number self key' + if decide (key = key') then 1 else 0)%Z.
Proof.
  unfold next_number. destruct (decide (key = key')) as [<-|Hne].
  - by rewrite allocateUniqueStdOutErr_counter.
  - rewrite allocateUniqueStdOutErr_other_key by done. lia.
Qed.

Lemma allocateUniqueStdOutErr_names (self : ProcessUser) (key : string) :
  snd (allocateUniqueStdOutErr self key)
  = (os_path_join (output self) (numbered key (next_number self key) ".out"),
     os_path_join (output self) (numbered key (next_number self key) ".err"))
  /\ output (fst (allocateUniqueStdOutErr self key)) = output self.
Proof. done. Qed.

Lemma allocations_lookup (self : ProcessUser) (keys : list string) (j : nat) (key : string) :
  keys !! j = Some key ->
  allocations self keys !! j
  = Some (let n := (next_number self key
                    + Z.of_nat (length (List.filter (fun k => bool_decide (k = key))
                                                    (take j keys))))%Z in
          (os_path_join (output self) (numbered key n ".out"),
           os_path_join (output self) (numbered key n ".err"))).
Proof.
  revert self j. induction keys as [|k keys IH]; intros self j Hj; [done|].
  destruct j as [|j].
  - injection Hj as ->. cbn [allocations lookup list_lookup take List.filter length].
    destruct (allocateUniqueStdOutErr_names self key) as [-> _].
    cbn zeta. by rewrite Z.add_0_r.
  - cbn [lookup list_lookup] in Hj.
    cbn [allocations take List.filter]. change ((?x :: ?l) !! S j) with (l !! j).
    rewrite (IH _ j Hj). cbn zeta.
    destruct (allocateUniqueStdOutErr_names self k) as [_ ->].
    rewrite allocateUniqueStdOutErr_next.
    destruct (decide (k = key)) as [->|Hne].
    + rewrite bool_decide_eq_true_2 by done. cbn [length].
      do 4 f_equal; lia.
    + rewrite bool_decide_eq_false_2 by done. do 4 f_equal; lia.
Qed.

Lemma startswith_slash_numbered (key : string) (n : Z) (ext : string) :
  startswith "/" ext = false ->
  startswith "/" (numbered key n ext) = startswith "/" key.
Proof.
  intros He. unfold numbered. destruct key as [|c key]; [|done].
  cbn. by destruct (0 <? n)%Z.
Qed.

Lemma numbered_inj (key : string) (n m : Z) (ext : string) :
  (0 <= n)%Z -> (0 <= m)%Z -> numbered key n ext = numbered key m ext -> n = m.
Proof.
  unfold numbered. intros Hn Hm H.
  apply (inj (String.append key)) in H. apply string_app_inj_r in H.
  destruct (0 <? n)%Z eqn:En, (0 <? m)%Z eqn:Em; try discriminate.
  - apply (inj (String.append ".")) in H. by apply pretty_Z_inj in H.
  - apply Z.ltb_ge in En, Em. lia.
Qed.

Lemma os_path_join_inj (a b1 b2 : string) :
  startswith "/" b1 = startswith "/" b2 ->
  os_path_join a b1 = os_path_join a b2 -> b1 = b2.
Proof.
  unfold os_path_join. intros <-.
  destruct (startswith "/" b1); [done|].
  destruct (decide (a = "")); [done|].
  destruct (endswith "/" a).
  - apply (inj (String.append a)).
  - intros H. apply (inj (String.append a)) in H. by injection H.
Qed.

(** X8.  Two calls of [allocateUniqueStdOutErr] with the same key, in any
    sequence of calls for any keys on a fresh object, return different
    names for stdout and different names for stderr. *)
Theorem allocateUniqueStdOutErr_same_key_distinct (abortOnError ignoreExitStatus : bool)
    (out : string) (keys : list string) (i j : nat) (key : string)
    (ni nj : string * string) :
  i < j -> keys !! i = Some key -> keys !! j = Some key ->
  allocations (ProcessUser_init abortOnError ignoreExitStatus out) keys !! i = Some ni ->
  allocations (ProcessUser_init abortOnError ignoreExitStatus out) keys !! j = Some nj ->
  fst ni <> fst nj /\ snd ni <> snd nj.
Proof.
  intros Hij Hi Hj.
  rewrite (allocations_lookup _ keys i key Hi), (allocations_lookup _ keys j key Hj).
  cbn zeta. change (next_number (ProcessUser_init _ _ _) key) with 0%Z.
  cbn [output ProcessUser_init].
  set (count := fun n => Z.of_nat (length (List.filter (fun k => bool_decide (k = key))
                                                    (take n keys)))).
  fold (count i) (count j).
  assert (Hlt : (count i < count j)%Z).
  { unfold count. rewrite <- (take_drop i (take j keys)).
    rewrite take_take, Nat.min_l by lia.
    rewrite List.filter_app, length_app.
    rewrite (drop_S (take j keys) key i).
    2: { rewrite lookup_take_lt by done. done. }
    cbn [List.filter]. rewrite bool_decide_eq_true_2 by done. cbn [length]. lia. }
  assert (H0 : (0 <= count i)%Z) by (unfold count; lia).
  intros [= <-] [= <-]. cbn [fst snd].
  split; intros H; apply os_path_join_inj in H;
    try (rewrite !startswith_slash_numbered; done);
    apply numbered_inj in H; lia.
Qed.

Lemma allocateUniqueStdOutErr_same_key_distinct_witness :
  let keys := ["a"; "b"; "a"] in
  let names := allocations (ProcessUser_init false true "/out") keys in
  0 < 2 /\ keys !! 0 = Some "a" /\ keys !! 2 = Some "a"
  /\ names !! 0 = Some ("/out/a.out", "/out/a.err")
  /\ names !! 2 = Some ("/out/a.1.out", "/out/a.1.err")
  /\ "/out/a.out" <> "/out/a.1.out" /\ "/out/a.err" <> "/out/a.1.err".
Proof.
  assert (H0 : allocations (ProcessUser_init false true "/out") ["a"; "b"; "a"] !! 0
               = Some ("/out/a.out", "/out/a.err")) by reflexivity.
  assert (H2 : allocations (ProcessUser_init false true "/out") ["a"; "b"; "a"] !! 2
               = Some ("/out/a.1.out", "/out/a.1.err")) by reflexivity.
  split; [lia|]. split; [reflexivity|]. split; [reflexivity|].
  split; [exact H0|]. split; [exact H2|].
  exact (allocateUniqueStdOutErr_same_key_distinct false true "/out" ["a"; "b"; "a"] 0 2 "a"
           _ _ ltac:(lia) eq_refl eq_refl H0 H2).
Defined.

(** X9.  The names are unique for each key only: on a fresh object, the
    first call for the key [key.1] returns the names that the second call
    for [key] returned. *)
Theorem allocateUniqueStdOutErr_keys_can_collide (abortOnError ignoreExitStatus : bool)
    (out key : string) :
  let s0 := ProcessUser_init abortOnError ignoreExitStatus out in
  let r1 := allocateUniqueStdOutErr s0 key in
  let r2 := allocateUniqueStdOutErr (fst r1) key in
  let r3 := allocateUniqueStdOutErr (fst r2) (key +:+ ".1") in
  snd r3 = snd r2.
Proof.
  cbn zeta.
  assert (Hne : key <> key +:+ ".1").
  { intros H. apply (f_equal String.length) in H. rewrite string_app_length in H.
    simpl in H. lia. }
  rewrite !(proj1 (allocateUniqueStdOutErr_names _ _)).
  rewrite !(proj2 (allocateUniqueStdOutErr_names _ _)).
  rewrite !allocateUniqueStdOutErr_next.
  rewrite !(decide_False (P := key = key +:+ ".1")) by done.
  rewrite !(decide_True (P := key = key)) by done.
  change (next_number (ProcessUser_init _ _ _) ?k) with 0%Z.
  unfold numbered.
  change (0 <? 0 + 0 + 0)%Z with false. change (0 <? 0 + 1)%Z with true.
  change (pretty (0 + 1)%Z) with "1". cbv iota.
  assert (Happ : forall e, (key +:+ ".1") +:+ "" +:+ e = key +:+ ("." +:+ "1") +:+ e).
  { intros e. clear. induction key as [|c k IH]; [done|].
    change (String c ((k +:+ ".1") +:+ "" +:+ e) = String c (k +:+ ("." +:+ "1") +:+ e)).
    by rewrite IH. }
  by rewrite !Happ.
Qed.

(** ** Logging the contents of a file *)

Section LogFileContentsFacts.

Variable re_search : string -> string -> option string.

Lemma log_lines_unlimited includes excludes maxLines tail lines tolog :
  (maxLines <= 0)%Z ->
  log_lines re_search includes excludes maxLines tail lines tolog
  = tolog ++ kept_lines re_search includes excludes lines.
Proof.
  intros Hm. revert tolog. induction lines as [|l lines IH]; intros tolog.
  - cbn. by rewrite app_nil_r.
  - cbn [log_lines kept_lines omap list_omap]. fold (kept_lines re_search includes excludes lines).
    destruct (log_line re_search includes excludes l) as [l'|]; [|apply IH].
    cbn zeta. rewrite length_app. cbn [length].
    destruct (maxLines =? 0)%Z eqn:E0; cbn [negb].
    + rewrite IH, <- app_assoc. done.
    + replace (Z.of_nat (length tolog + 1) =? maxLines)%Z with false
        by (symmetry; apply Z.eqb_neq; lia).
      replace (Z.of_nat (length tolog + 1) =? maxLines + 1)%Z with false
        by (symmetry; apply Z.eqb_neq; apply Z.eqb_neq in E0; lia).
      rewrite !andb_false_r. rewrite IH, <- app_assoc. done.
Qed.

Lemma log_lines_head includes excludes (n : nat) lines tolog :
  length tolog < n ->
  log_lines re_search includes excludes (Z.of_nat n) false lines tolog
  = let all := tolog ++ kept_lines re_search includes excludes lines in
    if (length all <? n)%nat then all else take n all ++ ["..."].
Proof.
  revert tolog. induction lines as [|l lines IH]; intros tolog Hlen.
  - cbn [log_lines kept_lines omap list_omap]. rewrite app_nil_r. cbn zeta.
    apply Nat.ltb_lt in Hlen. by rewrite Hlen.
  - cbn [log_lines kept_lines omap list_omap]. fold (kept_lines re_search includes excludes lines).
    destruct (log_line re_search includes excludes l) as [l'|]; [|by apply IH].
    cbn zeta. rewrite length_app. cbn [length andb negb].
    replace (Z.of_nat n =? 0)%Z with false by (symmetry; apply Z.eqb_neq; lia).
    cbn [negb].
    destruct (Z.of_nat (length tolog + 1) =? Z.of_nat n)%Z eqn:E.
    + apply Z.eqb_eq in E. assert (Hn : n = length (tolog ++ [l'])).
      { rewrite length_app. cbn. lia. }
      replace (length (tolog ++ l' :: kept_lines re_search includes excludes lines) <? n)%nat with false.
      2: { symmetry. apply Nat.ltb_ge. rewrite length_app. cbn. lia. }
      replace (tolog ++ l' :: kept_lines re_search includes excludes lines)
        with ((tolog ++ [l']) ++ kept_lines re_search includes excludes lines)
        by (by rewrite <- app_assoc).
      rewrite Hn at 1. by rewrite take_app_length.
    + apply Z.eqb_neq in E. rewrite IH.
      2: { rewrite length_app. cbn. lia. }
      cbn zeta. by rewrite <- app_assoc.
Qed.

Lemma log_lines_tail includes excludes (n : nat) lines tolog :
  0 < n -> length tolog <= n ->
  log_lines re_search includes excludes (Z.of_nat n) true lines tolog
  = let all := tolog ++ kept_lines re_search includes excludes lines in
    drop (length all - n) all.
Proof.
  intros Hn. revert tolog. induction lines as [|l lines IH]; intros tolog Hlen.
  - cbn. rewrite app_nil_r. replace (length tolog - n) with 0 by lia. done.
  - cbn [log_lines kept_lines omap list_omap]. fold (kept_lines re_search includes excludes lines).
    destruct (log_line re_search includes excludes l) as [l'|]; [|by apply IH].
    cbn zeta. rewrite length_app. cbn [length andb negb].
    replace (Z.of_nat n =? 0)%Z with false by (symmetry; apply Z.eqb_neq; lia).
    cbn [negb].
    destruct (Z.of_nat (length tolog + 1) =? Z.of_nat n + 1)%Z eqn:E.
    + apply Z.eqb_eq in E. assert (length tolog = n) as Hl by lia.
      rewrite IH.
      2: { rewrite length_drop, length_app. cbn. lia. }
      cbn zeta.
      replace (tolog ++ l' :: kept_lines re_search includes excludes lines)
        with ((tolog ++ [l']) ++ kept_lines re_search includes excludes lines)
        by (by rewrite <- app_assoc).
      rewrite <- (drop_app_le (tolog ++ [l']) _ 1) by (rewrite length_app; cbn; lia).
      rewrite drop_drop. f_equal.
      rewrite length_drop, !length_app. cbn [length]. lia.
    + apply Z.eqb_neq in E. rewrite IH.
      2: { rewrite length_app. cbn. lia. }
      cbn zeta. by rewrite <- app_assoc.
Qed.

(** X10.  [logFileContents] on a file that opens: with [maxLines] zero (or
    negative) every line that passes the filters is logged; with [tail]
    the last [maxLines] of them; otherwise all of them when they are fewer
    than [maxLines], and else the first [maxLines] followed by a line of
    three dots, also when there are exactly [maxLines].  The value
    returned says whether a line passes the filters. *)
Theorem logFileContents_limits (path : string) (lines : list string)
    (includes excludes : list string) (maxLines : Z) (tail : bool) :
  path <> "" ->
  let all := kept_lines re_search includes excludes lines in
  let n := Z.to_nat maxLines in
  logFileContents re_search path (Some lines) includes excludes maxLines tail
  = (negb (bool_decide (all = [])),
     if (maxLines <=? 0)%Z then all
     else if tail then drop (length all - n) all
     else if (length all <? n)%nat then all
     else take n all ++ ["..."]).
Proof.
  intros Hp. cbn zeta. unfold logFileContents.
  rewrite bool_decide_eq_false_2 by done.
  set (all := kept_lines re_search includes excludes lines).
  assert (Hlog : log_lines re_search includes excludes maxLines tail lines []
                 = if (maxLines <=? 0)%Z then all
                   else if tail then drop (length all - Z.to_nat maxLines) all
                   else if (length all <? Z.to_nat maxLines)%nat then all
                   else take (Z.to_nat maxLines) all ++ ["..."]).
  { destruct (maxLines <=? 0)%Z eqn:E.
    - apply Z.leb_le in E. by rewrite log_lines_unlimited.
    - apply Z.leb_gt in E. rewrite <- (Z2Nat.id maxLines) at 1 by lia.
      destruct tail.
      + rewrite log_lines_tail; [done|lia|cbn; lia].
      + rewrite log_lines_head; [done|cbn; lia]. }
  rewrite Hlog.
  destruct (maxLines <=? 0)%Z eqn:E.
  - destruct all; done.
  - apply Z.leb_gt in E. destruct tail.
    + destruct all as [|a all']; [done|].
      rewrite (bool_decide_eq_false_2 (a :: all' = [])) by done.
      rewrite bool_decide_eq_false_2; [done|].
      intros H. apply (f_equal length) in H. rewrite length_drop in H.
      cbn in H. lia.
    + destruct (length all <? Z.to_nat maxLines)%nat eqn:El.
      * destruct all; done.
      * apply Nat.ltb_ge in El.
        destruct all as [|a all']; [cbn in El; lia|].
        rewrite (bool_decide_eq_false_2 (a :: all' = [])) by done.
        rewrite bool_decide_eq_false_2; [done|].
        intros H. apply (f_equal length) in H. rewrite length_app in H.
        cbn in H. lia.
Qed.

End LogFileContentsFacts.

Lemma logFileContents_limits_witness :
  "run.log" <> ""
  /\ logFileContents example_re_search "run.log" (Some example_log) [] ["debug"] 2 false
     = (true, ["starting"; "connected"; "..."]).
Proof.
  assert (H : "run.log" <> "") by discriminate.
  split; [exact H|].
  exact (logFileContents_limits example_re_search "run.log" example_log [] ["debug"] 2 false H).
Defined.

(** ** Purging a directory and looking for core files *)

(** Induction on the nodes of a tree, through the entries of its
    directories. *)
Lemma Node_ind' (P : Node -> Prop) :
  (forall b, P (File b)) -> (forall b, P (Link b)) -> P Special ->
  (forall b sub, Forall (fun e => P (snd e)) sub -> P (Dir b sub)) ->
  forall n, P n.
Proof.
  intros HF HL HS HD.
  fix IH 1. intros [b|b|b sub|]; [apply HF|apply HL| |done].
  apply HD. induction sub as [|[name n] sub IHsub]; constructor; [apply IH|exact IHsub].
Qed.

Lemma purge_loop_removable (l : list (string * Node)) :
  Forall (fun e => purge_entry (snd e) = (None, false)) l ->
  purge_loop purge_entry l = ([], false).
Proof.
  induction 1 as [|[name n] l Hn _ IH]; [done|].
  cbn in *. by rewrite Hn.
Qed.

Lemma purge_entry_removable (n : Node) :
  removable n = true -> purge_entry n = (None, false).
Proof.
  induction n as [b|b| |b sub IH] using Node_ind'; cbn [removable purge_entry];
    try (by intros ->); [done|].
  intros [-> Hall]%andb_true_iff.
  rewrite purge_loop_removable; [done|].
  rewrite forallb_forall in Hall. rewrite Forall_forall in IH. apply Forall_forall.
  intros e He. apply IH; [done|]. apply Hall. by apply list_elem_of_In.
Qed.

Lemma purge_entry_not_removable (n : Node) :
  removable n = false ->
  (n = Special /\ purge_entry n = (Some Special, false))
  \/ (n <> Special /\ exists n', purge_entry n = (Some n', true)).
Proof.
  induction n as [b|b| |b sub IH] using Node_ind'; cbn [removable purge_entry].
  - intros ->. right. split; [done|]. by eexists.
  - intros ->. right. split; [done|]. by eexists.
  - intros _. by left.
  - intros Hall. right. split; [done|].
    destruct (forallb (fun e => removable (snd e)) sub) eqn:Hsub.
    + rewrite andb_true_r in Hall. subst b.
      rewrite purge_loop_removable; [by eexists|].
      rewrite forallb_forall in Hsub. apply Forall_forall.
      intros e He. apply purge_entry_removable, Hsub. by apply list_elem_of_In.
    + clear Hall.
      assert (Hloop : snd (purge_loop purge_entry sub) = true
                      \/ fst (purge_loop purge_entry sub) <> []).
      { induction sub as [|[name n] sub IHsub]; [done|].
        cbn [forallb snd] in Hsub. apply Forall_cons in IH as [IHn IHs].
        cbn [purge_loop]. cbn [snd] in IHn.
        destruct (removable n) eqn:Hn.
        - rewrite (purge_entry_removable n Hn). apply IHsub; [done|].
          by rewrite andb_true_l in Hsub.
        - destruct (IHn eq_refl) as [[-> ->]|[_ [n' ->]]].
          + destruct (purge_loop purge_entry sub) as [rest' raised]. by right.
          + by left. }
      destruct (purge_loop purge_entry sub) as [sub' [|]]; cbn in Hloop |- *.
      * by eexists.
      * destruct sub' as [|e sub']; [by destruct Hloop|]. by eexists.
Qed.

(** X11.  [purgeDirectory(dir)] on a directory whose entries can all be
    removed, but for sockets, pipes and devices directly in it, returns and
    leaves exactly those.  In every other case (a removal that fails, or
    a socket, pipe or device in a subdirectory, whose [os.rmdir] then
    fails) it raises. *)
Theorem purgeDirectory_leaves_special_files (removes : bool)
    (entries : list (string * Node)) :
  purgeDirectory removes entries false
  = if forallb (fun e => is_special (snd e) || removable (snd e)) entries
    then (Some (List.filter (fun e => is_special (snd e)) entries), false)
    else (fst (purgeDirectory removes entries false), true).
Proof.
  unfold purgeDirectory.
  induction entries as [|[name n] entries IH]; [done|].
  cbn [forallb List.filter snd purge_loop].
  destruct (removable n) eqn:Hn.
  - rewrite (purge_entry_removable n Hn).
    replace (is_special n) with false by (destruct n; done).
    cbn [orb andb]. exact IH.
  - destruct (purge_entry_not_removable n Hn) as [[-> ->]|[Hns [n' Hp]]].
    + cbn [is_special orb andb].
      destruct (purge_loop purge_entry entries) as [rest' [|]];
        destruct (forallb _ entries); cbn in IH |- *; congruence.
    + assert (Hs : is_special n = false) by (by destruct n).
      rewrite Hp, Hs. done.
Qed.

(** X12.  [detectCore] goes through the listing up to the first entry that
    is a regular file whose name starts with core, and returns true there,
    or on which [os.stat] raises, and raises there; without such an entry
    its result is false.  Directories and other entries named core do not
    count. *)
Theorem detectCore_finds_first_core (l : list (string * option FileKind)) :
  detectCore_dir (Some l)
  = match list_find (fun e => is_core e = true \/ stat_fails e = true) l with
    | Some (_, e) => if stat_fails e then inr OtherException else inl true
    | None => inl false
    end.
Proof.
  cbn [detectCore_dir]. induction l as [|[file st] l IH]; [done|].
  cbn [detectCore_loop list_find]. unfold is_core, stat_fails. cbn [fst snd].
  destruct st as [[| |]|].
  - destruct (startswith "core" file) eqn:Hc.
    + rewrite decide_True by auto. done.
    + rewrite decide_False by (intros [|]; done).
      rewrite IH. unfold is_core, stat_fails.
      by destruct (list_find _ l) as [[i e]|].
  - rewrite decide_False by (intros [|]; done).
    rewrite IH. unfold is_core, stat_fails. by destruct (list_find _ l) as [[i e]|].
  - rewrite decide_False by (intros [|]; done).
    rewrite IH. unfold is_core, stat_fails. by destruct (list_find _ l) as [[i e]|].
  - rewrite decide_True by auto. done.
Qed.

(** ** The ways through the test container *)

Lemma testObj_addOutcome_no_interrupt FAILS o st :
  snd (testObj_addOutcome FAILS o st) <> inr KeyboardInterrupt.
Proof.
  unfold testObj_addOutcome, on_testObj.
  destruct (c_testObj st) as [t|]; [|done].
  by destruct (addOutcome FAILS (obj t) o "" None) as [o' [a|]].
Qed.

Lemma execute_block_no_interrupt env st :
  snd (execute_block env st) <> inr KeyboardInterrupt.
Proof.
  unfold execute_block, try_except.
  match goal with |- context [match ?b st with _ => _ end] => destruct (b st) as [st' [[]|[]]] end.
  - done.
  - unfold bind, set_kbrdInt.
    match goal with |- context [testObj_addOutcome ?F ?o ?s] =>
      pose proof (testObj_addOutcome_no_interrupt F o s) as H;
      destruct (testObj_addOutcome F o s) as [? [[]|[]]] end; done.
  - apply testObj_addOutcome_no_interrupt.
Qed.

Lemma cleanup_block_no_interrupt env st :
  snd (cleanup_block env st) <> inr KeyboardInterrupt.
Proof.
  unfold cleanup_block, try_except.
  destruct (on_testObj _ st) as [st' [[]|[]]]; [done| |done].
  unfold bind, set_kbrdInt.
  match goal with |- context [testObj_addOutcome ?F ?o ?s] =>
    pose proof (testObj_addOutcome_no_interrupt F o s) as H;
    destruct (testObj_addOutcome F o s) as [? [[]|[]]] end; done.
Qed.

(** X13.  A [KeyboardInterrupt] raised by the preparation, the import, a
    method of the test or its cleanup never leaves [__call__]: whatever
    the call meets, the exception that leaves it, if any, is another. *)
Theorem TestContainer_call_never_raises_KeyboardInterrupt (env : CallEnv) :
  snd (TestContainer_call env) <> inr KeyboardInterrupt.
Proof.
  unfold TestContainer_call, bind.
  set (st0 := {| c_testObj := None; c_kbrdInt := false; c_exc_info := [] |}).
  assert (H1 : exists u, snd (prepare_block env st0) = inl u).
  { unfold prepare_block, try_except. destruct (env_prepare env) as [[]|]; simpl; eauto. }
  destruct (prepare_block env st0) as [st1 r1]. destruct H1 as [[] H1].
  cbn [snd] in H1. subst r1.
  assert (H2 : exists u, snd (import_block env st1) = inl u).
  { unfold import_block. destruct (env_import env); simpl; eauto. }
  destruct (import_block env st1) as [st2 r2]. destruct H2 as [[] H2].
  cbn [snd] in H2. subst r2.
  pose proof (execute_block_no_interrupt env st2) as H3.
  destruct (execute_block env st2) as [st3 [[]|e3]]; [|done].
  apply cleanup_block_no_interrupt.
Qed.

Lemma prepare_block_result env :
  prepare_block env {| c_testObj := None; c_kbrdInt := false; c_exc_info := [] |}
  = ({| c_testObj := None;
        c_kbrdInt := bool_decide (env_prepare env = Some KeyboardInterrupt);
        c_exc_info := if bool_decide (env_prepare env = Some OtherException)
                      then [OtherException] else [] |}, inl tt).
Proof. unfold prepare_block, try_except. by destruct (env_prepare env) as [[]|]. Qed.

(** X14.  An interrupt during the import of the test class: the container
    has no test object, the flag [kbrdInt] is set, and the
    [AttributeError] of the first call on the missing object leaves
    [__call__], whether the test is runnable or not. *)
Theorem TestContainer_call_import_interrupted (env : CallEnv) :
  env_import env = ImportInterrupted ->
  TestContainer_call env
  = ({| c_testObj := None; c_kbrdInt := true;
        c_exc_info := if bool_decide (env_prepare env = Some OtherException)
                      then [OtherException] else [] |},
     inr OtherException).
Proof.
  intros Hi. unfold TestContainer_call, bind. rewrite prepare_block_result.
  unfold import_block. rewrite Hi. cbn [set_kbrdInt c_testObj c_exc_info].
  unfold execute_block, try_except, bind, testObj_addOutcome, on_testObj.
  cbn [c_testObj c_kbrdInt c_exc_info].
  destruct (env_runnable env), (env_mode_excluded env),
    (bool_decide (env_prepare env = Some OtherException)); reflexivity.
Qed.

Lemma TestContainer_call_import_interrupted_witness :
  env_import example_env_interrupted = ImportInterrupted
  /\ TestContainer_call example_env_interrupted
     = ({| c_testObj := None; c_kbrdInt := true; c_exc_info := [] |}, inr OtherException).
Proof.
  split; [reflexivity|].
  exact (TestContainer_call_import_interrupted example_env_interrupted eq_refl).
Defined.

(** X15.  A test that is not runnable, or excluded by the mode, or whose
    preparation failed: [setup], [execute] and [validate] are not called;
    one outcome is added to the test object as it was constructed,
    [SKIPPED] in the first two cases and [BLOCKED] in the third, and the
    cleanup of the test follows (for a test object that does not abort on
    errors by default). *)
Theorem TestContainer_call_skips_phases (env : CallEnv) (t : TestObject) :
  env_import env = Loaded t ->
  defaultAbortOnError (obj t) = false ->
  negb (env_runnable env) || env_mode_excluded env
    || bool_decide (is_Some (env_prepare env)) = true ->
  let o := if negb (env_runnable env) || env_mode_excluded env then SKIPPED else BLOCKED in
  TestContainer_call env
  = cleanup_block env
      (container_with t (fst (addOutcome (env_FAILS env) (obj t) o "" None))
         (bool_decide (env_prepare env = Some KeyboardInterrupt))
         (if bool_decide (env_prepare env = Some OtherException)
          then [OtherException] else [])).
Proof.
  intros Hi Ha Hskip. cbn zeta.
  unfold TestContainer_call, bind. rewrite prepare_block_result.
  unfold import_block. rewrite Hi. cbn [set_testObj c_testObj c_exc_info c_kbrdInt].
  assert (Hadd : forall o k excs,
            testObj_addOutcome (env_FAILS env) o
              {| c_testObj := Some t; c_kbrdInt := k; c_exc_info := excs |}
            = (container_with t (fst (addOutcome (env_FAILS env) (obj t) o "" None)) k excs,
               inl tt)).
  { intros o k excs. unfold testObj_addOutcome, on_testObj, addOutcome.
    cbn [c_testObj c_kbrdInt c_exc_info default]. rewrite Ha, andb_false_r.
    reflexivity. }
  unfold execute_block, try_except. cbn [c_exc_info c_kbrdInt].
  destruct (env_runnable env); cbn [negb orb] in *.
  2: { by rewrite (Hadd SKIPPED). }
  destruct (env_mode_excluded env); cbn [orb] in *.
  { by rewrite (Hadd SKIPPED). }
  destruct (env_prepare env) as [[]|]; cbn in Hskip |- *; [| |done].
  - by rewrite (Hadd BLOCKED).
  - by rewrite (Hadd BLOCKED).
Qed.

Lemma TestContainer_call_skips_phases_witness :
  let t := example_test passes_on passes_on in
  env_import example_env_not_runnable = Loaded t
  /\ TestContainer_call example_env_not_runnable
     = cleanup_block example_env_not_runnable
         (container_with t (fst (addOutcome example_FAILS (obj t) SKIPPED "" None)) false []).
Proof.
  split; [reflexivity|].
  exact (TestContainer_call_skips_phases example_env_not_runnable
           (example_test passes_on passes_on) eq_refl eq_refl eq_refl).
Defined.

Lemma test_phases_run (env : CallEnv) (t : TestObject) k excs :
  (on_testObj (fun t => t_setup (cls t) (obj t)) ;;;
   on_testObj (fun t => t_execute (cls t) (obj t)) ;;;
   on_testObj (fun t => t_validate (cls t) (obj t)))
    {| c_testObj := Some t; c_kbrdInt := k; c_exc_info := excs |}
  = (container_with t (fst (test_phases t)) k excs,
     match snd (test_phases t) with Some e => inr e | None => inl tt end).
Proof.
  unfold bind, on_testObj, test_phases, container_with. cbn [c_testObj c_kbrdInt c_exc_info].
  destruct (t_setup (cls t) (obj t)) as [o1 [e1|]]; [done|].
  cbn [c_testObj c_kbrdInt c_exc_info obj cls].
  destruct (t_execute (cls t) o1) as [o2 [e2|]]; [done|].
  cbn [c_testObj c_kbrdInt c_exc_info obj cls].
  by destruct (t_validate (cls t) o2) as [o3 [e3|]].
Qed.

(** X16.  An exception in [setup], [execute] or [validate] of a runnable
    test: [BLOCKED] is added to the test object as the method left it, and
    [kbrdInt] is set when the exception is a [KeyboardInterrupt].  When
    the object aborts on errors by default (and [BLOCKED] is a failure
    outcome), the [AbortExecution] of that [addOutcome] leaves [__call__]
    and the cleanup of the test is not called; otherwise the cleanup
    follows. *)
Theorem TestContainer_call_phase_exception (env : CallEnv) (t : TestObject)
    (o1 : ProcessUser) (e : Exn) :
  env_prepare env = None -> env_import env = Loaded t ->
  env_runnable env = true -> env_mode_excluded env = false ->
  test_phases t = (o1, Some e) ->
  let blocked := container_with t (fst (addOutcome (env_FAILS env) o1 BLOCKED "" None))
                   (bool_decide (e = KeyboardInterrupt)) [] in
  TestContainer_call env
  = if bool_decide (BLOCKED ∈ env_FAILS env) && defaultAbortOnError o1
    then (blocked, inr OtherException)
    else cleanup_block env blocked.
Proof.
  intros Hp Hi Hr Hm Hph. cbn zeta.
  unfold TestContainer_call. unfold bind at 1. rewrite prepare_block_result, Hp.
  rewrite !bool_decide_eq_false_2 by done.
  unfold bind at 1. unfold import_block. rewrite Hi.
  cbn [set_testObj c_testObj c_exc_info c_kbrdInt].
  unfold bind at 1.
  assert (Hex : execute_block env {| c_testObj := Some t; c_kbrdInt := false; c_exc_info := [] |}
          = (container_with t (fst (addOutcome (env_FAILS env) o1 BLOCKED "" None))
               (bool_decide (e = KeyboardInterrupt)) [],
             if bool_decide (BLOCKED ∈ env_FAILS env) && defaultAbortOnError o1
             then inr OtherException else inl tt)).
  { unfold execute_block, try_except. rewrite Hr, Hm. cbn [negb c_exc_info length Nat.ltb Nat.leb c_kbrdInt].
    pose proof (test_phases_run env t false []) as Hrun. rewrite Hph in Hrun.
    cbn [fst snd] in Hrun.
    unfold bind in Hrun |- *.
    destruct (on_testObj (fun t0 => t_setup (cls t0) (obj t0))
                {| c_testObj := Some t; c_kbrdInt := false; c_exc_info := [] |})
      as [s1 [[]|x1]].
    2: { injection Hrun as -> ->.
         unfold set_kbrdInt, testObj_addOutcome, on_testObj, container_with, addOutcome.
         destruct e; cbn [c_testObj c_kbrdInt c_exc_info obj cls default];
           by destruct (bool_decide (BLOCKED ∈ env_FAILS env) && defaultAbortOnError o1). }
    destruct (on_testObj (fun t0 => t_execute (cls t0) (obj t0)) s1) as [s2 [[]|x2]].
    2: { injection Hrun as -> ->.
         unfold set_kbrdInt, testObj_addOutcome, on_testObj, container_with, addOutcome.
         destruct e; cbn [c_testObj c_kbrdInt c_exc_info obj cls default];
           by destruct (bool_decide (BLOCKED ∈ env_FAILS env) && defaultAbortOnError o1). }
    destruct (on_testObj (fun t0 => t_validate (cls t0) (obj t0)) s2) as [s3 [[]|x3]];
      [done|].
    injection Hrun as -> ->.
    unfold set_kbrdInt, testObj_addOutcome, on_testObj, container_with, addOutcome.
    destruct e; cbn [c_testObj c_kbrdInt c_exc_info obj cls default];
      by destruct (bool_decide (BLOCKED ∈ env_FAILS env) && defaultAbortOnError o1). }
  rewrite Hex.
  by destruct (bool_decide (BLOCKED ∈ env_FAILS env) && defaultAbortOnError o1).
Qed.

Lemma TestContainer_call_phase_exception_witness :
  let t := example_test (fun o => (o, Some OtherException)) passes_on in
  test_phases t = (obj t, Some OtherException)
  /\ TestContainer_call (example_env t)
     = cleanup_block (example_env t)
         (container_with t (fst (addOutcome example_FAILS (obj t) BLOCKED "" None)) false []).
Proof.
  split; [reflexivity|].
  exact (TestContainer_call_phase_exception
           (example_env (example_test (fun o => (o, Some OtherException)) passes_on))
           (example_test (fun o => (o, Some OtherException)) passes_on)
           _ OtherException eq_refl eq_refl eq_refl eq_refl eq_refl).
Defined.

(** ** A cycle of the runner *)

Lemma publish_results i c r r' :
  publish i c r = (r', Returns) ->
  exists tally,
    results r !! cycle c = Some tally
    /\ results r' = <[cycle c := fun o' => if decide (o' = getOutcome (testObj c))
                                           then tally o' ++ [descriptor_id c]
                                           else tally o']> (results r)
    /\ resultsPointer r' = resultsPointer r + 1
    /\ resultsQueue r' = <[i := None]> (resultsQueue r).
Proof.
  unfold publish.
  set (r1 := if (1 <? threads r)%Z then log_stage Flush (counter c) r else r).
  assert (H1 : results r1 = results r /\ resultsPointer r1 = resultsPointer r
               /\ resultsQueue r1 = resultsQueue r).
  { subst r1. by destruct (1 <? threads r)%Z. }
  clearbody r1. destruct H1 as (Hr1 & Hp1 & Hq1).
  set (r2 := if quiet r1 then log_stage LogOutcome (counter c) r1 else r1).
  assert (H2 : results r2 = results r /\ resultsPointer r2 = resultsPointer r
               /\ resultsQueue r2 = resultsQueue r).
  { subst r2. by destruct (quiet r1). }
  clearbody r2. clear Hr1 Hp1 Hq1 r1. destruct H2 as (Hr2 & Hp2 & Hq2).
  set (r3 := log_stage TestComplete (counter c) (set_disk _ r2)).
  assert (H3 : results r3 = results r /\ resultsPointer r3 = resultsPointer r
               /\ resultsQueue r3 = resultsQueue r) by done.
  clearbody r3. clear Hr2 Hp2 Hq2 r2. destruct H3 as (Hr3 & Hp3 & Hq3).
  set (r4 := if record r3 then foldl _ r3 _ else r3).
  assert (H4 : results r4 = results r /\ resultsPointer r4 = resultsPointer r
               /\ resultsQueue r4 = resultsQueue r).
  { subst r4. destruct (record r3); [|done].
    destruct (fold_writers_fields (counter c) (seq 0 (length (writers r3))) r3)
      as (_ & _ & Hp & Hq & _ & Hr & _).
    cbn zeta in *. by rewrite Hp, Hq, Hr. }
  clearbody r4. clear Hr3 Hp3 Hq3 r3. destruct H4 as (Hr4 & Hp4 & Hq4).
  assert (Hend : forall r5, results r5 = results r -> resultsPointer r5 = resultsPointer r ->
            resultsQueue r5 = resultsQueue r ->
            match results r5 !! cycle c with
            | None => (set_tally (duration r5 + testTime c)%float (results r5) r5, Raises)
            | Some tally =>
                let o := getOutcome (testObj c) in
                let tally' := fun o' => if decide (o' = o)
                                        then tally o' ++ [descriptor_id c] else tally o' in
                let r6 := log_stage Tally (counter c)
                            (set_tally (duration r5 + testTime c)%float
                                       (<[cycle c := tally']> (results r5)) r5) in
                (set_queue (<[i := None]> (resultsQueue r6)) (resultsPointer r6 + 1) r6,
                 Returns)
            end = (r', Returns) ->
            exists tally,
              results r !! cycle c = Some tally
              /\ results r' = <[cycle c := fun o' => if decide (o' = getOutcome (testObj c))
                                                     then tally o' ++ [descriptor_id c]
                                                     else tally o']> (results r)
              /\ resultsPointer r' = resultsPointer r + 1
              /\ resultsQueue r' = <[i := None]> (resultsQueue r)).
  { intros r5 Hr Hp Hq. rewrite Hr.
    destruct (results r !! cycle c) as [tally|]; [|discriminate].
    intros [= <-]. exists tally. cbn. by rewrite Hp, Hq. }
  destruct (kbrdInt c).
  - destruct (handleKbrdInt (stdin r4)) as [rest comp'].
    destruct comp'; try discriminate. by apply Hend.
  - by apply Hend.
Qed.

Lemma publish_threads i c r r' comp :
  publish i c r = (r', comp) -> threads r' = threads r.
Proof. intros H. by destruct (publish_trace _ _ _ _ _ H) as ((_ & _ & Ht & _) & _). Qed.

Lemma run_descriptors_tally (cyc : nat) (runs : list TestContainer) :
  forall (k : nat) (r r' : BaseRunner) (tally : Outcome -> list string),
    (threads r <= 1)%Z ->
    resultsQueue r = replicate k None -> resultsPointer r = k ->
    results r !! cyc = Some tally ->
    run_descriptors cyc k (map Some runs) r = (r', Returns) ->
    resultsQueue r' = replicate (k + length runs) None
    /\ resultsPointer r' = k + length runs
    /\ (exists tally', results r' !! cyc = Some tally'
                       /\ forall o, tally' o = tally o ++ ids_with_outcome o runs)
    /\ forall cyc', cyc' <> cyc -> results r' !! cyc' = results r !! cyc'.
Proof.
  induction runs as [|c runs IH]; intros k r r' tally Hth Hq Hp Ht.
  - cbn. intros [= <-]. rewrite Nat.add_0_r. split; [done|]. split; [done|].
    split; [|done]. exists tally. split; [done|]. intros o.
    unfold ids_with_outcome. cbn. by rewrite app_nil_r.
  - cbn [run_descriptors map].
    replace (1 <? threads r)%Z with false by (symmetry; apply Z.ltb_ge; lia).
    unfold containerCallback.
    cbn [resultsQueue resultsPointer set_queue counter container_at].
    rewrite Hq, Hp, length_app, length_replicate. cbn [length].
    replace (k <? k + 1)%nat with true by (symmetry; apply Nat.ltb_lt; lia).
    rewrite length_insert, length_app, length_replicate. cbn [length].
    replace (k + 1 - k) with 1 by lia. cbn [publish_loop].
    cbn [resultsQueue set_queue].
    rewrite list_lookup_insert_eq by (rewrite length_app, length_replicate; cbn; lia).
    destruct (publish k (container_at k cyc c) _) as [r2 comp] eqn:Hpub.
    destruct comp; try discriminate.
    pose proof (publish_threads _ _ _ _ _ Hpub) as Hth2. cbn [threads set_queue] in Hth2.
    apply publish_results in Hpub as (tally0 & Ht0 & Hres & Hptr & Hqueue).
    cbn [results resultsPointer resultsQueue set_queue cycle container_at testObj
         descriptor_id] in *.
    rewrite Ht in Ht0. injection Ht0 as <-.
    intros Hrun.
    apply (IH (S k) r2 r'
              (fun o' => if decide (o' = getOutcome (testObj c))
                         then tally o' ++ [descriptor_id c] else tally o')) in Hrun.
    + destruct Hrun as (Hq' & Hp' & (tally' & Ht' & Hall) & Hother).
      cbn [length]. replace (k + S (length runs)) with (S k + length runs) by lia.
      split; [done|]. split; [done|]. split.
      * exists tally'. split; [done|]. intros o. rewrite Hall.
        unfold ids_with_outcome. cbn [List.filter].
        destruct (decide (o = getOutcome (testObj c))) as [->|Hne].
        -- rewrite bool_decide_eq_true_2 by done. cbn [map]. by rewrite <- app_assoc.
        -- rewrite bool_decide_eq_false_2 by done. done.
      * intros cyc' Hne. rewrite Hother by done. rewrite Hres.
        by rewrite lookup_insert_ne.
    + by rewrite Hth2.
    + rewrite Hqueue, list_insert_insert_eq.
      rewrite insert_app_r_alt by (rewrite length_replicate; lia).
      rewrite length_replicate, Nat.sub_diag. cbn [insert list_insert].
      change [None] with (replicate 1 (@None TestContainer)).
      by rewrite <- replicate_add, Nat.add_1_r.
    + rewrite Hptr. lia.
    + rewrite Hres. by rewrite lookup_insert_eq.
Qed.

(** X17.  A cycle of [start] with one thread that runs to its end leaves a
    queue of empty slots with the cursor at its end, and has tallied every
    test of the cycle once, under its overall outcome, in the order of the
    descriptors; the tallies of the other cycles are as before. *)
Theorem start_cycle_tallies_every_test (cyc : nat) (runs : list TestContainer)
    (r r' : BaseRunner) :
  (threads r <= 1)%Z ->
  start_cycle cyc (map Some runs) r = (r', Returns) ->
  resultsQueue r' = replicate (length runs) None
  /\ resultsPointer r' = length runs
  /\ (exists tally, results r' !! cyc = Some tally
                    /\ forall o, tally o = ids_with_outcome o runs)
  /\ forall cyc', cyc' <> cyc -> results r' !! cyc' = results r !! cyc'.
Proof.
  unfold start_cycle. intros Hth Hrun.
  apply (run_descriptors_tally cyc runs 0 _ r' (fun _ => [])) in Hrun; try done.
  - destruct Hrun as (Hq & Hp & Ht & Hother). split; [done|]. split; [done|].
    split; [exact Ht|]. intros cyc' Hne. rewrite Hother by done.
    cbn. by rewrite lookup_insert_ne.
  - cbn. by rewrite lookup_insert_eq.
Qed.

Lemma start_cycle_tallies_every_test_witness :
  let runs := [example_container 0; example_container 1] in
  let r' := fst (start_cycle 0 (map Some runs) example_runner_one_thread) in
  ((threads example_runner_one_thread <= 1)%Z
   /\ start_cycle 0 (map Some runs) example_runner_one_thread = (r', Returns))
  /\ resultsPointer r' = 2.
Proof.
  assert (Ht : (threads example_runner_one_thread <= 1)%Z) by (cbn; lia).
  assert (Hr : start_cycle 0 (map Some [example_container 0; example_container 1])
                 example_runner_one_thread
               = (fst (start_cycle 0 (map Some [example_container 0; example_container 1])
                         example_runner_one_thread), Returns))
    by (vm_compute; reflexivity).
  split; [by split|].
  exact (proj1 (proj2 (start_cycle_tallies_every_test 0 _ _ _ Ht Hr))).
Defined.

Lemma publish_returns i c r :
  kbrdInt c = false -> is_Some (results r !! cycle c) ->
  snd (publish i c r) = Returns.
Proof.
  intros Hk [tally Ht]. unfold publish. rewrite Hk.
  set (r1 := if (1 <? threads r)%Z then log_stage Flush (counter c) r else r).
  assert (H1 : results r1 = results r) by (subst r1; by destruct (1 <? threads r)%Z).
  clearbody r1.
  set (r2 := if quiet r1 then log_stage LogOutcome (counter c) r1 else r1).
  assert (H2 : results r2 = results r) by (subst r2; by destruct (quiet r1)).
  clearbody r2. clear H1 r1.
  set (r3 := log_stage TestComplete (counter c) (set_disk _ r2)).
  assert (H3 : results r3 = results r) by done.
  clearbody r3. clear H2 r2.
  set (r4 := if record r3 then foldl _ r3 _ else r3).
  assert (H4 : results r4 = results r).
  { subst r4. destruct (record r3); [|done].
    destruct (fold_writers_fields (counter c) (seq 0 (length (writers r3))) r3)
      as (_ & _ & _ & _ & _ & Hr & _). cbn zeta in Hr. by rewrite Hr. }
  clearbody r4. clear H3 r3.
  by rewrite H4, Ht.
Qed.

Lemma run_descriptors_returns (cyc : nat) (runs : list TestContainer) :
  forall (k : nat) (r : BaseRunner),
    (threads r <= 1)%Z ->
    Forall (fun c => kbrdInt c = false) runs ->
    resultsQueue r = replicate k None -> resultsPointer r = k ->
    is_Some (results r !! cyc) ->
    snd (run_descriptors cyc k (map Some runs) r) = Returns.
Proof.
  induction runs as [|c runs IH]; intros k r Hth Hruns Hq Hp Ht; [done|].
  apply Forall_cons in Hruns as [Hc Hruns]. cbn [run_descriptors map].
  replace (1 <? threads r)%Z with false by (symmetry; apply Z.ltb_ge; lia).
  unfold containerCallback.
  cbn [resultsQueue resultsPointer set_queue counter container_at].
  rewrite Hq, Hp, length_app, length_replicate. cbn [length].
  replace (k <? k + 1)%nat with true by (symmetry; apply Nat.ltb_lt; lia).
  rewrite length_insert, length_app, length_replicate. cbn [length].
  replace (k + 1 - k) with 1 by lia. cbn [publish_loop].
  cbn [resultsQueue set_queue].
  rewrite list_lookup_insert_eq by (rewrite length_app, length_replicate; cbn; lia).
  match goal with |- context [publish k ?c ?r1] =>
    pose proof (publish_returns k c r1 Hc Ht) as Hret;
    destruct (publish k c r1) as [r2 comp] eqn:Hpub end.
  cbn [snd] in Hret. subst comp.
  pose proof (publish_threads _ _ _ _ _ Hpub) as Hth2. cbn [threads set_queue] in Hth2.
  apply publish_results in Hpub as (tally0 & Ht0 & Hres & Hptr & Hqueue).
  cbn [results resultsPointer resultsQueue set_queue cycle container_at] in *.
  apply IH; [by rewrite Hth2|done| | |].
  - rewrite Hqueue, list_insert_insert_eq.
    rewrite insert_app_r_alt by (rewrite length_replicate; lia).
    rewrite length_replicate, Nat.sub_diag. cbn [insert list_insert].
    change [None] with (replicate 1 (@None TestContainer)).
    by rewrite <- replicate_add, Nat.add_1_r.
  - rewrite Hptr. lia.
  - rewrite Hres, lookup_insert_eq. by eexists.
Qed.

(** X18.  A cycle of [start] with one thread in which every container
    returns and no test was interrupted from the keyboard runs to its
    end. *)
Theorem start_cycle_returns_without_interrupt (cyc : nat) (runs : list TestContainer)
    (r : BaseRunner) :
  (threads r <= 1)%Z ->
  Forall (fun c => kbrdInt c = false) runs ->
  snd (start_cycle cyc (map Some runs) r) = Returns.
Proof.
  intros Hth Hruns. unfold start_cycle.
  apply run_descriptors_returns; try done.
  cbn. rewrite lookup_insert_eq. by eexists.
Qed.

Lemma start_cycle_returns_without_interrupt_witness :
  let runs := [example_container 0; example_container 1] in
  ((threads example_runner_one_thread <= 1)%Z
   /\ Forall (fun c => kbrdInt c = false) runs)
  /\ snd (start_cycle 0 (map Some runs) example_runner_one_thread) = Returns.
Proof.
  assert (Ht : (threads example_runner_one_thread <= 1)%Z) by (cbn; lia).
  assert (Hk : Forall (fun c => kbrdInt c = false)
                 [example_container 0; example_container 1])
    by (repeat constructor).
  split; [by split|].
  exact (start_cycle_returns_without_interrupt 0 _ _ Ht Hk).
Defined.

(** ** What a report leaves in the reporter *)

Lemma append_line_extends header path line (fs : gmap string (list string)) (p : string) :
  match fs !! p with
  | Some lines => exists more, append_line header path line fs !! p = Some (lines ++ more)
  | None => append_line header path line fs !! p = None
            \/ exists more, append_line header path line fs !! p = Some (header :: more)
  end.
Proof.
  unfold append_line. destruct (decide (path = p)) as [->|Hne].
  - destruct (fs !! p) as [lines|] eqn:E.
    + exists [line]. by rewrite lookup_insert_eq.
    + right. exists [line]. by rewrite lookup_insert_eq.
  - destruct (fs !! path) as [lines'|]; rewrite lookup_insert_ne by done.
    + destruct (fs !! p) as [lines|]; [exists []; by rewrite app_nil_r|by left].
    + destruct (fs !! p) as [lines|]; [exists []; by rewrite app_nil_r|by left].
Qed.

Lemma recordResult_extends {V} (E : ReporterEnv V) formatted testobj
    (fs : gmap string (list string)) (p : string) :
  match fs !! p with
  | Some lines => exists more, recordResult E formatted testobj fs !! p = Some (lines ++ more)
  | None => recordResult E formatted testobj fs !! p = None
            \/ exists more, recordResult E formatted testobj fs !! p
                            = Some (runHeader E :: more)
  end.
Proof.
  unfold recordResult.
  set (fs1 := append_line (runHeader E) (output (pt_obj testobj) +:+ "/performance_results.csv")
                formatted fs).
  pose proof (append_line_extends (runHeader E)
                (output (pt_obj testobj) +:+ "/performance_results.csv") formatted fs p) as H1.
  fold fs1 in H1.
  pose proof (append_line_extends (runHeader E) (runSummaryFile E (pt_id testobj))
                formatted fs1 p) as H2.
  destruct (fs !! p) as [lines|].
  - destruct H1 as [more1 H1]. rewrite H1 in H2. destruct H2 as [more2 H2].
    exists (more1 ++ more2). by rewrite H2, app_assoc.
  - destruct H1 as [H1|[more1 H1]]; rewrite H1 in H2.
    + exact H2.
    + destruct H2 as [more2 H2]. right. exists (more1 ++ more2). by rewrite H2.
Qed.

Lemma refuse_fields FAILS self testobj reason :
  fst (fst (refuse FAILS self testobj reason)) = self
  /\ snd (refuse FAILS self testobj reason) <> ResultRecorded.
Proof.
  unfold refuse. by destruct (addOutcome FAILS (pt_obj testobj) BLOCKED reason None) as [o [a|]].
Qed.

(** X19.  The result keys that the reporter has seen stay stored with the
    test that first reported them, whatever is reported afterwards and
    whichever way the report ends; a report stores at most its own
    (stripped) key. *)
Theorem reportResult_keeps_result_keys {V} (E : ReporterEnv V) (FAILS : list Outcome)
    (self : CSVPerformanceReporter) (testobj : PerfTest)
    (value : string + V) (resultKey : string) (unit : UnitArg)
    (toleranceStdDevs : option V) (resultDetails : list (string * string)) :
  let self' := fst (fst (reportResult E FAILS self testobj value resultKey unit
                           toleranceStdDevs resultDetails)) in
  previousResultKeys self ⊆ previousResultKeys self'
  /\ dom (previousResultKeys self') ⊆ dom (previousResultKeys self) ∪ {[ strip resultKey ]}.
Proof.
  cbn zeta. unfold reportResult, check_arguments.
  destruct (negb (valid_resultKey (strip resultKey))); [by split; [|apply union_subseteq_l]|].
  destruct (match value with inl text => float_of_string E text | inr v => Some v end)
    as [v|]; [|by split; [|apply union_subseteq_l]].
  destruct (resolve_unit unit) as [u|]; [|by split; [|apply union_subseteq_l]].
  destruct (valueToDisplayString_returns E v); [|by split; [|apply union_subseteq_l]].
  destruct (previousResultKeys self !! strip resultKey) as [[[pid ph] pd]|] eqn:Hprev.
  - destruct (decide (ph = pt_hash testobj)).
    { destruct (refuse_fields FAILS self testobj (already_used_by_this_test (strip resultKey)))
        as [-> _]. by split; [|apply union_subseteq_l]. }
    destruct (_ || _).
    { destruct (refuse_fields FAILS self testobj (must_be_unique E (strip resultKey) pd))
        as [-> _]. by split; [|apply union_subseteq_l]. }
    destruct (bool_decide _); by split; [|apply union_subseteq_l].
  - destruct (bool_decide _); cbn [fst previousResultKeys].
    + split; [by apply insert_subseteq|]. rewrite dom_insert.
      apply union_least; [apply union_subseteq_r|apply union_subseteq_l].
    + split; [by apply insert_subseteq|]. rewrite dom_insert.
      apply union_least; [apply union_subseteq_r|apply union_subseteq_l].
Qed.

(** X20.  The files are written by appending: a report never removes or
    changes a line that is there, a file that it creates starts with the
    header of the run, and nothing is written unless the result is
    recorded. *)
Theorem reportResult_appends_to_files {V} (E : ReporterEnv V) (FAILS : list Outcome)
    (self : CSVPerformanceReporter) (testobj : PerfTest)
    (value : string + V) (resultKey : string) (unit : UnitArg)
    (toleranceStdDevs : option V) (resultDetails : list (string * string))
    (path : string) :
  let result := reportResult E FAILS self testobj value resultKey unit
                  toleranceStdDevs resultDetails in
  let self' := fst (fst result) in
  match files self !! path with
  | Some lines => exists more, files self' !! path = Some (lines ++ more)
                               /\ (snd result <> ResultRecorded -> more = [])
  | None => files self' !! path = None
            \/ (snd result = ResultRecorded
                /\ exists more, files self' !! path = Some (runHeader E :: more))
  end.
Proof.
  cbn zeta.
  assert (Hsame : forall (fs : gmap string (list string)) (e : ReportEnd),
            e <> ResultRecorded ->
            match fs !! path with
            | Some lines => exists more, fs !! path = Some (lines ++ more)
                                         /\ (e <> ResultRecorded -> more = [])
            | None => fs !! path = None
                      \/ (e = ResultRecorded
                          /\ exists more, fs !! path = Some (runHeader E :: more))
            end).
  { intros fs e He. destruct (fs !! path) as [lines|]; [|by left].
    exists []. by rewrite app_nil_r. }
  assert (Hrec : forall formatted,
            match files self !! path with
            | Some lines =>
                exists more, recordResult E formatted testobj (files self) !! path
                             = Some (lines ++ more)
                             /\ (ResultRecorded <> ResultRecorded -> more = [])
            | None => recordResult E formatted testobj (files self) !! path = None
                      \/ (ResultRecorded = ResultRecorded
                          /\ exists more, recordResult E formatted testobj (files self) !! path
                                          = Some (runHeader E :: more))
            end).
  { intros formatted.
    pose proof (recordResult_extends E formatted testobj (files self) path) as H.
    destruct (files self !! path) as [lines|].
    - destruct H as [more H]. exists more. by split.
    - destruct H as [H|H]; [by left|right; by split]. }
  unfold reportResult, check_arguments.
  destruct (negb (valid_resultKey (strip resultKey))); [by apply Hsame|].
  destruct (match value with inl text => float_of_string E text | inr v => Some v end)
    as [v|]; [|by apply Hsame].
  destruct (resolve_unit unit) as [u|]; [|by apply Hsame].
  destruct (valueToDisplayString_returns E v); [|by apply Hsame].
  destruct (previousResultKeys self !! strip resultKey) as [[[pid ph] pd]|] eqn:Hprev.
  - destruct (decide (ph = pt_hash testobj)).
    { destruct (refuse_fields FAILS self testobj (already_used_by_this_test (strip resultKey)))
        as [Hs He]. rewrite Hs. by apply Hsame. }
    destruct (_ || _).
    { destruct (refuse_fields FAILS self testobj (must_be_unique E (strip resultKey) pd))
        as [Hs He]. rewrite Hs. by apply Hsame. }
    destruct (bool_decide _); cbn [fst snd files]; [by apply Hsame|apply Hrec].
  - destruct (bool_decide _); cbn [fst snd files]; [by apply Hsame|apply Hrec].
Qed.

(** ** The rows of an aggregate *)

Lemma merge_result_fields {N} (A : Arith N) (e r e' : PerfResult N) :
  merge_result A e r = Some e' ->
  r_resultKey e' = r_resultKey e /\ r_samples e' = (r_samples e + r_samples r)%Z.
Proof.
  unfold merge_result. intros H.
  repeat (match type of H with
          | (_ ≫= _) = Some _ => apply bind_Some in H as (? & ? & H)
          | mbind _ _ = Some _ => apply bind_Some in H as (? & ? & H)
          end).
  by injection H as <-.
Qed.

Lemma total_samples_app {N} (l1 l2 : list (PerfResult N)) :
  total_samples (l1 ++ l2) = (total_samples l1 + total_samples l2)%Z.
Proof.
  unfold total_samples. induction l1 as [|r l1 IH]; cbn [app foldr]; [done|].
  rewrite IH. lia.
Qed.

Lemma total_samples_perm {N} (l1 l2 : list (PerfResult N)) :
  l1 ≡ₚ l2 -> total_samples l1 = total_samples l2.
Proof.
  unfold total_samples.
  induction 1 as [|x l l' _ IH|x y l|l l' l'' _ IH1 _ IH2]; cbn [foldr]; lia.
Qed.

Lemma add_result_spec {N} (A : Arith N) (r : PerfResult N) results results' :
  results_keyed results ->
  add_result A r results = Some results' ->
  results_keyed results'
  /\ total_samples (map snd results') = (total_samples (map snd results) + r_samples r)%Z
  /\ (forall k, k ∈ map fst results' <-> k ∈ map fst results \/ k = r_resultKey r).
Proof.
  revert results'. induction results as [|[k e] rest IH]; intros results' [Hkey Hnd].
  - cbn. intros [= <-]. split; [split|split].
    + by repeat constructor.
    + cbn. apply NoDup_singleton.
    + cbn. lia.
    + intros k. cbn. rewrite list_elem_of_singleton.
      split; [by right|]. intros [H|H]; [by apply elem_of_nil in H|done].
  - cbn [add_result]. apply Forall_cons in Hkey as [Hk Hrest].
    cbn [map fst] in Hnd. apply NoDup_cons in Hnd as [Hnotin Hnd]. cbn [fst snd] in Hk.
    destruct (decide (k = r_resultKey r)) as [->|Hne].
    + intros H. apply bind_Some in H as (e' & Hm & [= <-]).
      apply merge_result_fields in Hm as [Hk' Hs'].
      split; [split|split].
      * constructor; [cbn; congruence|done].
      * cbn. by apply NoDup_cons.
      * cbn [map snd]. unfold total_samples. cbn [foldr]. rewrite Hs'. lia.
      * intros k. cbn. rewrite !elem_of_cons. tauto.
    + intros H. apply bind_Some in H as (rest' & Ha & [= <-]).
      destruct (IH rest' (conj Hrest Hnd) Ha) as ([Hkey' Hnd'] & Hs & Hin).
      split; [split|split].
      * by constructor.
      * cbn. apply NoDup_cons. split; [|done].
        intros Hk'. apply Hin in Hk' as [Hk'|Hk']; done.
      * cbn [map snd]. unfold total_samples in *. cbn [foldr]. rewrite Hs. lia.
      * intros k'. cbn. rewrite !elem_of_cons, Hin. tauto.
Qed.

Lemma add_results_spec {N} (A : Arith N) (rows : list (PerfResult N)) :
  forall results results',
    results_keyed results ->
    add_results A rows results = Some results' ->
    results_keyed results'
    /\ total_samples (map snd results')
       = (total_samples (map snd results) + total_samples rows)%Z
    /\ (forall k, k ∈ map fst results'
                  <-> k ∈ map fst results \/ k ∈ map r_resultKey rows).
Proof.
  induction rows as [|r rows IH]; intros results results' Hk.
  - cbn. intros [= <-]. split; [done|]. split; [lia|].
    intros k. split; [by left|]. intros [H|H]; [done|by apply elem_of_nil in H].
  - cbn [add_results]. intros H. apply bind_Some in H as (results1 & H1 & H).
    destruct (add_result_spec A r results results1 Hk H1) as (Hk1 & Hs1 & Hin1).
    destruct (IH results1 results' Hk1 H) as (Hk' & Hs' & Hin').
    split; [done|]. split.
    + rewrite Hs', Hs1. unfold total_samples. cbn [foldr]. lia.
    + intros k. rewrite Hin', Hin1. cbn. rewrite elem_of_cons. tauto.
Qed.

Lemma aggregate_files_spec {N} (A : Arith N) (fs : list (CSVPerformanceFile N)) :
  forall results details results' details',
    results_keyed results ->
    aggregate_files A fs results details = Some (results', details') ->
    results_keyed results'
    /\ total_samples (map snd results')
       = (total_samples (map snd results) + total_samples (all_rows fs))%Z
    /\ (forall k, k ∈ map fst results'
                  <-> k ∈ map fst results \/ k ∈ map r_resultKey (all_rows fs)).
Proof.
  induction fs as [|f fs IH]; intros results details results' details' Hk.
  - cbn. intros [= <- <-]. split; [done|]. split; [lia|].
    intros k. split; [by left|]. intros [H|H]; [done|by apply elem_of_nil in H].
  - cbn [aggregate_files]. unfold all_rows. cbn [map concat]. fold (all_rows fs).
    destruct (f_results f) as [|r0 rows0] eqn:Hrows.
    + intros H. cbn [app]. by apply (IH _ _ _ _ Hk H).
    + intros H. apply bind_Some in H as (results1 & H1 & H).
      destruct (add_results_spec A (r0 :: rows0) results results1 Hk H1) as (Hk1 & Hs1 & Hin1).
      destruct (IH _ _ _ _ Hk1 H) as (Hk' & Hs' & Hin').
      split; [done|]. split.
      * rewrite Hs', Hs1, total_samples_app. lia.
      * intros k. rewrite Hin', Hin1, map_app, elem_of_app. tauto.
Qed.

Lemma insert_by_perm {A} (leb : A -> A -> bool) (x : A) (l : list A) :
  insert_by leb x l ≡ₚ x :: l.
Proof.
  induction l as [|y l IH]; cbn; [done|].
  destruct (leb x y); [done|]. rewrite IH. apply perm_swap.
Qed.

Lemma sort_by_perm {A} (leb : A -> A -> bool) (l : list A) : sort_by leb l ≡ₚ l.
Proof.
  induction l as [|x l IH]; cbn; [done|].
  unfold sort_by in IH. rewrite insert_by_perm. by constructor.
Qed.

Lemma insert_by_sorted {A} (leb : A -> A -> bool) (x : A) (l : list A) :
  (forall a b, leb a b = true \/ leb b a = true) ->
  Sorted (fun a b => leb a b = true) l ->
  Sorted (fun a b => leb a b = true) (insert_by leb x l).
Proof.
  intros Htot. induction l as [|y l IH]; intros Hs; cbn.
  - by repeat constructor.
  - destruct (leb x y) eqn:Hxy.
    + constructor; [done|]. by constructor.
    + apply Sorted_inv in Hs as [Hs Hhd]. constructor; [by apply IH|].
      destruct l as [|z l]; cbn.
      * constructor. destruct (Htot x y); congruence.
      * destruct (leb x z).
        -- constructor. destruct (Htot x y); congruence.
        -- constructor. by apply HdRel_inv in Hhd.
Qed.

Lemma sort_by_sorted {A} (leb : A -> A -> bool) (l : list A) :
  (forall a b, leb a b = true \/ leb b a = true) ->
  Sorted (fun a b => leb a b = true) (sort_by leb l).
Proof.
  intros Htot. induction l as [|x l IH]; cbn; [constructor|].
  by apply insert_by_sorted.
Qed.

(** X21.  When [aggregate] returns, its rows are in the order of their
    result keys, one row for each key of the rows given and for no other,
    and the samples of its rows add up to the samples of the rows
    given. *)
Theorem aggregate_one_row_per_key {N} (A : Arith N) (fs : list (CSVPerformanceFile N))
    (a : CSVPerformanceFile N) :
  aggregate A fs = Some a ->
  Sorted (fun x y => String.leb (r_resultKey x) (r_resultKey y) = true) (f_results a)
  /\ NoDup (map r_resultKey (f_results a))
  /\ (forall k, k ∈ map r_resultKey (f_results a) <-> k ∈ map r_resultKey (all_rows fs))
  /\ total_samples (f_results a) = total_samples (all_rows fs).
Proof.
  unfold aggregate. intros H. apply bind_Some in H as ([results details] & Hagg & [= <-]).
  cbn [f_results].
  destruct (aggregate_files_spec A fs [] [] results details) as ([Hkey Hnd] & Hs & Hin);
    [split; [constructor|constructor]|done|].
  set (rows := sort_by _ (map snd (sort_by _ results))).
  assert (Hperm : rows ≡ₚ map snd results).
  { subst rows. rewrite sort_by_perm. by rewrite sort_by_perm. }
  assert (Hkeys : map r_resultKey (map snd results) = map fst results).
  { clear -Hkey. induction Hkey as [|[k r] l Hk _ IH]; [done|]. cbn in *. by rewrite Hk, IH. }
  split; [|split; [|split]].
  - subst rows. apply (sort_by_sorted (fun x y => String.leb (r_resultKey x) (r_resultKey y))).
    intros x y. apply String.leb_total.
  - rewrite Hperm, Hkeys. exact Hnd.
  - intros k. rewrite Hperm, Hkeys, Hin. cbn.
    split; [intros [H|H]; [by apply elem_of_nil in H|done]|by right].
  - rewrite (total_samples_perm _ _ Hperm), Hs. cbn. lia.
Qed.

Lemma aggregate_one_row_per_key_witness :
  exists a, aggregate float_arith [example_file; example_file] = Some a
            /\ NoDup (map r_resultKey (f_results a))
            /\ total_samples (f_results a) = total_samples (all_rows [example_file; example_file]).
Proof.
  destruct (aggregate float_arith [example_file; example_file]) as [a|] eqn:Ha;
    [|by vm_compute in Ha].
  exists a. split; [reflexivity|].
  pose proof (aggregate_one_row_per_key float_arith _ a Ha) as H.
  split; [exact (proj1 (proj2 H))|exact (proj2 (proj2 (proj2 H)))].
Defined.

(** X22.  Two rows of one key that stand for no sample, or for one sample
    between the two of them, cannot be merged: the division by the number
    of samples, or by one less, raises [ZeroDivisionError], if [** 2] has
    not raised before it. *)
Theorem merge_result_raises_without_samples (e r : PerfResult float) :
  (r_samples e + r_samples r = 0 \/ r_samples e + r_samples r = 1)%Z ->
  merge_result float_arith e r = None.
Proof.
  intros [H|H]; unfold merge_result; rewrite H.
  - reflexivity.
  - change (1 - 1)%Z with 0%Z.
    do 5 (match goal with
          | |- mbind _ ?m = None => destruct m; cbn [mbind option_bind]; [|done]
          end).
    reflexivity.
Qed.

Lemma merge_result_raises_without_samples_witness :
  let e := example_row float_arith "read rate" 10%float 0 in
  (r_samples e + r_samples e = 0 \/ r_samples e + r_samples e = 1)%Z
  /\ merge_result float_arith e e = None.
Proof.
  assert (H : (0 + 0 = 0 \/ 0 + 0 = 1)%Z) by (left; reflexivity).
  split; [exact H|].
  exact (merge_result_raises_without_samples
           (example_row float_arith "read rate" 10%float 0)
           (example_row float_arith "read rate" 10%float 0) H).
Defined.

(** ** The prompt after an interrupt, and the output directory *)


(** X24.  Without [purge], or for a test with an outcome other than
    [PASSED], [testComplete] removes the empty files of the directory and
    nothing else: the names left are those of the entries that are not
    empty or could not be removed in three attempts, in order, and other
    directories are untouched. *)
Theorem testComplete_removes_only_empty_files (purge : bool) (testObj : ProcessUser)
    (dir : string) (disk : gmap string (list DirEntry)) (entries : list DirEntry) :
  removeNonZero_flag purge testObj = false ->
  disk !! dir = Some entries ->
  Forall (fun e => is_Some (entry_size e)) entries ->
  map entry_name <$> (testComplete purge testObj dir disk !! dir)
  = Some (map entry_name (List.filter kept_without_purge entries))
  /\ forall dir', dir' <> dir -> testComplete purge testObj dir disk !! dir' = disk !! dir'.
Proof.
  intros Hflag Hdir Hsizes. unfold testComplete. rewrite Hdir, Hflag. split.
  - rewrite lookup_insert_eq. cbn [fmap option_fmap option_map]. f_equal.
    rewrite (purge_entries_names false entries Hsizes). f_equal.
    clear Hdir. induction Hsizes as [|e l [size Hsize] _ IH]; [done|].
    cbn [List.filter]. unfold kept_without_purge at 1.
    assert (Hs : entry_stays false e
                 = negb (bool_decide (entry_size e = Some 0%Z))
                   || (3 <=? entry_remove_failures e)%nat).
    { unfold entry_stays. rewrite Hsize, selected_for_removal_no_purge.
      destruct (size =? 0)%Z eqn:E.
      - apply Z.eqb_eq in E as ->. by rewrite bool_decide_eq_true_2.
      - apply Z.eqb_neq in E. rewrite bool_decide_eq_false_2; [done|congruence]. }
    rewrite <- Hs. destruct (entry_stays false e) eqn:Hst.
    + rewrite filter_cons_True by done. by rewrite IH.
    + rewrite filter_cons_False by (by rewrite Hst). exact IH.
  - intros dir' Hne. by rewrite lookup_insert_ne.
Qed.

Lemma testComplete_removes_only_empty_files_witness :
  let testObj := set_outcome [PASSED; FAILED] (ProcessUser_init false true "/t/out") in
  let file := fun name size =>
    {| entry_name := name; entry_size := Some size; entry_remove_failures := 0 |} in
  let entries := [file "run.log" 120%Z; file "output.txt" 56%Z; file "empty.err" 0%Z] in
  (removeNonZero_flag true testObj = false
   /\ Forall (fun e => is_Some (entry_size e)) entries)
  /\ map entry_name <$> (testComplete true testObj "/t/out" {[ "/t/out" := entries ]} !! "/t/out")
     = Some ["run.log"; "output.txt"].
Proof.
  cbv zeta.
  set (file := fun name size =>
         {| entry_name := name; entry_size := Some size; entry_remove_failures := 0 |}).
  set (entries := [file "run.log" 120%Z; file "output.txt" 56%Z; file "empty.err" 0%Z]).
  assert (Hs : Forall (fun e => is_Some (entry_size e)) entries)
    by (repeat constructor; by eexists).
  split; [by split|].
  exact (proj1 (testComplete_removes_only_empty_files true
                  (set_outcome [PASSED; FAILED] (ProcessUser_init false true "/t/out"))
                  "/t/out" {[ "/t/out" := entries ]} entries eq_refl
                  (lookup_singleton_eq _ _) Hs)).
Defined.
